(** * Excel_Analyser: the analytics engine

    A shallow embedding of the analytics core of the dashboard application
    (the [MathEngine] object, [ExcelDateUtils], [processData] and the
    correlation matrix of [CorrelationView]) together with the properties
    its specification states about it.

    The application is written in JavaScript.  Its numbers are IEEE-754
    binary64 values; they are modelled by Rocq's primitive floats, whose
    operations are the same correctly rounded operations.  The numeric
    functions are written once, over an interface [Arith] of the arithmetic
    they use, and read at two instances: [Float64] (what the program
    computes) and [Exact] (the real numbers, the arithmetic the formulas
    are meant to approximate).

    Arrays are lists; an object is the list of its own properties in the
    order of their creation; strings are Rocq strings, so the model is
    faithful on ASCII text.  A property an object does not own reads as
    [undefined], which is what the program finds under every name but the
    few that [Object.prototype] answers; a statement that depends on such
    a read excludes those names.  Code that threads a mutable object
    through a loop becomes a fold over an explicit state. *)

From Stdlib Require Import String Ascii List Bool Arith ZArith Lia.
From Stdlib Require Import Floats.
From Stdlib Require Import Reals Lra.
From Stdlib Require Import Permutation Sorted.
From Stdlib Require DecimalString DecimalNat.
Import ListNotations.

(* ================================================================== *)
(** * 1. Numbers *)
(* ================================================================== *)

Declare Scope js_scope.
Delimit Scope js_scope with js.

(** The arithmetic of JavaScript numbers the engine relies on.  [nint z] is
    the number an integer literal, an array length or an index denotes;
    [neqb] is [===] and [nltb] is [<] on numbers. *)
Class Arith (num : Type) : Type := {
  nint : Z -> num;
  nadd : num -> num -> num;
  nsub : num -> num -> num;
  nmul : num -> num -> num;
  ndiv : num -> num -> num;
  nsqrt : num -> num;
  neqb : num -> num -> bool;
  nltb : num -> num -> bool
}.

Infix "+" := nadd : js_scope.
Infix "-" := nsub : js_scope.
Infix "*" := nmul : js_scope.
Infix "/" := ndiv : js_scope.
Infix "===" := neqb (at level 70, no associativity) : js_scope.
Infix "<?" := nltb : js_scope.
Notation "x >? y" := (nltb y x) (only parsing) : js_scope.

(** ** The binary64 instance *)

(** The double nearest to the rational [p/q] (ties to even), with sign
    [neg]: the correctly rounded quotient of the specification floats
    [p * 2^0] and [q * 2^0]. *)
Definition float_of_ratio (neg : bool) (p q : positive) : float :=
  SF2Prim (SFdiv prec emax (S754_finite neg p 0) (S754_finite false q 0)).

Definition float_of_Z (z : Z) : float :=
  match z with
  | Z0 => 0%float
  | Zpos p => float_of_ratio false p 1
  | Zneg p => float_of_ratio true p 1
  end.

#[global] Instance Float64 : Arith float := {|
  nint := float_of_Z;
  nadd := PrimFloat.add;
  nsub := PrimFloat.sub;
  nmul := PrimFloat.mul;
  ndiv := PrimFloat.div;
  nsqrt := PrimFloat.sqrt;
  neqb := PrimFloat.eqb;
  nltb := PrimFloat.ltb
|}.

(** ** The exact instance *)

Definition Reqb (x y : R) : bool := if Req_dec_T x y then true else false.
Definition Rltb (x y : R) : bool := if Rlt_dec x y then true else false.

#[global] Instance Exact : Arith R := {|
  nint := IZR;
  nadd := Rplus;
  nsub := Rminus;
  nmul := Rmult;
  ndiv := Rdiv;
  nsqrt := sqrt;
  neqb := Reqb;
  nltb := Rltb
|}.

(* ================================================================== *)
(** * 2. Arrays *)
(* ================================================================== *)

(** [arr.reduce(f, init)] and its form whose callback reads the index. *)
Definition reduce {A B : Type} (f : B -> A -> B) (l : list A) (init : B) : B :=
  fold_left f l init.

Fixpoint reducei_from {A B : Type} (f : B -> A -> nat -> B) (i : nat)
    (l : list A) (acc : B) : B :=
  match l with
  | [] => acc
  | a :: l' => reducei_from f (S i) l' (f acc a i)
  end.

Definition reducei {A B : Type} (f : B -> A -> nat -> B) (l : list A) (init : B) : B :=
  reducei_from f 0 l init.

(** [arr.map((v, i) => ...)]. *)
Fixpoint mapi_from {A B : Type} (f : A -> nat -> B) (i : nat) (l : list A) : list B :=
  match l with
  | [] => []
  | a :: l' => f a i :: mapi_from f (S i) l'
  end.

Definition mapi {A B : Type} (f : A -> nat -> B) (l : list A) : list B :=
  mapi_from f 0 l.

(** [arr.sort(cmp)].  The sort is stable; [before a b] says that the
    comparator puts [a] strictly before [b] (a negative result).  For a
    comparator that orders its arguments consistently the outcome is the
    one stable arrangement, computed here by insertion from the right: an
    element moves behind the elements that are strictly before it and stays
    in front of all others. *)
Fixpoint sort_insert {A : Type} (before : A -> A -> bool) (x : A) (l : list A) : list A :=
  match l with
  | [] => [x]
  | y :: l' => if before y x then y :: sort_insert before x l' else x :: y :: l'
  end.

Definition js_sort {A : Type} (before : A -> A -> bool) (l : list A) : list A :=
  fold_right (sort_insert before) [] l.

(* ================================================================== *)
(** * 3. MathEngine: statistics, trend and anomalies *)
(* ================================================================== *)

Section MathEngine.
Context {num : Type} {A : Arith num}.
Local Open Scope js_scope.

Definition zero : num := nint 0.
Definition one : num := nint 1.
Definition of_nat (n : nat) : num := nint (Z.of_nat n).

(** The literals 0.05 and 1.5: a decimal literal denotes the double
    nearest to its value, which for these short literals is the correctly
    rounded quotient of two small integers. *)
Definition lit_0_05 : num := nint 5 / nint 100.
Definition lit_1_5 : num := nint 3 / nint 2.

(** [(a, b) => a - b] as a sort comparator: [a] goes first when the
    difference is negative. *)
Definition ascending (a b : num) : bool := (a - b) <? zero.

(** [[...values].sort((a, b) => a - b)], for values none of which is
    [NaN].  Against [NaN] the comparator answers [NaN] both ways, it is
    not a consistent comparator, and the language leaves the order of
    such an array to the implementation. *)
Definition sort_numeric (values : list num) : list num := js_sort ascending values.


(** [arr[i]] on an array of numbers, read where the index is in range. *)
Definition at_ (l : list num) (i : nat) : num := nth i l zero.

Definition calculateMedian (values : list num) : num :=
  if (length values =? 0)%nat then zero
  else
    let sorted := sort_numeric values in
    let half := (length sorted / 2)%nat in
    if negb (length sorted mod 2 =? 0)%nat then at_ sorted half
    else (at_ sorted (half - 1) + at_ sorted half) / nint 2.

Definition calculateStdDev (values : list num) (avg : num) : num :=
  if (length values =? 0)%nat then zero
  else
    let squareDiffs := map (fun value => let diff := value - avg in diff * diff) values in
    let avgSquareDiff :=
      reduce (fun a b => a + b) squareDiffs zero / of_nat (length squareDiffs) in
    nsqrt avgSquareDiff.

(** The five sums of [calculateCorrelation] and what it builds of them. *)
Definition sum (x : list num) : num := reduce (fun a b => a + b) x zero.
Definition sumProducts (x y : list num) : num :=
  reducei (fun s xi i => s + xi * at_ y i) x zero.
Definition sumSquares (x : list num) : num := reduce (fun s xi => s + xi * xi) x zero.

(** [n * sumX2 - sumX ** 2]; [x ** 2] is evaluated as the product
    [x * x]. *)
Definition spread (x : list num) : num :=
  of_nat (length x) * sumSquares x - sum x * sum x.

Definition corr_numerator (x y : list num) : num :=
  of_nat (length x) * sumProducts x y - sum x * sum y.

Definition corr_radicand (x y : list num) : num := spread x * spread y.

Definition corr_denominator (x y : list num) : num := nsqrt (corr_radicand x y).

Definition calculateCorrelation (x y : list num) : num :=
  let n := length x in
  if negb (n =? length y)%nat || (n =? 0)%nat then zero
  else
    let numerator := corr_numerator x y in
    let denominator := corr_denominator x y in
    if denominator === zero then zero else numerator / denominator.

(** The object [calculateTrend] returns.  The early returns carry the
    label under the key [trend] and have no [intercept]; the regular
    return carries it under [trendDirection]. *)
Record TrendResult : Type := {
  slope : num;
  intercept : option num;
  nextVal : num;
  trend : option string;
  trendDirection : option string
}.

Definition trend_indices (n : nat) : list num := map of_nat (seq 0 n).

Definition trend_denominator (values : list num) : num :=
  let n := length values in
  let x := trend_indices n in
  of_nat n * sumSquares x - sum x * sum x.

(** [-0.05] is the negation of the literal, which is its difference from
    0. *)
Definition calculateTrend (values : list num) : TrendResult :=
  let n := length values in
  if (n <? 2)%nat then
    {| slope := zero; intercept := None; nextVal := zero;
       trend := Some "stable"%string; trendDirection := None |}
  else
    let x := trend_indices n in
    let y := values in
    let sumX := sum x in
    let sumY := sum y in
    let sumXY := sumProducts x y in
    let denominator := trend_denominator values in
    if denominator === zero then
      {| slope := zero; intercept := None; nextVal := at_ values (n - 1);
         trend := Some "stable"%string; trendDirection := None |}
    else
      let slope := (of_nat n * sumXY - sumX * sumY) / denominator in
      let intercept := (sumY - slope * sumX) / of_nat n in
      let nextVal := slope * of_nat n + intercept in
      let direction :=
        if slope >? lit_0_05 then "increasing"%string
        else if slope <? (zero - lit_0_05) then "decreasing"%string
        else "stable"%string in
      {| slope := slope; intercept := Some intercept; nextVal := nextVal;
         trend := None; trendDirection := Some direction |}.

(** The quartiles are read at [Math.floor(n / 4)] and
    [Math.floor(n * (3 / 4))]; [3 / 4] is 0.75 exactly and both products
    are exact for every array length, so the indices are the integer
    quotients. *)
Definition q1_index (n : nat) : nat := (n / 4)%nat.
Definition q3_index (n : nat) : nat := (3 * n / 4)%nat.

Definition lowerBound (q1 q3 : num) : num := q1 - lit_1_5 * (q3 - q1).
Definition upperBound (q1 q3 : num) : num := q3 + lit_1_5 * (q3 - q1).

Definition is_anomaly (q1 q3 v : num) : bool :=
  (v <? lowerBound q1 q3) || (v >? upperBound q1 q3).

Definition detectAnomalies (values : list num) : list num :=
  if (length values <? 4)%nat then []
  else
    let sorted := sort_numeric values in
    let q1 := at_ sorted (q1_index (length sorted)) in
    let q3 := at_ sorted (q3_index (length sorted)) in
    filter (is_anomaly q1 q3) values.

End MathEngine.

(* ================================================================== *)
(** * 4. The runtime: conversions and built-in functions *)
(* ================================================================== *)

(** What the engine uses of the JavaScript runtime besides arithmetic.
    The engine is written over this interface; [Float64Runtime] below
    implements it for binary64 numbers. *)
Class Runtime (num : Type) {A : Arith num} : Type := {
  (** [NaN] and [Infinity] *)
  nnan : num;
  ninfinity : num;
  (** [Math.min] and [Math.max] of two numbers, [Math.floor] *)
  nmin : num -> num -> num;
  nmax : num -> num -> num;
  nfloor : num -> num;
  (** [parseFloat(x.toFixed(2))] *)
  round2 : num -> num;
  (** [String(x)] and [Number(s)] *)
  number_to_string : num -> string;
  string_to_number : string -> num;
  (** [getUTCFullYear()], [getUTCMonth()] and [getUTCDate()] of
      [new Date(ms)] *)
  date_year : num -> num;
  date_month : num -> num;
  date_date : num -> num
}.

(* ================================================================== *)
(** * 5. Values, objects and sets *)
(* ================================================================== *)

(** A cell of the sheet as [XLSX.utils.sheet_to_json] delivers it, and
    what reading an absent field yields. *)
Inductive value (num : Type) : Type :=
  | VUndefined
  | VNull
  | VBool (b : bool)
  | VNum (x : num)
  | VStr (s : string).

Arguments VUndefined {num}.
Arguments VNull {num}.
Arguments VBool {num} b.
Arguments VNum {num} x.
Arguments VStr {num} s.

(** An object used as a record or as a map from strings: its own
    properties in the order of their creation. *)
Definition obj (V : Type) : Type := list (string * V).

(** The objects of the program are plain objects: a read [o[k]] that
    finds no own property [k] is answered by [Object.prototype], with a
    function or an object for each of the names below and with
    [undefined] for every other name; a write under [__proto__] creates no
    property.  The reads and writes of the model are those of a name that
    is not [inherited]: the statements about a key that the program reads
    without owning it, or writes, carry that condition. *)
Definition prototype_names : list string :=
  [ "constructor"; "hasOwnProperty"; "isPrototypeOf"; "propertyIsEnumerable";
    "toLocaleString"; "toString"; "valueOf"; "__proto__";
    "__defineGetter__"; "__defineSetter__"; "__lookupGetter__"; "__lookupSetter__" ]%string.

Definition inherited (name : string) : bool := existsb (String.eqb name) prototype_names.

(** No name of the list [names] is inherited. *)
Definition plain_names (names : list string) : bool :=
  forallb (fun name => negb (inherited name)) names.

Fixpoint get {V : Type} (o : obj V) (k : string) : option V :=
  match o with
  | [] => None
  | (k', v) :: o' => if String.eqb k' k then Some v else get o' k
  end.

(** [o[k] = v]: an existing property keeps its place. *)
Fixpoint set {V : Type} (o : obj V) (k : string) (v : V) : obj V :=
  match o with
  | [] => [(k, v)]
  | (k', v') :: o' => if String.eqb k' k then (k', v) :: o' else (k', v') :: set o' k v
  end.

Definition hasOwnProperty {V : Type} (o : obj V) (k : string) : bool :=
  match get o k with Some _ => true | None => false end.

Definition is_digit (c : ascii) : bool :=
  let n := nat_of_ascii c in (48 <=? n)%nat && (n <=? 57)%nat.

Fixpoint digits_value (acc : N) (s : string) : option N :=
  match s with
  | EmptyString => Some acc
  | String c s' =>
      if is_digit c then digits_value (acc * 10 + (N_of_ascii c - 48))%N s' else None
  end.

(** An array index: the canonical decimal form of an integer from 0 to
    2^32 - 2. *)
Definition array_index (s : string) : option N :=
  match s with
  | EmptyString => None
  | String c s' =>
      if (c =? "0")%char then
        match s' with EmptyString => Some 0%N | _ => None end
      else if (String.length s <=? 10)%nat then
        match digits_value 0 s with
        | Some n => if (n <=? 4294967294)%N then Some n else None
        | None => None
        end
      else None
  end.

Definition index_keys (ks : list string) : list (N * string) :=
  flat_map (fun k => match array_index k with Some n => [(n, k)] | None => [] end) ks.

Definition is_index_key (k : string) : bool :=
  match array_index k with Some _ => true | None => false end.

(** The order in which the own keys [ks], given in the order of their
    creation, are enumerated: the array indices in ascending order, then
    the other keys as created. *)
Definition own_key_order (ks : list string) : list string :=
  map snd (js_sort (fun a b => (fst a <? fst b)%N) (index_keys ks))
  ++ filter (fun k => negb (is_index_key k)) ks.

(** [Object.keys(o)] *)
Definition keys {V : Type} (o : obj V) : list string := own_key_order (map fst o).

(** [Object.entries(o)] *)
Definition entries {V : Type} (o : obj V) : list (string * V) :=
  flat_map (fun k => match get o k with Some v => [(k, v)] | None => [] end) (keys o).

Section Values.
Context {num : Type} {A : Arith num} {RT : Runtime num}.
Local Open Scope js_scope.

Definition isNaN (x : num) : bool := negb (x === x).

Definition typeof_number (v : value num) : bool :=
  match v with VNum _ => true | _ => false end.

(** [ToBoolean] *)
Definition truthy (v : value num) : bool :=
  match v with
  | VUndefined | VNull => false
  | VBool b => b
  | VNum x => negb ((x === zero) || isNaN x)
  | VStr s => negb (String.eqb s "")
  end.

(** [ToNumber] *)
Definition Number (v : value num) : num :=
  match v with
  | VUndefined => nnan
  | VNull => zero
  | VBool b => if b then one else zero
  | VNum x => x
  | VStr s => string_to_number s
  end.

(** [ToString] *)
Definition String_ (v : value num) : string :=
  match v with
  | VUndefined => "undefined"
  | VNull => "null"
  | VBool b => if b then "true" else "false"
  | VNum x => number_to_string x
  | VStr s => s
  end.

(** [a || b] *)
Definition or_else (a b : value num) : value num := if truthy a then a else b.

(** [val === undefined || val === null || val === ""] *)
Definition is_missing (v : value num) : bool :=
  match v with
  | VUndefined | VNull => true
  | VStr s => String.eqb s ""
  | _ => false
  end.

(** [row[name]], for a name the row owns or one that is not
    [inherited]. *)
Definition field (row : obj (value num)) (name : string) : value num :=
  match get row name with Some v => v | None => VUndefined end.

(** The equality of [Set]: [NaN] equals itself and the zeros are one. *)
Definition same_value_zero (a b : value num) : bool :=
  match a, b with
  | VUndefined, VUndefined => true
  | VNull, VNull => true
  | VBool x, VBool y => Bool.eqb x y
  | VNum x, VNum y => (x === y) || (isNaN x && isNaN y)
  | VStr s, VStr t => String.eqb s t
  | _, _ => false
  end.

(** The value a [Set] stores for [v]: [-0] is stored as [+0]. *)
Definition set_entry (v : value num) : value num :=
  match v with
  | VNum x => if x === zero then VNum zero else v
  | _ => v
  end.

(** [s.add(v)] on a [Set], kept in insertion order. *)
Definition set_add (s : list (value num)) (v : value num) : list (value num) :=
  let v := set_entry v in
  if existsb (same_value_zero v) s then s else s ++ [v].

(** [arr.sort()] without a comparator: [undefined] goes last, everything
    else is ordered by its string form. *)
Definition default_before (a b : value num) : bool :=
  match a, b with
  | VUndefined, _ => false
  | _, VUndefined => true
  | _, _ => String.ltb (String_ a) (String_ b)
  end.

Definition sort_default (l : list (value num)) : list (value num) :=
  js_sort default_before l.

(** [Math.min(...l)] and [Math.max(...l)] *)
Definition Math_min (l : list num) : num := fold_left nmin l ninfinity.
Definition Math_max (l : list num) : num := fold_left nmax l (zero - ninfinity).

End Values.

(* ================================================================== *)
(** * 6. The runtime for binary64 numbers *)
(* ================================================================== *)

Module F64.

Definition pow10 (n : Z) : positive := Z.to_pos (10 ^ n).

(** The double nearest to [m * 10^e]. *)
Definition of_decimal (neg : bool) (m : positive) (e : Z) : float :=
  if (0 <=? e)%Z then float_of_ratio neg (m * pow10 e) 1
  else float_of_ratio neg m (pow10 (- e)).

(** The value of a finite non-zero double as a fraction [(neg, p, q)]
    with [q] a power of two. *)
Definition to_ratio (x : float) : option (bool * positive * positive) :=
  match Prim2SF x with
  | S754_finite neg m e =>
      if (0 <=? e)%Z then Some (neg, (m * Z.to_pos (2 ^ e))%positive, 1%positive)
      else Some (neg, m, Z.to_pos (2 ^ (- e)))
  | _ => None
  end.

Definition neg_zero : float := PrimFloat.opp 0%float.

(** [Math.min] and [Math.max]: [NaN] wins, and [-0] is below [+0]. *)
Definition min (a b : float) : float :=
  if PrimFloat.is_nan a || PrimFloat.is_nan b then PrimFloat.nan
  else if PrimFloat.ltb a b then a
  else if PrimFloat.ltb b a then b
  else if PrimFloat.get_sign a then a else b.

Definition max (a b : float) : float :=
  if PrimFloat.is_nan a || PrimFloat.is_nan b then PrimFloat.nan
  else if PrimFloat.ltb a b then b
  else if PrimFloat.ltb b a then a
  else if PrimFloat.get_sign a then b else a.

(** [Math.floor] *)
Definition floor (x : float) : float :=
  match to_ratio x with
  | Some (neg, p, q) =>
      let z := ((if neg then Z.neg p else Z.pos p) / Z.pos q)%Z in
      if (z =? 0)%Z then (if neg then neg_zero else 0%float) else float_of_Z z
  | None => x
  end.

(** [x.toFixed(2)] read back by [parseFloat].  Below 10^21 in magnitude
    [toFixed] prints the integer [n] for which [n / 100] is nearest to
    [x] (the larger of two), behind a minus sign when [x < 0]; from 10^21
    on, and for [NaN] and the infinities, it prints the number itself.
    Both zeros print as [0.00], which reads back as [+0]. *)
Definition round2 (x : float) : float :=
  match to_ratio x with
  | Some (neg, p, q) =>
      if (Z.pos (pow10 21) * Z.pos q <=? Z.pos p)%Z then x
      else
        let n := ((200 * Z.pos p + Z.pos q) / (2 * Z.pos q))%Z in
        match n with
        | Zpos n' => float_of_ratio neg n' 100
        | _ => if neg then neg_zero else 0%float
        end
  | None => if PrimFloat.eqb x 0%float then 0%float else x
  end.

(** *** Number to string *)

Definition digit_char (d : N) : ascii := ascii_of_N (48 + d).

Fixpoint digits_fuel (fuel : nat) (n : N) (acc : list ascii) : list ascii :=
  match fuel with
  | O => acc
  | S fuel' =>
      let acc' := digit_char (n mod 10) :: acc in
      if (n <? 10)%N then acc' else digits_fuel fuel' (n / 10) acc'
  end.

(** The decimal digits of [n]. *)
Definition digits (n : N) : list ascii := digits_fuel (S (N.to_nat (N.log2 n))) n [].

(** Is [10^n <= p/q]? *)
Definition pow10_le (n : Z) (p q : positive) : bool :=
  if (0 <=? n)%Z then (Z.pos (pow10 n) * Z.pos q <=? Z.pos p)%Z
  else (Z.pos q <=? Z.pos p * Z.pos (pow10 (- n)))%Z.

Fixpoint decade_up (fuel : nat) (n : Z) (p q : positive) : Z :=
  match fuel with
  | O => n
  | S fuel' => if pow10_le n p q then decade_up fuel' (n + 1) p q else n
  end.

Fixpoint decade_down (fuel : nat) (n : Z) (p q : positive) : Z :=
  match fuel with
  | O => n
  | S fuel' => if pow10_le (n - 1) p q then n else decade_down fuel' (n - 1) p q
  end.

(** The [n] with [10^(n-1) <= p/q < 10^n], found from the binary
    logarithms of [p] and [q]. *)
Definition decade (p q : positive) : Z :=
  let guess := ((Z.log2 (Z.pos p) - Z.log2 (Z.pos q)) * 30103 / 100000)%Z in
  decade_up 8 (decade_down 8 guess p q) p q.

(** [s * 10^(n-k)] reads back as [x]. *)
Definition reads_back (x : float) (s : Z) (n k : Z) : bool :=
  match s with
  | Zpos s' => PrimFloat.eqb (of_decimal false s' (n - k)) x
  | _ => false
  end.

(** The candidates with [k] digits: the two multiples of [10^(n-k)]
    around [p/q]; of those that read back as [x], the nearer one, the
    even one when both are as near. *)
Definition shortest_at (x : float) (p q : positive) (n k : Z) : option Z :=
  let '(sp, sq) :=
    if (0 <=? k - n)%Z then (Z.pos p * Z.pos (pow10 (k - n)), Z.pos q)%Z
    else (Z.pos p, Z.pos q * Z.pos (pow10 (n - k)))%Z in
  let lo := (sp / sq)%Z in
  let hi := (lo + 1)%Z in
  let twice_rem := (2 * (sp - lo * sq))%Z in
  let lo_ok := reads_back x lo n k in
  let hi_ok := reads_back x hi n k in
  if lo_ok && hi_ok then
    if (twice_rem <? sq)%Z then Some lo
    else if (sq <? twice_rem)%Z then Some hi
    else if Z.even lo then Some lo else Some hi
  else if lo_ok then Some lo
  else if hi_ok then Some hi
  else None.

Fixpoint shortest_from (fuel : nat) (x : float) (p q : positive) (n k : Z)
    : Z * Z * Z :=
  match fuel with
  | O => (0, n, k)%Z
  | S fuel' =>
      match shortest_at x p q n k with
      | Some s => if (s =? 10 ^ k)%Z then (10 ^ (k - 1), n + 1, k)%Z else (s, n, k)
      | None => shortest_from fuel' x p q n (k + 1)
      end
  end.

Definition zeros (n : Z) : list ascii := repeat "0"%char (Z.to_nat n).

Definition exponent_part (n : Z) : list ascii :=
  "e"%char :: (if (0 <=? n - 1)%Z then "+"%char else "-"%char)
    :: digits (Z.to_N (Z.abs (n - 1))).

(** The layout of the digits [ds] (there are [k]) for the decade [n]. *)
Definition layout (ds : list ascii) (n k : Z) : list ascii :=
  if (k <=? n)%Z && (n <=? 21)%Z then ds ++ zeros (n - k)
  else if (0 <? n)%Z && (n <=? 21)%Z then
    firstn (Z.to_nat n) ds ++ "."%char :: skipn (Z.to_nat n) ds
  else if (-6 <? n)%Z && (n <=? 0)%Z then
    "0"%char :: "."%char :: zeros (- n) ++ ds
  else if (k =? 1)%Z then ds ++ exponent_part n
  else firstn 1 ds ++ "."%char :: skipn 1 ds ++ exponent_part n.

Definition positive_to_string (x : float) (p q : positive) : list ascii :=
  let n := decade p q in
  let '(s, n', k) := shortest_from 17 x p q n 1 in
  layout (digits (Z.to_N s)) n' k.

(** [Number::toString]: the shortest digits that read back as [x]. *)
Definition to_string (x : float) : string :=
  if PrimFloat.is_nan x then "NaN"%string
  else if PrimFloat.is_infinity x then
    (if PrimFloat.get_sign x then "-Infinity" else "Infinity")%string
  else
    match to_ratio x with
    | Some (neg, p, q) =>
        string_of_list_ascii
          ((if neg then ["-"%char] else []) ++ positive_to_string (PrimFloat.abs x) p q)
    | None => "0"%string
    end.

(** *** String to number *)

(** The white space of the ASCII range. *)
Definition is_space (c : ascii) : bool :=
  let n := nat_of_ascii c in
  ((9 <=? n)%nat && (n <=? 13)%nat) || (n =? 32)%nat.

Fixpoint trim_start (l : list ascii) : list ascii :=
  match l with
  | c :: l' => if is_space c then trim_start l' else l
  | [] => []
  end.

Definition trim (l : list ascii) : list ascii :=
  rev (trim_start (rev (trim_start l))).

Definition digit_in (radix : N) (c : ascii) : option N :=
  let n := N_of_ascii c in
  let d :=
    if (48 <=? n)%N && (n <=? 57)%N then Some (n - 48)%N
    else if (97 <=? n)%N && (n <=? 102)%N then Some (n - 87)%N
    else if (65 <=? n)%N && (n <=? 70)%N then Some (n - 55)%N
    else None in
  match d with
  | Some v => if (v <? radix)%N then Some v else None
  | None => None
  end.

(** The leading digits of [l] in [radix]: their value, how many there
    are, and what follows. *)
Fixpoint read_digits (radix : N) (l : list ascii) (acc : N) (count : nat)
    : N * nat * list ascii :=
  match l with
  | c :: l' =>
      match digit_in radix c with
      | Some d => read_digits radix l' (acc * radix + d)%N (S count)
      | None => (acc, count, l)
      end
  | [] => (acc, count, [])
  end.

Definition of_N (neg : bool) (n : N) : float :=
  match n with
  | N0 => if neg then neg_zero else 0%float
  | Npos p => float_of_ratio neg p 1
  end.

Definition read_radix (radix : N) (l : list ascii) : float :=
  match read_digits radix l 0 0 with
  | (n, S _, []) => of_N false n
  | _ => PrimFloat.nan
  end.

(** The exponent part, empty or [e] with a signed integer. *)
Definition read_exponent (l : list ascii) : option Z :=
  match l with
  | [] => Some 0%Z
  | c :: l' =>
      if (c =? "e")%char || (c =? "E")%char then
        let '(neg, l'') :=
          match l' with
          | s :: t =>
              if (s =? "-")%char then (true, t)
              else if (s =? "+")%char then (false, t) else (false, l')
          | [] => (false, l')
          end in
        match read_digits 10 l'' 0 0 with
        | (n, S _, []) => Some (if neg then (- Z.of_N n)%Z else Z.of_N n)
        | _ => None
        end
      else None
  end.

Definition read_decimal (neg : bool) (l : list ascii) : float :=
  let '(ip, ic, rest) := read_digits 10 l 0 0 in
  let '(fp, fc, rest') :=
    match rest with
    | c :: t => if (c =? ".")%char then read_digits 10 t ip 0 else (ip, O, rest)
    | [] => (ip, O, rest)
    end in
  if (ic =? 0)%nat && (fc =? 0)%nat then PrimFloat.nan
  else
    match read_exponent rest' with
    | Some e =>
        match fp with
        | N0 => if neg then neg_zero else 0%float
        | Npos m => of_decimal neg m (e - Z.of_nat fc)
        end
    | None => PrimFloat.nan
    end.

Definition is_infinity_word (l : list ascii) : bool :=
  String.eqb (string_of_list_ascii l) "Infinity".

Definition read_signed (neg : bool) (l : list ascii) : float :=
  if is_infinity_word l then
    (if neg then PrimFloat.neg_infinity else PrimFloat.infinity)
  else read_decimal neg l.

(** [StringToNumber] *)
Definition of_string (s : string) : float :=
  match trim (list_ascii_of_string s) with
  | [] => 0%float
  | c :: l =>
      if (c =? "-")%char then read_signed true l
      else if (c =? "+")%char then read_signed false l
      else
        match c, l with
        | "0"%char, p :: l' =>
            if (p =? "x")%char || (p =? "X")%char then read_radix 16 l'
            else if (p =? "o")%char || (p =? "O")%char then read_radix 8 l'
            else if (p =? "b")%char || (p =? "B")%char then read_radix 2 l'
            else read_signed false (c :: l)
        | _, _ => read_signed false (c :: l)
        end
  end.

(** *** Dates *)

(** The time value of [new Date(ms)]: the integer part of [ms] when it
    is finite and within 8.64e15 of the epoch. *)
Definition time_value (ms : float) : option Z :=
  if PrimFloat.is_nan ms || PrimFloat.is_infinity ms then None
  else
    let t :=
      match to_ratio ms with
      | Some (neg, p, q) =>
          let a := (Z.pos p / Z.pos q)%Z in if neg then (- a)%Z else a
      | None => 0%Z
      end in
    if (Z.abs t <=? 8640000000000000)%Z then Some t else None.

(** Year, month (from 1) and day of the month of the day [z] days after
    1970-01-01 in the proleptic Gregorian calendar. *)
Definition civil_from_days (z : Z) : Z * Z * Z :=
  let z := (z + 719468)%Z in
  let era := (z / 146097)%Z in
  let doe := (z - era * 146097)%Z in
  let yoe := ((doe - doe / 1460 + doe / 36524 - doe / 146096) / 365)%Z in
  let doy := (doe - (365 * yoe + yoe / 4 - yoe / 100))%Z in
  let mp := ((5 * doy + 2) / 153)%Z in
  let d := (doy - (153 * mp + 2) / 5 + 1)%Z in
  let m := if (mp <? 10)%Z then (mp + 3)%Z else (mp - 9)%Z in
  let y := (yoe + era * 400 + (if (m <=? 2)%Z then 1 else 0))%Z in
  (y, m, d).

Definition date_field (f : Z * Z * Z -> Z) (ms : float) : float :=
  match time_value ms with
  | Some t => float_of_Z (f (civil_from_days (t / 86400000)))
  | None => PrimFloat.nan
  end.

Definition year (ms : float) : float := date_field (fun '(y, _, _) => y) ms.
Definition month (ms : float) : float := date_field (fun '(_, m, _) => (m - 1)%Z) ms.
Definition day (ms : float) : float := date_field (fun '(_, _, d) => d) ms.

End F64.

#[global] Instance Float64Runtime : Runtime float := {|
  nnan := PrimFloat.nan;
  ninfinity := PrimFloat.infinity;
  nmin := F64.min;
  nmax := F64.max;
  nfloor := F64.floor;
  round2 := F64.round2;
  number_to_string := F64.to_string;
  string_to_number := F64.of_string;
  date_year := F64.year;
  date_month := F64.month;
  date_date := F64.day
|}.

(* ================================================================== *)
(** * 7. The pivot engine *)
(* ================================================================== *)

(** A row of the sheet. *)
Definition row (num : Type) : Type := obj (value num).

Section Pivot.
Context {num : Type} {A : Arith num} {RT : Runtime num}.
Local Open Scope js_scope.

(** What the loop over the rows builds up. *)
Record PivotState : Type := {
  rowKeySet : list (value num);
  colKeySet : list (value num);
  valuesMap : obj (obj (list (value num)))
}.

Definition pivot_init : PivotState :=
  {| rowKeySet := []; colKeySet := []; valuesMap := [] |}.

(** The rest of the loop body once both keys are known; the text is the
    same in both variants of the application.  The two maps are reached
    by the texts of the keys, which are taken not to be [inherited]: under
    an inherited text the code finds a function or [Object.prototype]
    itself where the model finds nothing. *)
Definition pivot_accumulate (valDim func : string) (st : PivotState)
    (r : row num) (rKey cKey : value num) : PivotState :=
  let rk := String_ rKey in
  let ck := String_ cKey in
  let vm1 :=
    match get (valuesMap st) rk with
    | Some _ => valuesMap st
    | None => set (valuesMap st) rk []
    end in
  let inner := match get vm1 rk with Some o => o | None => [] end in
  let inner1 :=
    match get inner ck with
    | Some _ => inner
    | None => set inner ck []
    end in
  let bucket := match get inner1 ck with Some b => b | None => [] end in
  let val := field r valDim in
  let inner2 :=
    if String.eqb func "Count" || typeof_number val
    then set inner1 ck (bucket ++ [val])
    else inner1 in
  {| rowKeySet := set_add (rowKeySet st) rKey;
     colKeySet := set_add (colKeySet st) cKey;
     valuesMap := set vm1 rk inner2 |}.

(** [MathEngine.performPivot]: the key a dimension gives a row, or
    [None] where the callback returns early. *)
Definition resolve_key (dim : string) (r : row num) : option (value num) :=
  if negb (String.eqb dim "None") then
    let val := field r dim in
    if is_missing val then None else Some val
  else Some (VStr "Total").

Definition pivot_step (rowDim colDim valDim func : string)
    (st : PivotState) (r : row num) : PivotState :=
  match resolve_key rowDim r with
  | None => st
  | Some rKey =>
      match resolve_key colDim r with
      | None => st
      | Some cKey => pivot_accumulate valDim func st r rKey cKey
      end
  end.

(** The second variant of the application never skips a row: a falsy
    field is filed under ["Unknown"]. *)
Definition resolve_key_v2 (dim : string) (r : row num) : value num :=
  if String.eqb dim "None" then VStr "Total"
  else or_else (field r dim) (VStr "Unknown").

Definition pivot_step_v2 (rowDim colDim valDim func : string)
    (st : PivotState) (r : row num) : PivotState :=
  pivot_accumulate valDim func st r (resolve_key_v2 rowDim r) (resolve_key_v2 colDim r).

(** A bucket holds numbers only, except under [Count] (see
    [pivot_buckets_numeric]); [number_of] reads one of its entries. *)
Definition number_of (v : value num) : num :=
  match v with VNum x => x | _ => nnan end.

Definition aggregate (func : string) (vals : list (value num)) : num :=
  if (0 <? length vals)%nat then
    if String.eqb func "Sum" then
      reduce (fun a b => a + number_of b) vals zero
    else if String.eqb func "Average" then
      reduce (fun a b => a + number_of b) vals zero / of_nat (length vals)
    else if String.eqb func "Count" then of_nat (length vals)
    else if String.eqb func "Max" then Math_max (map number_of vals)
    else if String.eqb func "Min" then Math_min (map number_of vals)
    else zero
  else zero.

Record PivotResult : Type := {
  rowKeys : list (value num);
  colKeys : list (value num);
  grid : obj (obj num)
}.

(** [valuesMap[rKey]?.[cKey] || []] *)
Definition bucket_of (vm : obj (obj (list (value num)))) (rKey cKey : value num)
    : list (value num) :=
  match get vm (String_ rKey) with
  | Some inner =>
      match get inner (String_ cKey) with
      | Some vals => vals
      | None => []
      end
  | None => []
  end.

Definition grid_row (func : string) (vm : obj (obj (list (value num))))
    (sortedColKeys : list (value num)) (rKey : value num) : obj num :=
  fold_left
    (fun gr cKey => set gr (String_ cKey) (round2 (aggregate func (bucket_of vm rKey cKey))))
    sortedColKeys [].

(** The part after the loop, again the same text in both variants. *)
Definition pivot_result (func : string) (st : PivotState) : PivotResult :=
  let sortedRowKeys := sort_default (rowKeySet st) in
  let sortedColKeys := sort_default (colKeySet st) in
  let grid :=
    fold_left
      (fun g rKey => set g (String_ rKey) (grid_row func (valuesMap st) sortedColKeys rKey))
      sortedRowKeys [] in
  {| rowKeys := sortedRowKeys; colKeys := sortedColKeys; grid := grid |}.

(** [MathEngine.performPivot] of the full application. *)
Definition performPivot (data : list (row num)) (rowDim colDim valDim func : string)
    : PivotResult :=
  pivot_result func (fold_left (pivot_step rowDim colDim valDim func) data pivot_init).

(** [performPivot] of the second variant. *)
Definition performPivot_v2 (data : list (row num)) (rowDim colDim valDim func : string)
    : PivotResult :=
  pivot_result func (fold_left (pivot_step_v2 rowDim colDim valDim func) data pivot_init).

End Pivot.

(* ================================================================== *)
(** * 8. Date serials *)
(* ================================================================== *)

Section ExcelDateUtils.
Context {num : Type} {A : Arith num} {RT : Runtime num}.
Local Open Scope js_scope.

(** The literal 0.8, read as [lit_0_05] is. *)
Definition lit_0_8 : num := nint 8 / nint 10.

Definition in_date_range (v : value num) : bool :=
  match v with
  | VNum x => (x >? nint 32000) && (x <? nint 75000)
  | _ => false
  end.

Definition isLikelyDate (values : list (value num)) : bool :=
  if (length values =? 0)%nat then false
  else
    let checkLimit := Nat.min (length values) 50 in
    let validCount := length (filter in_date_range (firstn checkLimit values)) in
    (of_nat validCount / of_nat checkLimit) >? lit_0_8.

(** [s.padStart(2, '0')] *)
Definition padStart2 (s : string) : string :=
  match String.length s with
  | 0%nat => "00"
  | 1%nat => String.append "0" s
  | _ => s
  end.

Definition serialToDateStr (serial : num) : string :=
  let utc_days := nfloor (serial - nint 25569) in
  let utc_value := utc_days * nint 86400 in
  let date_info := utc_value * nint 1000 in
  let year := date_year date_info in
  let month := padStart2 (number_to_string (date_month date_info + nint 1)) in
  let day := padStart2 (number_to_string (date_date date_info)) in
  String.append (number_to_string year)
    (String.append "-" (String.append month (String.append "-" day))).

End ExcelDateUtils.

(* ================================================================== *)
(** * 9. The dataset profiler: [processData] *)
(* ================================================================== *)

Definition dataset (num : Type) : Type := list (row num).

Section Profiler.
Context {num : Type} {A : Arith num} {RT : Runtime num}.
Local Open Scope js_scope.

(** ** Step 1: date detection and conversion *)

(** [json.slice(0, 50).map(row => row[header])] *)
Definition sampleValues (json : dataset num) (header : string) : list (value num) :=
  map (fun r => field r header) (firstn 50 json).

(** [s.add(k)] on a [Set] of strings. *)
Definition string_set_add (s : list string) (k : string) : list string :=
  if existsb (String.eqb k) s then s else s ++ [k].

(** The body of [headers.forEach] in the date step. *)
Definition detect_step (json : dataset num) (dateColumns : list string) (header : string)
    : list string :=
  if isLikelyDate (sampleValues json header)
  then string_set_add dateColumns header
  else dateColumns.

Definition detect_date_columns (json : dataset num) (headers : list string) : list string :=
  fold_left (detect_step json) headers [].

(** The body of [dateColumns.forEach] for one row: a number in a date
    column is overwritten by its date string. *)
Definition convert_cell (r : row num) (col : string) : row num :=
  match field r col with
  | VNum x => set r col (VStr (serialToDateStr x))
  | _ => r
  end.

Definition convert_row (dateColumns : list string) (r : row num) : row num :=
  fold_left convert_cell dateColumns r.

Definition convert_dates (json : dataset num) (headers : list string) : dataset num :=
  let dateColumns := detect_date_columns json headers in
  if (0 <? length dateColumns)%nat then map (convert_row dateColumns) json
  else json.

(** ** Step 2: classification *)

(** [val !== undefined && val !== null && val !== ''] *)
Definition is_present (v : value num) : bool := negb (is_missing v).

(** The loop over the inspected rows of one column, with its [break]:
    the final [isNum] and [checkCount]. *)
Fixpoint inspect (header : string) (rows : dataset num) (checkCount : nat) : bool * nat :=
  match rows with
  | [] => (true, checkCount)
  | r :: rest =>
      let val := field r header in
      if is_present val then
        if isNaN (Number val) then (false, S checkCount)
        else inspect header rest (S checkCount)
      else inspect header rest checkCount
  end.

Definition is_numeric_column (json : dataset num) (header : string) : bool :=
  let '(isNum, checkCount) := inspect header (firstn (Nat.min (length json) 50) json) 0 in
  (0 <? checkCount)%nat && isNum.

(** The body of the loop over the headers: an empty array under the
    header in [numericCols] or in [catCols]. *)
Definition classify_step (json : dataset num)
    (cols : obj (list num) * obj (list string)) (header : string)
    : obj (list num) * obj (list string) :=
  let '(numericCols, catCols) := cols in
  if is_numeric_column json header
  then (set numericCols header [], catCols)
  else (numericCols, set catCols header []).

Definition classify (json : dataset num) (headers : list string)
    : obj (list num) * obj (list string) :=
  fold_left (classify_step json) headers ([], []).

(** [Number(v) || 0] *)
Definition number_or_zero (v : value num) : num :=
  let x := Number v in
  if truthy (VNum x) then x else zero.

(** [String(v || "N/A")] *)
Definition label_of (v : value num) : string := String_ (or_else v (VStr "N/A")).

(** The body of the inner loop of the extraction: the cell of row [r]
    under [header] is pushed to the array the classification made for the
    header. *)
Definition extract_cell (r : row num) (cols : obj (list num) * obj (list string))
    (header : string) : obj (list num) * obj (list string) :=
  let '(numericCols, catCols) := cols in
  if hasOwnProperty numericCols header then
    let values := match get numericCols header with Some l => l | None => [] end in
    (set numericCols header (values ++ [number_or_zero (field r header)]), catCols)
  else
    match get catCols header with
    | Some values => (numericCols, set catCols header (values ++ [label_of (field r header)]))
    | None => (numericCols, catCols)
    end.

(** [json.forEach(row => headers.forEach(header => ...))] *)
Definition extract (json : dataset num) (headers : list string)
    (cols : obj (list num) * obj (list string)) : obj (list num) * obj (list string) :=
  fold_left (fun cols r => fold_left (extract_cell r) headers cols) json cols.

(** ** Step 3: the KPIs *)

Record NumericKPI : Type := {
  column : string;
  rawData : list num;
  kpi_min : num;
  kpi_max : num;
  avg : num;
  median : num;
  stdDev : num
}.

(** The callback of [Object.entries(numericCols).map]. *)
Definition numericKPI (entry : string * list num) : NumericKPI :=
  let '(col, values) := entry in
  let avg := reduce (fun a b => a + b) values zero / of_nat (length values) in
  {| column := col;
     rawData := values;
     kpi_min := Math_min values;
     kpi_max := Math_max values;
     avg := round2 avg;
     median := round2 (calculateMedian values);
     stdDev := round2 (calculateStdDev values avg) |}.

Record TopValue : Type := { name : string; count : nat }.

Record CategoricalKPI : Type := {
  cat_column : string;
  topValues : list TopValue;
  uniqueCount : nat
}.

(** [counts[v] = (counts[v] || 0) + 1], for a label [v] that is not
    [inherited] (for one that is, the first read finds the inherited
    function and the count becomes a string).  A count is an integer far
    below 2^53, where the increment and the comparison of doubles are
    exact; it is kept as a natural number. *)
Definition count_value (counts : obj nat) (v : string) : obj nat :=
  set counts v (match get counts v with Some c => c | None => 0%nat end + 1)%nat.

Definition count_values (values : list string) : obj nat :=
  fold_left count_value values [].

(** [(a, b) => b[1] - a[1]]: the larger count first. *)
Definition by_count_desc (a b : string * nat) : bool := (snd b <? snd a)%nat.

Definition sorted_counts (values : list string) : list (string * nat) :=
  js_sort by_count_desc (entries (count_values values)).

(** The callback of [Object.entries(catCols).map]. *)
Definition categoricalKPI (entry : string * list string) : CategoricalKPI :=
  let '(col, values) := entry in
  let sorted := sorted_counts values in
  {| cat_column := col;
     topValues := map (fun '(n, c) => {| name := n; count := c |}) (firstn 5 sorted);
     uniqueCount := length sorted |}.

Record AnalyticsData : Type := {
  numeric : list NumericKPI;
  categorical : list CategoricalKPI;
  raw : dataset num;
  headers : list string
}.

(** Steps 2 and 3 on the rows as they stand. *)
Definition profile (json : dataset num) (headers : list string) : AnalyticsData :=
  let '(numericCols, catCols) := extract json headers (classify json headers) in
  {| numeric := map numericKPI (entries numericCols);
     categorical := map categoricalKPI (entries catCols);
     raw := json;
     headers := headers |}.

(** [Object.keys(json[0])] *)
Definition headers_of (json : dataset num) : list string :=
  match json with
  | r :: _ => keys r
  | [] => []
  end.

(** [processData] of the full application.  It overwrites the cells of
    the date columns in the rows it is given, so it yields the rows as it
    leaves them together with what it passes to [setAnalyticsData]
    ([None] when it returns at once). *)
Definition processData (json : dataset num) : dataset num * option AnalyticsData :=
  match json with
  | [] => (json, None)
  | _ :: _ =>
      let headers := headers_of json in
      let json' := convert_dates json headers in
      (json', Some (profile json' headers))
  end.

(** [processData] of the second variant, which has no date step and is
    only called on a sheet with rows. *)
Definition processData_v2 (json : dataset num) : AnalyticsData :=
  profile json (headers_of json).

(** ** The correlation matrix of [CorrelationView] *)

Definition rawData_at (numericKPIs : list NumericKPI) (i : nat) : list num :=
  match nth_error numericKPIs i with
  | Some k => rawData k
  | None => []
  end.

Definition correlationGrid (numericKPIs : list NumericKPI) : list (list num) :=
  let headers := map column numericKPIs in
  mapi (fun _ i =>
          mapi (fun _ j =>
                  if (i =? j)%nat then one
                  else calculateCorrelation (rawData_at numericKPIs i)
                                            (rawData_at numericKPIs j))
               headers)
       headers.

Definition correlationMatrix (numericKPIs : list NumericKPI)
    : list string * list (list num) :=
  (map column numericKPIs, correlationGrid numericKPIs).

End Profiler.

(* ================================================================== *)
(** * 10. Vocabulary of the statements *)
(* ================================================================== *)

(** [h] occurs in [l]. *)
Definition mem (h : string) (l : list string) : bool := existsb (String.eqb h) l.

(** In a sorted array no element is strictly before its left neighbour. *)
Definition in_order {T : Type} (before : T -> T -> bool) (a b : T) : Prop :=
  before b a = false.

(** The comparator that puts the larger [key] first. *)
Definition larger_first {T : Type} (key : T -> nat) (a b : T) : bool :=
  (key b <? key a)%nat.

(** The count a value has in a counting object, 0 when it has none. *)
Definition count_base (o : obj nat) (v : string) : nat :=
  match get o v with Some c => c | None => 0%nat end.

(** The distinct elements of [l], each at its first occurrence. *)
Fixpoint first_seen (l : list string) : list string :=
  match l with
  | [] => []
  | v :: l' => v :: filter (fun w => negb (String.eqb v w)) (first_seen l')
  end.

Section ExactVocabulary.
Local Open Scope R_scope.

Fixpoint Rsum (l : list R) : R :=
  match l with
  | [] => 0
  | a :: l' => a + Rsum l'
  end.

Definition squares (l : list R) : list R := map (fun v => v * v) l.

(** The sum of the squared distances of the elements of [l] to [a]. *)
Definition dev2 (a : R) (l : list R) : R := Rsum (map (fun v => (v - a) * (v - a)) l).

End ExactVocabulary.

Section PivotVocabulary.
Context {num : Type} {A : Arith num} {RT : Runtime num}.

(** The fields of [r] in the real dimensions are truthy. *)
Definition dimensions_truthy (rowDim colDim : string) (r : row num) : Prop :=
  (rowDim = "None"%string \/ truthy (field r rowDim) = true)
  /\ (colDim = "None"%string \/ truthy (field r colDim) = true).

End PivotVocabulary.

Section ProfilerVocabulary.
Context {num : Type} {A : Arith num} {RT : Runtime num}.

(** The strings the profiler collects for a categorical column. *)
Definition column_labels (json : dataset num) (header : string) : list string :=
  map (fun r => label_of (field r header)) json.

(** The numbers it collects for a numeric column. *)
Definition column_numbers (json : dataset num) (header : string) : list num :=
  map (fun r => number_or_zero (field r header)) json.


End ProfilerVocabulary.

Section BucketVocabulary.
Context {num : Type}.

(** Every entry of every bucket is a number. *)
Definition buckets_numeric (vm : obj (obj (list (value num)))) : Prop :=
  forall rk inner ck bucket v,
    get vm rk = Some inner -> get inner ck = Some bucket -> In v bucket ->
    typeof_number v = true.

End BucketVocabulary.

(** ** Sample data *)

Definition sale_without_region : row float := [("amount"%string, VNum 10%float)].

Definition sales_by_region : list (row float) :=
  [ [("region"%string, VStr "A"); ("amount"%string, VNum 10%float)];
    [("region"%string, VStr "A"); ("amount"%string, VNum 20%float)];
    [("region"%string, VStr "B"); ("amount"%string, VNum 5%float)] ].

Definition constant_kpi : @NumericKPI float :=
  {| column := "flat"; rawData := [5%float; 5%float];
     kpi_min := 5%float; kpi_max := 5%float;
     avg := 5%float; median := 5%float; stdDev := 0%float |}.

Set Warnings "-inexact-float".

(** The KPI of a column that holds 4.35 in each of its three rows. *)
Definition constant_rate_kpi : @NumericKPI float :=
  numericKPI (RT:=Float64Runtime) ("rate"%string, [4.35%float; 4.35%float; 4.35%float]).

Definition infinite_text_column : dataset float := [ [("n"%string, VStr "Infinity")] ].


Definition codes_b_7_3 : dataset float :=
  [ [("code"%string, VStr "b")]; [("code"%string, VStr "7")]; [("code"%string, VStr "3")] ].

(** ** Rounding *)


(* ================================================================== *)
(** * 11. String methods and JSON text *)
(* ================================================================== *)

(** The methods of [String.prototype] the data preparation uses, on the
    ASCII range: a character outside it is left as it is. *)
Module Str.

(** The text lies in the ASCII range, where a character of the model
    is a character of the program. *)
Definition is_ascii (s : string) : bool :=
  forallb (fun c => (nat_of_ascii c <? 128)%nat) (list_ascii_of_string s).

(** [s.trim()], for a text in the ASCII range: the white space the
    language knows outside it (the no-break space among others) is not
    modelled. *)
Definition trim (s : string) : string :=
  string_of_list_ascii (F64.trim (list_ascii_of_string s)).

Definition upper_char (c : ascii) : ascii :=
  let n := nat_of_ascii c in
  if (97 <=? n)%nat && (n <=? 122)%nat then ascii_of_nat (n - 32) else c.

Definition lower_char (c : ascii) : ascii :=
  let n := nat_of_ascii c in
  if (65 <=? n)%nat && (n <=? 90)%nat then ascii_of_nat (n + 32) else c.

Fixpoint map_chars (f : ascii -> ascii) (s : string) : string :=
  match s with
  | EmptyString => EmptyString
  | String c s' => String (f c) (map_chars f s')
  end.

(** [s.toUpperCase()] and [s.toLowerCase()] *)
Definition toUpperCase (s : string) : string := map_chars upper_char s.
Definition toLowerCase (s : string) : string := map_chars lower_char s.

(** [s.charAt(0)] and [s.slice(1)] *)
Definition charAt0 (s : string) : string :=
  match s with
  | EmptyString => EmptyString
  | String c _ => String c EmptyString
  end.

Definition slice1 (s : string) : string :=
  match s with
  | EmptyString => EmptyString
  | String _ s' => s'
  end.

Definition of_rev (part : list ascii) : string := string_of_list_ascii (rev part).

(** [s.split(sep)] for a separator that is not empty: the text between
    the occurrences of [sep], found from left to right.  [skip] counts the
    characters of an occurrence still to pass, [part] holds the text since
    the last occurrence, latest character first. *)
Fixpoint split_from (sep : string) (skip : nat) (part : list ascii) (s : string)
    : list string :=
  match s with
  | EmptyString => [of_rev part]
  | String c s' =>
      match skip with
      | S k => split_from sep k part s'
      | O =>
          if String.prefix sep s
          then of_rev part :: split_from sep (String.length sep - 1) [] s'
          else split_from sep 0 (c :: part) s'
      end
  end.

Definition split (sep s : string) : list string := split_from sep 0 [] s.

(** The decimal digits of a count or an index, as a template literal
    prints them. *)
Definition decimal (n : nat) : string := DecimalString.NilZero.string_of_uint (Nat.to_uint n).

End Str.

(** ** [JSON.stringify] of a row *)

Module Json.

Definition quote_mark : ascii := ascii_of_nat 34.
Definition backslash : ascii := ascii_of_nat 92.

Definition hex_digit (n : nat) : ascii :=
  if (n <? 10)%nat then ascii_of_nat (48 + n) else ascii_of_nat (87 + n).

(** The escape of one character inside a JSON string. *)
Definition escape_char (c : ascii) : list ascii :=
  let n := nat_of_ascii c in
  if (n =? 8)%nat then [backslash; "b"%char]
  else if (n =? 9)%nat then [backslash; "t"%char]
  else if (n =? 10)%nat then [backslash; "n"%char]
  else if (n =? 12)%nat then [backslash; "f"%char]
  else if (n =? 13)%nat then [backslash; "r"%char]
  else if (n =? 34)%nat then [backslash; quote_mark]
  else if (n =? 92)%nat then [backslash; backslash]
  else if (n <? 32)%nat then
    [backslash; "u"%char; "0"%char; "0"%char; hex_digit (n / 16); hex_digit (n mod 16)]
  else [c].

Definition quote (s : string) : string :=
  string_of_list_ascii
    (quote_mark :: flat_map escape_char (list_ascii_of_string s) ++ [quote_mark]).

Fixpoint join (sep : string) (l : list string) : string :=
  match l with
  | [] => EmptyString
  | [s] => s
  | s :: l' => String.append s (String.append sep (join sep l'))
  end.

End Json.

Section JsonText.
Context {num : Type} {A : Arith num} {RT : Runtime num}.
Local Open Scope js_scope.

(** [Number.isFinite] *)
Definition is_finite (x : num) : bool :=
  negb (isNaN x || (x === ninfinity) || (x === zero - ninfinity)).

(** The JSON text of a cell; a property whose value is [undefined] is
    left out of the text of its object. *)
Definition json_value (v : value num) : option string :=
  match v with
  | VUndefined => None
  | VNull => Some "null"%string
  | VBool b => Some (if b then "true" else "false")%string
  | VNum x => Some (if is_finite x then number_to_string x else "null"%string)
  | VStr s => Some (Json.quote s)
  end.

Definition json_member (e : string * value num) : list string :=
  match json_value (snd e) with
  | Some t => [String.append (Json.quote (fst e)) (String.append ":" t)]
  | None => []
  end.

(** [JSON.stringify(row)] *)
Definition JSON_stringify (r : row num) : string :=
  String.append "{" (String.append (Json.join "," (flat_map json_member (entries r))) "}").

End JsonText.

(* ================================================================== *)
(** * 12. DataTransformer: the data preparation *)
(* ================================================================== *)

Section DataTransformer.
Context {num : Type} {A : Arith num} {RT : Runtime num}.
Local Open Scope js_scope.

(** [{ ...row, [column]: v }]: a new object with the own properties of
    [row] in the order of their enumeration, then the assignment. *)
Definition with_field (r : row num) (column : string) (v : value num) : row num :=
  set (entries r) column v.

(** The callback of [data.filter] in [removeDuplicates], with the set
    [seen] it updates: a row is kept when its JSON text has not been seen
    before. *)
Fixpoint remove_seen (seen : list string) (data : dataset num) : dataset num :=
  match data with
  | [] => []
  | r :: rest =>
      let serialized := JSON_stringify r in
      let isDuplicate := mem serialized seen in
      let seen' := string_set_add seen serialized in
      if negb isDuplicate then r :: remove_seen seen' rest else remove_seen seen' rest
  end.

Definition removeDuplicates (data : dataset num) : dataset num := remove_seen [] data.

(** The mean [handleMissingValues] fills in: over the cells of the
    column whose conversion to a number is not [NaN]. *)
Definition column_mean (data : dataset num) (column : string) : num :=
  let numericValues :=
    filter (fun v => negb (isNaN v)) (map (fun r => Number (field r column)) data) in
  if (0 <? length numericValues)%nat
  then reduce (fun a b => a + b) numericValues zero / of_nat (length numericValues)
  else zero.

Definition fill_value (strategy : string) (mean : num) (val : value num) : value num :=
  if String.eqb strategy "fill-zero" then VNum zero
  else if String.eqb strategy "fill-mean" then VNum (round2 mean)
  else if String.eqb strategy "fill-unknown" then VStr "Unknown"
  else val.

Definition handleMissingValues (data : dataset num) (column strategy : string)
    : dataset num :=
  if String.eqb strategy "drop-row" then
    filter (fun r => is_present (field r column)) data
  else
    let mean := column_mean data column in
    map (fun r =>
           let val := field r column in
           if is_missing val then with_field r column (fill_value strategy mean val)
           else r)
        data.

(** The key [`${column}_${index + 1}`] *)
Definition part_column (column : string) (index : nat) : string :=
  String.append column (String.append "_" (Str.decimal (index + 1))).

Definition textToColumns (data : dataset num) (column delimiter : string) : dataset num :=
  if String.eqb delimiter "" then data
  else
    map (fun r =>
           let val := String_ (or_else (field r column) (VStr "")) in
           let parts := Str.split delimiter val in
           reducei (fun newRow part index =>
                      set newRow (part_column column index) (VStr (Str.trim part)))
                   parts (entries r))
        data.

(** What the four tests of [standardizeFormat] make of a text. *)
Definition standardize (type val : string) : string :=
  let val := if String.eqb type "uppercase" then Str.toUpperCase val else val in
  let val := if String.eqb type "lowercase" then Str.toLowerCase val else val in
  let val := if String.eqb type "trim" then Str.trim val else val in
  if String.eqb type "capitalize"
  then String.append (Str.toUpperCase (Str.charAt0 val)) (Str.toLowerCase (Str.slice1 val))
  else val.

Definition standardizeFormat (data : dataset num) (column type : string) : dataset num :=
  map (fun r =>
         match field r column with
         | VStr val => with_field r column (VStr (standardize type val))
         | _ => r
         end)
      data.

(** [val !== ""] *)
Definition not_empty_string (v : value num) : bool :=
  match v with
  | VStr s => negb (String.eqb s "")
  | _ => true
  end.

(** The inner loop of [validateTypes]: the two counts of a column. *)
Definition count_step (header : string) (counts : nat * nat) (r : row num) : nat * nat :=
  let '(numCount, strCount) := counts in
  let val := field r header in
  if negb (isNaN (Number val)) && not_empty_string val then (S numCount, strCount)
  else if is_present val then (numCount, S strCount)
  else (numCount, strCount).

Definition count_types (data : dataset num) (header : string) : nat * nat :=
  fold_left (count_step header) data (0%nat, 0%nat).

Definition mixed_message (numCount strCount : nat) : string :=
  String.append "Mixed types: "
    (String.append (Str.decimal numCount)
       (String.append " Numbers, "
          (String.append (Str.decimal strCount) " Strings"))).

Definition validate_step (data : dataset num) (report : obj string) (header : string)
    : obj string :=
  let '(numCount, strCount) := count_types data header in
  if (0 <? numCount)%nat && (0 <? strCount)%nat
  then set report header (mixed_message numCount strCount)
  else report.

Definition validateTypes (data : dataset num) (headers : list string) : obj string :=
  fold_left (validate_step data) headers [].

End DataTransformer.

(* ================================================================== *)
(** * 13. DataCleaningView: the preparation studio *)
(* ================================================================== *)

Module DataCleaningView.
Section State.
Context {num : Type} {A : Arith num} {RT : Runtime num}.

(** The state of the component.  [selectedCol] is [null] or a header. *)
Record State : Type := {
  data : dataset num;
  headers : list string;
  selectedCol : option string;
  history : list (dataset num);
  validationReport : obj string
}.

(** What a click asks of [applyTransform]: the action, with the
    parameter the action reads and, for the text split, the answer to the
    prompt ([None] when it is dismissed). *)
Inductive Action : Type :=
  | RemoveDuplicates
  | MissingVals (strategy : string)
  | TextToColumns (answer : option string)
  | Standardize (type : string)
  | DeleteCol
  | OtherAction.

(** [arr.slice(-4)] and [arr.slice(0, -1)] *)
Definition last4 {T : Type} (l : list T) : list T := skipn (length l - 4) l.
Definition without_last {T : Type} (l : list T) : list T := firstn (length l - 1) l.

(** [const { [selectedCol]: _, ...rest } = row] *)
Definition rest_without (col : string) (r : row num) : row num :=
  filter (fun e => negb (String.eqb (fst e) col)) (entries r).

(** [!selectedCol] *)
Definition no_selection (sel : option string) : bool :=
  match sel with
  | None => true
  | Some s => String.eqb s ""
  end.

Definition selected (sel : option string) : string :=
  match sel with Some s => s | None => EmptyString end.

(** The effect that follows a change of [data]. *)
Definition refresh (st : State) : State :=
  match data st with
  | r :: _ =>
      {| data := data st;
         headers := keys r;
         selectedCol := selectedCol st;
         history := history st;
         validationReport := validateTypes (data st) (keys r) |}
  | [] => st
  end.

(** The component as it is mounted on the uploaded rows. *)
Definition mount (rawData : dataset num) : State :=
  refresh {| data := rawData;
             headers := match rawData with r :: _ => keys r | [] => [] end;
             selectedCol := None;
             history := [];
             validationReport := [] |}.

(** The new data and selection of [applyTransform], [None] where it
    returns before [setData]. *)
Definition transform (action : Action) (st : State)
    : option (dataset num * option string) :=
  let newData := data st in
  let sel := selectedCol st in
  match action with
  | RemoveDuplicates => Some (removeDuplicates newData, sel)
  | MissingVals strategy =>
      if no_selection sel then None
      else Some (handleMissingValues newData (selected sel) strategy, sel)
  | TextToColumns answer =>
      if no_selection sel then None
      else
        match answer with
        | Some delimiter =>
            if String.eqb delimiter "" then Some (newData, sel)
            else Some (textToColumns newData (selected sel) delimiter, sel)
        | None => Some (newData, sel)
        end
  | Standardize type =>
      if no_selection sel then None
      else Some (standardizeFormat newData (selected sel) type, sel)
  | DeleteCol =>
      if no_selection sel then None
      else Some (map (rest_without (selected sel)) newData, None)
  | OtherAction => Some (newData, sel)
  end.

(** [applyTransform]: the snapshot is pushed first, whatever follows. *)
Definition applyTransform (action : Action) (st : State) : State :=
  let pushed := last4 (history st) ++ [data st] in
  match transform action st with
  | Some (newData, sel) =>
      refresh {| data := newData;
                 headers := headers st;
                 selectedCol := sel;
                 history := pushed;
                 validationReport := validationReport st |}
  | None =>
      {| data := data st;
         headers := headers st;
         selectedCol := selectedCol st;
         history := pushed;
         validationReport := validationReport st |}
  end.

Definition handleUndo (st : State) : State :=
  match rev (history st) with
  | [] => st
  | previous :: _ =>
      refresh {| data := previous;
                 headers := headers st;
                 selectedCol := selectedCol st;
                 history := without_last (history st);
                 validationReport := validationReport st |}
  end.

(** A click on a header. *)
Definition select (h : string) (st : State) : State :=
  {| data := data st;
     headers := headers st;
     selectedCol := Some h;
     history := history st;
     validationReport := validationReport st |}.

(** What the user does in the studio. *)
Inductive Event : Type :=
  | Apply (action : Action)
  | Undo
  | Select (h : string).

Definition handle (st : State) (e : Event) : State :=
  match e with
  | Apply action => applyTransform action st
  | Undo => handleUndo st
  | Select h => select h st
  end.

Definition run (rawData : dataset num) (events : list Event) : State :=
  fold_left handle events (mount rawData).

End State.
End DataCleaningView.

(* ================================================================== *)
(** * 14. MathEngine: the insights *)
(* ================================================================== *)

(** [x.toFixed(2)], the one number format of the insight texts. *)
Class Format (num : Type) : Type := {
  toFixed2 : num -> string
}.

(** For a double below 10^21 in magnitude: the sign, then the integer
    [n] for which [n / 100] is nearest to the magnitude (the larger of
    two), printed with its last two digits behind the point.  From 10^21
    on, and for [NaN] and the infinities, the number is printed as
    [String] prints it. *)
Definition to_fixed2 (x : float) : string :=
  match F64.to_ratio x with
  | Some (neg, p, q) =>
      if (Z.pos (F64.pow10 21) * Z.pos q <=? Z.pos p)%Z then F64.to_string x
      else
        let n := Z.to_N ((200 * Z.pos p + Z.pos q) / (2 * Z.pos q)) in
        let cents := (n mod 100)%N in
        string_of_list_ascii
          ((if neg then ["-"%char] else [])
             ++ F64.digits (n / 100)
             ++ ["."%char; F64.digit_char (cents / 10); F64.digit_char (cents mod 10)])
  | None =>
      if PrimFloat.is_nan x || PrimFloat.is_infinity x then F64.to_string x
      else "0.00"%string
  end.

#[global] Instance Float64Format : Format float := {| toFixed2 := to_fixed2 |}.

Module Insights.

Record Insight : Type := {
  type : string;
  text : string;
  score : string
}.

(** The object [generateInsights] returns. *)
Record Result (num : Type) : Type := {
  insights : list Insight;
  anomalies : list num;
  nextVal : num;
  slope : num
}.

Arguments insights {num} r.
Arguments anomalies {num} r.
Arguments nextVal {num} r.
Arguments slope {num} r.

End Insights.

Section GenerateInsights.
Context {num : Type} {A : Arith num} {FM : Format num}.
Local Open Scope js_scope.

(** [trendDirection !== 'stable']: the property read from the result of
    [calculateTrend] is [undefined] where the result does not have it. *)
Definition not_stable (trendDirection : option string) : bool :=
  match trendDirection with
  | Some d => negb (String.eqb d "stable")
  | None => true
  end.

(** [`${trendDirection}`] *)
Definition direction_text (trendDirection : option string) : string :=
  match trendDirection with
  | Some d => d
  | None => "undefined"%string
  end.

(** The three insights, with the texts of the variant between the
    values. *)
Definition trend_insight (before after : string) (colName : string)
    (trendDirection : option string) : Insights.Insight :=
  {| Insights.type := "trend";
     Insights.text :=
       String.append colName
         (String.append before (String.append (direction_text trendDirection) after));
     Insights.score := "high" |}.

Definition prediction_insight (before after : string) (nextVal : num) : Insights.Insight :=
  {| Insights.type := "prediction";
     Insights.text := String.append before (String.append (toFixed2 nextVal) after);
     Insights.score := "medium" |}.

Definition anomaly_insight (before after : string) (n : nat) : Insights.Insight :=
  {| Insights.type := "anomaly";
     Insights.text := String.append before (String.append (Str.decimal n) after);
     Insights.score := "critical" |}.

(** The body both variants share. *)
Definition insights_with
    (trend_of : string -> option string -> Insights.Insight)
    (prediction_of : num -> Insights.Insight)
    (anomaly_of : nat -> Insights.Insight)
    (colName : string) (values : list num) : Insights.Result num :=
  let t := calculateTrend values in
  let anomalies := detectAnomalies values in
  let insights := [] in
  let insights :=
    if not_stable (trendDirection t)
    then insights ++ [trend_of colName (trendDirection t)]
    else insights in
  let insights := insights ++ [prediction_of (nextVal t)] in
  let insights :=
    if (0 <? length anomalies)%nat
    then insights ++ [anomaly_of (length anomalies)]
    else insights in
  {| Insights.insights := insights;
     Insights.anomalies := anomalies;
     Insights.nextVal := nextVal t;
     Insights.slope := slope t |}.

(** [MathEngine.generateInsights] of the full application. *)
Definition generateInsights (colName : string) (values : list num) : Insights.Result num :=
  insights_with
    (trend_insight " shows a statistically significant " " trend.")
    (prediction_insight "Forecasted next value: " ".")
    (anomaly_insight "Detected " " outliers in the data distribution.")
    colName values.

(** [generateInsights] of the second variant. *)
Definition generateInsights_v2 (colName : string) (values : list num)
    : Insights.Result num :=
  insights_with
    (trend_insight " shows a statistically significant " " trend over the dataset order.")
    (prediction_insight
       "Based on linear regression, the forecasted value for the next entry is " ".")
    (anomaly_insight "Detected "
       " anomalies (outliers). Deviations may indicate errors or critical events.")
    colName values.

End GenerateInsights.

(** ** AIInsightsView *)

Module AIInsightsView.
Section View.
Context {num : Type} {A : Arith num} {RT : Runtime num} {FM : Format num}.
Local Open Scope js_scope.

(** [numericKPIs.find(k => k.column === selectedKPI) || numericKPIs[0]] *)
Definition targetKPI (numericKPIs : list (@NumericKPI num)) (selectedKPI : string)
    : option (@NumericKPI num) :=
  match find (fun k => String.eqb (column k) selectedKPI) numericKPIs with
  | Some k => Some k
  | None => hd_error numericKPIs
  end.

(** What the view computes of the target. *)
Definition analysis (target : option (@NumericKPI num)) : Insights.Result num :=
  match target with
  | None =>
      {| Insights.insights := []; Insights.anomalies := [];
         Insights.nextVal := zero; Insights.slope := zero |}
  | Some k => generateInsights (column k) (rawData k)
  end.

(** The data of the chart's trend line and of its forecast series. *)
Definition trendLine (k : @NumericKPI num) (slope : num) : list num :=
  mapi (fun _ i =>
          slope * of_nat i + (avg k - slope * of_nat (length (rawData k)) / nint 2))
       (rawData k).

Definition forecastSeries (k : @NumericKPI num) (nextVal : num) : list (option num) :=
  repeat None (length (rawData k)) ++ [Some nextVal].

End View.
End AIInsightsView.

(* ================================================================== *)
(** * 15. FinancialEngine *)
(* ================================================================== *)

Section FinancialEngine.
Context {num : Type} {A : Arith num}.
Local Open Scope js_scope.

(** The unary minus and [Math.pow].  The language leaves the value of
    [Math.pow] to the implementation (an approximation of the power), so
    the engine is read for any such function. *)
Variable neg : num -> num.
Variable pow : num -> num -> num.

Definition PMT (rate nper pv : num) : num :=
  if rate === zero then neg (pv / nper)
  else
    let pvif := pow (one + rate) nper in
    (rate / (pvif - one)) * neg (pv * pvif).

Definition FV (rate nper pmt pv : num) : num :=
  if rate === zero then neg (pv + pmt * nper)
  else
    let pvif := pow (one + rate) nper in
    neg pv * pvif - (pmt / rate) * (pvif - one).

(** [WhatIfView]: the monthly payment of the loan and the total interest
    shown under it. *)
Definition monthlyPayment (loanAmount interestRate termYears : num) : num :=
  PMT (interestRate / nint 100 / nint 12) (termYears * nint 12) (neg loanAmount).

Definition totalInterest (loanAmount interestRate termYears : num) : num :=
  (monthlyPayment loanAmount interestRate termYears * termYears * nint 12) - loanAmount.

End FinancialEngine.

(* ================================================================== *)
(** * 16. Vocabulary of the further properties *)
(* ================================================================== *)

(** ** Objects and keys *)

(** The index a key has as an array index, 0 for other keys. *)
Definition index_of (k : string) : N :=
  match array_index k with Some n => n | None => 0%N end.

(** The elements of [l] whose key no earlier element has. *)
Fixpoint first_by {T : Type} (key : T -> string) (l : list T) : list T :=
  match l with
  | [] => []
  | x :: l' => x :: filter (fun y => negb (String.eqb (key x) (key y))) (first_by key l')
  end.

(** The text after the first [k] characters. *)
Fixpoint string_drop (k : nat) (s : string) : string :=
  match k, s with
  | S k', String _ s' => string_drop k' s'
  | _, _ => s
  end.

(** ** The pivot *)

Section PivotCells.
Context {num : Type} {A : Arith num} {RT : Runtime num}.

(** The bucket the loop holds for a pair of key texts. *)
Definition bucket_at (vm : obj (obj (list (value num)))) (rk ck : string)
    : list (value num) :=
  match get vm rk with
  | Some inner => match get inner ck with Some vals => vals | None => [] end
  | None => []
  end.

(** The two keys [performPivot] files a row under, [None] for a row it
    skips; and those of the second variant. *)
Definition pivot_keys (rowDim colDim : string) (r : row num)
    : option (value num * value num) :=
  match resolve_key rowDim r, resolve_key colDim r with
  | Some rKey, Some cKey => Some (rKey, cKey)
  | _, _ => None
  end.

Definition pivot_keys_v2 (rowDim colDim : string) (r : row num)
    : option (value num * value num) :=
  Some (resolve_key_v2 rowDim r, resolve_key_v2 colDim r).

(** The row is filed under the key texts [rk] and [ck]. *)
Definition filed_under (keys_of : row num -> option (value num * value num))
    (rk ck : string) (r : row num) : bool :=
  match keys_of r with
  | Some (rKey, cKey) => String.eqb (String_ rKey) rk && String.eqb (String_ cKey) ck
  | None => false
  end.

(** The reading of the row goes into its bucket. *)
Definition collected (valDim func : string) (r : row num) : bool :=
  String.eqb func "Count" || typeof_number (field r valDim).

(** The readings, in the order of the rows, of the rows filed under
    [rk] and [ck] whose reading is collected. *)
Definition cell_values (keys_of : row num -> option (value num * value num))
    (valDim func rk ck : string) (data : list (row num)) : list (value num) :=
  map (fun r => field r valDim)
      (filter (fun r => filed_under keys_of rk ck r && collected valDim func r) data).

(** No dimension and no key text of the result is [inherited]: the
    pivot then reads its rows and reaches its maps by names that only own
    properties answer, which is how the model has them. *)
Definition plain_pivot (rowDim colDim : string) (res : PivotResult) : bool :=
  negb (inherited rowDim) && negb (inherited colDim)
  && plain_names (map String_ (rowKeys res))
  && plain_names (map String_ (colKeys res)).

End PivotCells.

(** ** Matrices, dates and order *)

(** The cell of a matrix in row [i] and column [j]. *)
Definition matrix_cell {T : Type} (g : list (list T)) (i j : nat) : option T :=
  match nth_error g i with
  | Some cells => nth_error cells j
  | None => None
  end.

Section DateVocabulary.
Context {num : Type} {A : Arith num}.

(** The values [isLikelyDate] looks at, and those among them it takes
    for date serials. *)
Definition date_sample (values : list (value num)) : list (value num) := firstn 50 values.

Definition date_like (values : list (value num)) : nat :=
  length (filter in_date_range (date_sample values)).

End DateVocabulary.

(** The share test on [v] date-like values among [c]: the comparison of
    the quotient of doubles with the double 0.8 is the comparison of the
    integers. *)
Definition share_exact (c v : nat) : bool :=
  Bool.eqb (nltb (lit_0_8 (A:=Float64)) (ndiv (of_nat v) (of_nat c)))
           (4 * c <? 5 * v)%nat.

(** The table of the share test for the sample sizes up to [limit] and
    every count within them. *)
Definition share_exact_upto (limit : nat) : bool :=
  forallb (fun c => forallb (fun v => share_exact c v) (seq 0 (S c))) (seq 1 limit).

Section OrderVocabulary.
Local Open Scope R_scope.

Definition Rleb (x y : R) : bool := negb (Rltb y x).

(** How many elements of [l] are at most [m], and how many at least
    [m]. *)
Definition count_at_most (m : R) (l : list R) : nat :=
  length (filter (fun v => Rleb v m) l).

Definition count_at_least (m : R) (l : list R) : nat :=
  length (filter (fun v => Rleb m v) l).

End OrderVocabulary.

Section ExactVocabulary2.
Local Open Scope R_scope.

(** The sum of the products of the elements of two lists, taken in
    pairs. *)
Definition Rdot (x y : list R) : R := Rsum (map (fun p => fst p * snd p) (combine x y)).

(** The values of the line [a * i + b] at the indices 0 to [n - 1]. *)
Definition line_values (a b : R) (n : nat) : list R :=
  map (fun i => a * INR i + b) (seq 0 n).

End ExactVocabulary2.

(** ** More sample data *)

Definition sparse_sales : dataset float :=
  [ [("region"%string, VStr "A"); ("amount"%string, VNum 10%float)];
    [("region"%string, VNull); ("amount"%string, VNum 20%float)];
    [("region"%string, VStr "B")] ].

(** A column holding 3 and the negative zero. *)
Definition zero_quantities : dataset float :=
  [ [("q"%string, VNum 3%float)]; [("q"%string, VNum F64.neg_zero)] ].


Definition full_names : dataset float :=
  [ [("name"%string, VStr "Doe, Jane")]; [("name"%string, VStr "Roe")] ].

Definition rising_kpi : @NumericKPI R :=
  {| column := "rising"; rawData := [1%R; 3%R];
     kpi_min := 1%R; kpi_max := 3%R;
     avg := 2%R; median := 2%R; stdDev := 1%R |}.

(** The real numbers have no decimal text; the statements about them do
    not read the texts of the insights. *)
Definition blank_format : Format R := {| toFixed2 := fun _ => EmptyString |}.
(* ================================================================== *)
(** * 17. Facts about arrays and sorting *)
(* ================================================================== *)

Section SortFacts.
Context {T : Type} (before : T -> T -> bool).

Lemma sort_insert_perm (x : T) (l : list T) :
  Permutation (sort_insert before x l) (x :: l).
Proof.
  induction l as [|y l IH]; simpl.
  - apply Permutation_refl.
  - destruct (before y x).
    + apply perm_trans with (y :: x :: l).
      * now apply perm_skip.
      * apply perm_swap.
    + apply Permutation_refl.
Qed.

Lemma js_sort_perm (l : list T) : Permutation (js_sort before l) l.
Proof.
  induction l as [|x l IH]; simpl.
  - apply perm_nil.
  - apply perm_trans with (x :: js_sort before l).
    + apply sort_insert_perm.
    + now apply perm_skip.
Qed.


Lemma js_sort_In (l : list T) (x : T) : In x (js_sort before l) <-> In x l.
Proof.
  split; apply Permutation_in.
  - apply js_sort_perm.
  - apply Permutation_sym, js_sort_perm.
Qed.

Lemma sort_insert_hd (x a : T) (l : list T) :
  in_order before a x -> HdRel (in_order before) a l -> HdRel (in_order before) a (sort_insert before x l).
Proof.
  intros Hax Hal. destruct l as [|y l]; simpl.
  - now constructor.
  - destruct (before y x); constructor; trivial.
    now inversion Hal.
Qed.

Lemma sort_insert_sorted (x : T) (l : list T) :
  (forall y, In y l -> before y x = true -> before x y = false) ->
  Sorted (in_order before) l -> Sorted (in_order before) (sort_insert before x l).
Proof.
  intros Hasym Hs. induction Hs as [|y l Hs IH Hhd]; simpl.
  - repeat constructor.
  - destruct (before y x) eqn:E.
    + constructor.
      * apply IH. intros z Hz. apply Hasym. now right.
      * apply sort_insert_hd; trivial.
        apply Hasym; [now left | exact E].
    + constructor.
      * now constructor.
      * constructor. exact E.
Qed.

Lemma js_sort_sorted (l : list T) :
  (forall a b, In a l -> In b l -> before a b = true -> before b a = false) ->
  Sorted (in_order before) (js_sort before l).
Proof.
  induction l as [|x l IH]; intros Hasym; simpl.
  - constructor.
  - apply sort_insert_sorted.
    + intros y Hy. apply Hasym; [right | left; reflexivity].
      exact (proj1 (js_sort_In l y) Hy).
    + apply IH. intros a b Ha Hb. apply Hasym; now right.
Qed.

End SortFacts.


Lemma mapi_from_length {T U : Type} (f : T -> nat -> U) (l : list T) (i : nat) :
  length (mapi_from f i l) = length l.
Proof.
  revert i. induction l as [|a l IH]; intros i; simpl; [reflexivity | now rewrite IH].
Qed.

Lemma mapi_from_nth_error {T U : Type} (f : T -> nat -> U) (l : list T) (i k : nat) (a : T) :
  nth_error l k = Some a -> nth_error (mapi_from f i l) k = Some (f a (i + k)%nat).
Proof.
  revert i k. induction l as [|b l IH]; intros i k H.
  - destruct k; discriminate.
  - destruct k as [|k]; simpl in *.
    + injection H as ->. now rewrite Nat.add_0_r.
    + rewrite (IH (S i) k H). f_equal. f_equal. lia.
Qed.

Lemma mapi_nth_error {T U : Type} (f : T -> nat -> U) (l : list T) (k : nat) (a : T) :
  nth_error l k = Some a -> nth_error (mapi f l) k = Some (f a k).
Proof. intros H. unfold mapi. now rewrite (mapi_from_nth_error f l 0 k a H). Qed.

(* ================================================================== *)
(** * 18. Properties of the statistics, in any arithmetic *)
(* ================================================================== *)

Section MathEngineFacts.
Context {num : Type} {A : Arith num}.
Local Open Scope js_scope.

(** Reading [y[i]] while reducing over [y] itself yields the element at
    hand, so the sum of products of a series with itself is its sum of
    squares, operation for operation. *)
Lemma reducei_from_self (p l : list num) (acc : num) :
  reducei_from (fun s xi i => s + xi * at_ (p ++ l) i) (length p) l acc
  = fold_left (fun s xi => s + xi * xi) l acc.
Proof.
  revert p acc. induction l as [|a l IH]; intros p acc; simpl.
  - reflexivity.
  - replace (at_ (p ++ a :: l) (length p)) with a.
    + specialize (IH (p ++ [a]) (acc + a * a)).
      rewrite <- app_assoc, length_app in IH. simpl in IH.
      rewrite Nat.add_1_r in IH. exact IH.
    + unfold at_. rewrite app_nth2 by lia. now rewrite Nat.sub_diag.
Qed.

Lemma sumProducts_self (x : list num) : sumProducts x x = sumSquares x.
Proof. exact (reducei_from_self [] x zero). Qed.

Lemma corr_numerator_self (x : list num) : corr_numerator x x = spread x.
Proof. unfold corr_numerator, spread. now rewrite sumProducts_self. Qed.

Lemma calculateCorrelation_mismatch (x y : list num) :
  length x <> length y -> calculateCorrelation x y = zero.
Proof.
  intros H. unfold calculateCorrelation.
  apply Nat.eqb_neq in H. now rewrite H.
Qed.

Lemma calculateCorrelation_empty (y : list num) : calculateCorrelation [] y = zero.
Proof.
  unfold calculateCorrelation. simpl.
  now rewrite orb_true_r.
Qed.

Lemma calculateCorrelation_zero_denominator (x y : list num) :
  (corr_denominator x y === zero) = true -> calculateCorrelation x y = zero.
Proof.
  intros H. unfold calculateCorrelation.
  destruct (negb (length x =? length y)%nat || (length x =? 0)%nat); [reflexivity|].
  now rewrite H.
Qed.

Lemma calculateCorrelation_regular (x y : list num) :
  length x = length y -> x <> [] -> (corr_denominator x y === zero) = false ->
  calculateCorrelation x y = corr_numerator x y / corr_denominator x y.
Proof.
  intros Hlen Hne Hden. unfold calculateCorrelation.
  rewrite <- Hlen, Nat.eqb_refl. simpl.
  destruct x as [|a x]; [contradiction|]. simpl (length (a :: x) =? 0)%nat.
  cbv zeta. now rewrite Hden.
Qed.

End MathEngineFacts.

(* ================================================================== *)
(** * 19. The statistics in exact arithmetic *)
(* ================================================================== *)

Section ExactFacts.
Local Open Scope R_scope.

Lemma zero_exact : zero (A:=Exact) = 0.
Proof. reflexivity. Qed.

Lemma of_nat_exact (n : nat) : of_nat (A:=Exact) n = INR n.
Proof. unfold of_nat. simpl. symmetry. apply INR_IZR_INZ. Qed.

Lemma fold_add_exact (l : list R) (a : R) :
  fold_left (fun s b => nadd (Arith:=Exact) s b) l a = a + Rsum l.
Proof.
  revert a. induction l as [|b l IH]; intros a; simpl.
  - ring.
  - rewrite IH. ring.
Qed.

Lemma fold_squares_exact (l : list R) (a : R) :
  fold_left (fun s xi => nadd (Arith:=Exact) s (nmul xi xi)) l a = a + Rsum (squares l).
Proof.
  revert a. induction l as [|b l IH]; intros a; simpl.
  - ring.
  - rewrite IH. ring.
Qed.

Lemma sum_exact (x : list R) : sum (A:=Exact) x = Rsum x.
Proof. unfold sum, reduce. rewrite fold_add_exact, zero_exact. ring. Qed.

Lemma sumSquares_exact (x : list R) : sumSquares (A:=Exact) x = Rsum (squares x).
Proof. unfold sumSquares, reduce. rewrite fold_squares_exact, zero_exact. ring. Qed.

Lemma spread_exact (x : list R) :
  spread (A:=Exact) x = INR (length x) * Rsum (squares x) - Rsum x * Rsum x.
Proof. unfold spread. now rewrite of_nat_exact, sumSquares_exact, sum_exact. Qed.

Lemma dev2_expand (a : R) (l : list R) :
  dev2 a l = Rsum (squares l) - 2 * a * Rsum l + INR (length l) * (a * a).
Proof.
  unfold dev2, squares. induction l as [|v l IH].
  - simpl. ring.
  - cbn [map Rsum length]. rewrite IH, S_INR. ring.
Qed.

(** Adding an element to a series adds its squared distances to the
    others to the spread. *)
Lemma spread_cons (a : R) (l : list R) :
  spread (A:=Exact) (a :: l) = spread (A:=Exact) l + dev2 a l.
Proof.
  rewrite !spread_exact, dev2_expand. unfold squares.
  cbn [map Rsum length]. rewrite S_INR. ring.
Qed.

Lemma dev2_nonneg (a : R) (l : list R) : 0 <= dev2 a l.
Proof.
  unfold dev2. induction l as [|v l IH]; simpl.
  - lra.
  - pose proof (Rle_0_sqr (v - a)) as H. unfold Rsqr in H. lra.
Qed.

Lemma dev2_pos (a : R) (l : list R) :
  (exists v, In v l /\ v <> a) -> 0 < dev2 a l.
Proof.
  intros [v [Hin Hne]]. induction l as [|w l IH]; [contradiction|].
  unfold dev2. cbn [map Rsum]. fold (dev2 a l).
  pose proof (dev2_nonneg a l) as Hl.
  pose proof (Rle_0_sqr (w - a)) as Hw. unfold Rsqr in Hw.
  destruct Hin as [-> | Hin].
  - assert (0 < (v - a) * (v - a)).
    { apply Rsqr_pos_lt. lra. }
    lra.
  - specialize (IH Hin). lra.
Qed.

Lemma dev2_constant (a : R) (l : list R) :
  (forall v, In v l -> v = a) -> dev2 a l = 0.
Proof.
  intros H. unfold dev2. induction l as [|w l IH]; simpl.
  - reflexivity.
  - rewrite IH by (intros v Hv; apply H; now right).
    rewrite (H w) by now left. ring.
Qed.

Lemma spread_nonneg (l : list R) : 0 <= spread (A:=Exact) l.
Proof.
  induction l as [|a l IH].
  - rewrite spread_exact. simpl. lra.
  - rewrite spread_cons. pose proof (dev2_nonneg a l). lra.
Qed.

Lemma spread_constant (c : R) (l : list R) :
  (forall v, In v l -> v = c) -> spread (A:=Exact) l = 0.
Proof.
  induction l as [|a l IH]; intros H.
  - rewrite spread_exact. simpl. lra.
  - rewrite spread_cons, IH by (intros v Hv; apply H; now right).
    rewrite dev2_constant; [lra|].
    intros v Hv. rewrite (H a) by now left. apply H. now right.
Qed.

(** A series with two different values has a positive spread. *)
Lemma spread_pos (l : list R) :
  (exists u v, In u l /\ In v l /\ u <> v) -> 0 < spread (A:=Exact) l.
Proof.
  induction l as [|a l IH]; intros [u [v [Hu [Hv Hne]]]]; [contradiction|].
  rewrite spread_cons.
  pose proof (spread_nonneg l) as Hs.
  destruct (Forall_Exists_dec (fun w => w = a) (fun w => Req_dec_T w a) l) as [Hall | Hex].
  - exfalso. rewrite Forall_forall in Hall.
    assert (Ha : forall w, In w (a :: l) -> w = a).
    { intros w [<- | Hw]; [reflexivity | now apply Hall]. }
    apply Hne. now rewrite (Ha u Hu), (Ha v Hv).
  - apply Exists_exists in Hex.
    pose proof (dev2_pos a l Hex). lra.
Qed.

Lemma Reqb_true (x y : R) : Reqb x y = true <-> x = y.
Proof. unfold Reqb. destruct (Req_dec_T x y); split; congruence. Qed.

Lemma Reqb_false (x y : R) : Reqb x y = false <-> x <> y.
Proof. unfold Reqb. destruct (Req_dec_T x y); split; congruence. Qed.

Lemma corr_radicand_nonneg (x y : list R) : 0 <= corr_radicand (A:=Exact) x y.
Proof.
  change (0 <= spread (A:=Exact) x * spread (A:=Exact) y).
  apply Rmult_le_pos; apply spread_nonneg.
Qed.

(** In exact arithmetic the correlation of a series with a constant
    series is 0: the spread of the constant series, and with it the
    denominator, vanishes. *)
Lemma calculateCorrelation_constant_exact (c : R) (x y : list R) :
  (forall v, In v x -> v = c) \/ (forall v, In v y -> v = c) ->
  calculateCorrelation (A:=Exact) x y = 0.
Proof.
  intros H. change 0 with (zero (A:=Exact)).
  apply calculateCorrelation_zero_denominator.
  apply Reqb_true.
  change (sqrt (spread (A:=Exact) x * spread (A:=Exact) y) = 0).
  destruct H as [H | H]; rewrite (spread_constant c _ H).
  - rewrite Rmult_0_l. apply sqrt_0.
  - rewrite Rmult_0_r. apply sqrt_0.
Qed.

Lemma calculateCorrelation_self_exact (x : list R) :
  (exists u v, In u x /\ In v x /\ u <> v) ->
  calculateCorrelation (A:=Exact) x x = 1.
Proof.
  intros Hnc. pose proof (spread_pos x Hnc) as Hpos.
  assert (Hden : corr_denominator (A:=Exact) x x = spread (A:=Exact) x).
  { change (sqrt (spread (A:=Exact) x * spread (A:=Exact) x) = spread (A:=Exact) x).
    apply sqrt_square. lra. }
  rewrite calculateCorrelation_regular.
  - rewrite corr_numerator_self, Hden.
    change (spread (A:=Exact) x / spread (A:=Exact) x = 1). field. lra.
  - reflexivity.
  - destruct Hnc as [u [_ [Hu _]]]. intros ->. contradiction.
  - rewrite Hden. apply Reqb_false. rewrite zero_exact. lra.
Qed.

End ExactFacts.

(* ================================================================== *)
(** * 20. The order of binary64 numbers *)
(* ================================================================== *)

(** The comparator of the numeric sort is a subtraction.  That it
    orders doubles as [<] does rests on a property of IEEE subtraction:
    the difference of two different doubles does not round to zero.  It
    is proved here from the specification of the operations. *)

Section FloatOrder.
Local Open Scope Z_scope.




























End FloatOrder.

(* ================================================================== *)
(** * 21. Objects *)
(* ================================================================== *)

Section ObjectFacts.
Context {V : Type}.

Lemma get_set_same (o : obj V) (k : string) (v : V) : get (set o k v) k = Some v.
Proof.
  induction o as [|[k' v'] o IH]; simpl.
  - now rewrite String.eqb_refl.
  - destruct (String.eqb k' k) eqn:E; simpl; rewrite E; [reflexivity | exact IH].
Qed.

Lemma get_set_other (o : obj V) (k k' : string) (v : V) :
  k <> k' -> get (set o k v) k' = get o k'.
Proof.
  intros Hne. induction o as [|[k0 v0] o IH]; simpl.
  - apply String.eqb_neq in Hne. now rewrite Hne.
  - destruct (String.eqb k0 k) eqn:E; simpl.
    + apply String.eqb_eq in E. subst k0.
      apply String.eqb_neq in Hne. now rewrite Hne.
    + now rewrite IH.
Qed.

(** Overwriting a property leaves the keys and their order alone. *)
Lemma set_existing_keys (o : obj V) (k : string) (v w : V) :
  get o k = Some w -> map fst (set o k v) = map fst o.
Proof.
  induction o as [|[k0 v0] o IH]; simpl; intros H.
  - discriminate.
  - destruct (String.eqb k0 k) eqn:E; simpl.
    + reflexivity.
    + now rewrite IH.
Qed.

Lemma set_new_keys (o : obj V) (k : string) (v : V) :
  get o k = None -> map fst (set o k v) = map fst o ++ [k].
Proof.
  induction o as [|[k0 v0] o IH]; simpl; intros H.
  - reflexivity.
  - destruct (String.eqb k0 k) eqn:E; [discriminate|]. simpl. now rewrite IH.
Qed.

Lemma get_In_keys (o : obj V) (k : string) (v : V) :
  get o k = Some v -> In k (map fst o).
Proof.
  induction o as [|[k0 v0] o IH]; simpl; intros H.
  - discriminate.
  - destruct (String.eqb k0 k) eqn:E.
    + left. now apply String.eqb_eq.
    + right. now apply IH.
Qed.

Lemma get_None_keys (o : obj V) (k : string) :
  get o k = None <-> ~ In k (map fst o).
Proof.
  induction o as [|[k0 v0] o IH]; simpl.
  - split; [intros _ []|reflexivity].
  - destruct (String.eqb k0 k) eqn:E.
    + apply String.eqb_eq in E. split; [discriminate | intros H; exfalso; apply H; now left].
    + apply String.eqb_neq in E. rewrite IH. split.
      * intros H [H1 | H1]; [contradiction | now apply H].
      * intros H H1. apply H. now right.
Qed.

Lemma hasOwnProperty_set_same (o : obj V) (k : string) (v : V) :
  hasOwnProperty (set o k v) k = true.
Proof. unfold hasOwnProperty. now rewrite get_set_same. Qed.

Lemma hasOwnProperty_set_other (o : obj V) (k k' : string) (v : V) :
  k <> k' -> hasOwnProperty (set o k v) k' = hasOwnProperty o k'.
Proof. intros H. unfold hasOwnProperty. now rewrite get_set_other. Qed.

End ObjectFacts.

(* ================================================================== *)
(** * 22. The pivot engine *)
(* ================================================================== *)

Section PivotFacts.
Context {num : Type} {A : Arith num} {RT : Runtime num}.

Lemma truthy_not_missing (v : value num) : truthy v = true -> is_missing v = false.
Proof.
  destruct v as [| |b|x|s]; simpl; try discriminate; try reflexivity.
  intros H. now apply negb_true_iff in H.
Qed.

Lemma resolve_key_missing (dim : string) (r : row num) :
  dim <> "None"%string -> is_missing (field r dim) = true -> resolve_key dim r = None.
Proof.
  intros Hdim Hmiss. unfold resolve_key.
  apply String.eqb_neq in Hdim. rewrite Hdim. simpl. now rewrite Hmiss.
Qed.

(** A row that lacks the value of a real dimension leaves the state of
    the loop as it found it. *)
Lemma pivot_step_skip (rowDim colDim valDim func : string) (st : PivotState) (r : row num) :
  (rowDim <> "None"%string /\ is_missing (field r rowDim) = true)
  \/ (colDim <> "None"%string /\ is_missing (field r colDim) = true) ->
  pivot_step rowDim colDim valDim func st r = st.
Proof.
  intros [[Hdim Hmiss] | [Hdim Hmiss]]; unfold pivot_step.
  - now rewrite (resolve_key_missing rowDim r Hdim Hmiss).
  - rewrite (resolve_key_missing colDim r Hdim Hmiss).
    now destruct (resolve_key rowDim r).
Qed.

Lemma set_add_In (s : list (value num)) (v : string) :
  In (VStr v) (set_add s (VStr v)).
Proof.
  unfold set_add. cbn [set_entry].
  destruct (existsb (same_value_zero (VStr v)) s) eqn:E.
  - apply existsb_exists in E. destruct E as [w [Hin Hw]].
    destruct w; simpl in Hw; try discriminate.
    apply String.eqb_eq in Hw. now subst.
  - apply in_or_app. right. now left.
Qed.

Lemma resolve_key_v2_missing (dim : string) (r : row num) :
  dim <> "None"%string -> is_missing (field r dim) = true ->
  resolve_key_v2 dim r = VStr "Unknown".
Proof.
  intros Hdim Hmiss. unfold resolve_key_v2, or_else.
  apply String.eqb_neq in Hdim. rewrite Hdim.
  destruct (truthy (field r dim)) eqn:E; [|reflexivity].
  apply truthy_not_missing in E. congruence.
Qed.

(** Where every dimension field is truthy the two variants resolve the
    same keys. *)
Lemma resolve_key_agree (dim : string) (r : row num) :
  dim = "None"%string \/ truthy (field r dim) = true ->
  resolve_key dim r = Some (resolve_key_v2 dim r).
Proof.
  unfold resolve_key, resolve_key_v2, or_else.
  destruct (String.eqb dim "None") eqn:E; simpl.
  - reflexivity.
  - intros [H | H].
    + apply String.eqb_neq in E. contradiction.
    + now rewrite H, (truthy_not_missing _ H).
Qed.

Lemma pivot_step_agree (rowDim colDim valDim func : string) (st : PivotState) (r : row num) :
  dimensions_truthy rowDim colDim r ->
  pivot_step rowDim colDim valDim func st r = pivot_step_v2 rowDim colDim valDim func st r.
Proof.
  intros [Hr Hc]. unfold pivot_step, pivot_step_v2.
  now rewrite (resolve_key_agree rowDim r Hr), (resolve_key_agree colDim r Hc).
Qed.

Lemma pivot_fold_agree (rowDim colDim valDim func : string) (data : list (row num)) (st : PivotState) :
  Forall (dimensions_truthy rowDim colDim) data ->
  fold_left (pivot_step rowDim colDim valDim func) data st
  = fold_left (pivot_step_v2 rowDim colDim valDim func) data st.
Proof.
  intros H. revert st. induction H as [|r data Hr Hdata IH]; intros st; simpl.
  - reflexivity.
  - now rewrite (pivot_step_agree rowDim colDim valDim func st r Hr), IH.
Qed.

(** Except under [Count] the loop stores numbers only. *)
Lemma pivot_accumulate_numeric (valDim func : string) (st : PivotState)
    (r : row num) (rKey cKey : value num) :
  String.eqb func "Count" = false ->
  buckets_numeric (valuesMap st) ->
  buckets_numeric (valuesMap (pivot_accumulate valDim func st r rKey cKey)).
Proof.
  intros Hf Hst. unfold pivot_accumulate. rewrite Hf. cbn [orb valuesMap].
  set (rk := String_ rKey). set (ck := String_ cKey).
  set (vm1 := match get (valuesMap st) rk with
              | Some _ => valuesMap st
              | None => set (valuesMap st) rk []
              end).
  assert (Hvm1 : buckets_numeric vm1).
  { subst vm1. destruct (get (valuesMap st) rk) eqn:G; [exact Hst|].
    intros rk' inner ck' b v Hrk Hck Hv.
    destruct (string_dec rk rk') as [<- | Hne].
    - rewrite get_set_same in Hrk. injection Hrk as <-. discriminate.
    - rewrite get_set_other in Hrk by exact Hne. exact (Hst _ _ _ _ _ Hrk Hck Hv). }
  set (inner := match get vm1 rk with Some o => o | None => [] end).
  assert (Hinner : forall ck' b v, get inner ck' = Some b -> In v b -> typeof_number v = true).
  { subst inner. destruct (get vm1 rk) as [o|] eqn:G.
    - intros ck' b v. exact (Hvm1 _ _ _ _ _ G).
    - discriminate. }
  set (inner1 := match get inner ck with Some _ => inner | None => set inner ck [] end).
  assert (Hinner1 : forall ck' b v, get inner1 ck' = Some b -> In v b -> typeof_number v = true).
  { subst inner1. destruct (get inner ck) eqn:G; [exact Hinner|].
    intros ck' b v Hck Hv. destruct (string_dec ck ck') as [<- | Hne].
    - rewrite get_set_same in Hck. injection Hck as <-. contradiction.
    - rewrite get_set_other in Hck by exact Hne. exact (Hinner _ _ _ Hck Hv). }
  intros rk' inner' ck' b v Hrk Hck Hv.
  destruct (string_dec rk rk') as [<- | Hne].
  - rewrite get_set_same in Hrk. injection Hrk as <-.
    destruct (typeof_number (field r valDim)) eqn:Hty.
    + destruct (string_dec ck ck') as [<- | Hnc].
      * rewrite get_set_same in Hck. injection Hck as <-.
        apply in_app_or in Hv. destruct Hv as [Hv | [<- | []]]; [|exact Hty].
        destruct (get inner1 ck) as [b0|] eqn:G; [|contradiction].
        exact (Hinner1 _ _ _ G Hv).
      * rewrite get_set_other in Hck by exact Hnc. exact (Hinner1 _ _ _ Hck Hv).
    + exact (Hinner1 _ _ _ Hck Hv).
  - rewrite get_set_other in Hrk by exact Hne. exact (Hvm1 _ _ _ _ _ Hrk Hck Hv).
Qed.

Lemma pivot_step_numeric (rowDim colDim valDim func : string) (st : PivotState) (r : row num) :
  String.eqb func "Count" = false ->
  buckets_numeric (valuesMap st) ->
  buckets_numeric (valuesMap (pivot_step rowDim colDim valDim func st r))
  /\ buckets_numeric (valuesMap (pivot_step_v2 rowDim colDim valDim func st r)).
Proof.
  intros Hf Hst. split.
  - unfold pivot_step. destruct (resolve_key rowDim r); [|exact Hst].
    destruct (resolve_key colDim r); [|exact Hst].
    now apply pivot_accumulate_numeric.
  - now apply pivot_accumulate_numeric.
Qed.

(** The buckets [performPivot] aggregates under [Sum], [Average], [Max]
    and [Min] hold numbers only, in both variants. *)
Lemma pivot_buckets_numeric (rowDim colDim valDim func : string) (data : list (row num)) :
  String.eqb func "Count" = false ->
  buckets_numeric
    (valuesMap (fold_left (pivot_step rowDim colDim valDim func) data pivot_init))
  /\ buckets_numeric
       (valuesMap (fold_left (pivot_step_v2 rowDim colDim valDim func) data pivot_init)).
Proof.
  intros Hf.
  assert (H0 : buckets_numeric (valuesMap (@pivot_init num))).
  { intros rk inner ck b v Hrk. discriminate. }
  split.
  - generalize (@pivot_init num) H0. induction data as [|r data IH]; intros st Hst; simpl.
    + exact Hst.
    + apply IH. now apply pivot_step_numeric.
  - generalize (@pivot_init num) H0. induction data as [|r data IH]; intros st Hst; simpl.
    + exact Hst.
    + apply IH. now apply (pivot_step_numeric rowDim colDim valDim func st r Hf Hst).
Qed.

End PivotFacts.

(* ================================================================== *)
(** * 23. The column classifier *)
(* ================================================================== *)

Section ClassifierFacts.
Context {num : Type} {A : Arith num} {RT : Runtime num}.

Lemma firstn_min_length {T : Type} (l : list T) (n : nat) :
  firstn (Nat.min (length l) n) l = firstn n l.
Proof.
  destruct (Nat.le_ge_cases n (length l)) as [H | H].
  - now rewrite Nat.min_r.
  - rewrite Nat.min_l by exact H.
    now rewrite firstn_all, firstn_all2.
Qed.

(** [isNum] survives the loop exactly when no present value converts to
    [NaN]. *)
Lemma inspect_isNum (header : string) (rows : dataset num) (c : nat) :
  fst (inspect header rows c) = true
  <-> (forall r, In r rows -> is_present (field r header) = true ->
                 isNaN (Number (field r header)) = false).
Proof.
  revert c. induction rows as [|r rows IH]; intros c; simpl.
  - split; [intros _ r [] | reflexivity].
  - destruct (is_present (field r header)) eqn:Hp.
    + destruct (isNaN (Number (field r header))) eqn:Hn; simpl.
      * split; [discriminate|].
        intros H. specialize (H r (or_introl eq_refl) Hp). congruence.
      * rewrite IH. split.
        -- intros H r' [<- | Hr']; [now intros _ | now apply H].
        -- intros H r' Hr'. apply H. now right.
    + rewrite IH. split.
      * intros H r' [<- | Hr']; [congruence | now apply H].
      * intros H r' Hr'. apply H. now right.
Qed.

(** [checkCount] ends positive exactly when a present value was met. *)
Lemma inspect_checkCount (header : string) (rows : dataset num) (c : nat) :
  (0 <? snd (inspect header rows c))%nat = true
  <-> ((0 < c)%nat \/ exists r, In r rows /\ is_present (field r header) = true).
Proof.
  revert c. induction rows as [|r rows IH]; intros c; simpl.
  - rewrite Nat.ltb_lt. split; [now left | intros [H | [r [[] _]]]; exact H].
  - destruct (is_present (field r header)) eqn:Hp.
    + destruct (isNaN (Number (field r header))) eqn:Hn; simpl.
      * split; [|reflexivity]. intros _. right. exists r. split; [now left | exact Hp].
      * rewrite IH. split.
        -- intros _. right. exists r. split; [now left | exact Hp].
        -- intros _. left. lia.
    + rewrite IH. split.
      * intros [H | [r' [Hr' Hp']]]; [now left | right].
        exists r'. split; [now right | exact Hp'].
      * intros [H | [r' [[<- | Hr'] Hp']]]; [now left | congruence | right].
        exists r'. split; [exact Hr' | exact Hp'].
Qed.

Lemma is_numeric_column_spec (json : dataset num) (header : string) :
  is_numeric_column json header = true
  <-> (exists r, In r (firstn 50 json) /\ is_present (field r header) = true)
      /\ (forall r, In r (firstn 50 json) -> is_present (field r header) = true ->
                    isNaN (Number (field r header)) = false).
Proof.
  unfold is_numeric_column. rewrite firstn_min_length.
  pose proof (inspect_isNum header (firstn 50 json) 0) as Hn.
  pose proof (inspect_checkCount header (firstn 50 json) 0) as Hc.
  destruct (inspect header (firstn 50 json) 0) as [isNum checkCount].
  simpl in Hn, Hc. rewrite andb_true_iff, Hc, Hn. split.
  - intros [[H | H] H']; [lia | now split].
  - intros [H H']. split; [now right | exact H'].
Qed.

Lemma mem_In (h : string) (l : list string) : mem h l = true <-> In h l.
Proof.
  unfold mem. rewrite existsb_exists. split.
  - intros [x [Hin Heq]]. apply String.eqb_eq in Heq. now subst.
  - intros H. exists h. split; [exact H | apply String.eqb_refl].
Qed.

Lemma mem_not_In (h : string) (l : list string) : mem h l = false <-> ~ In h l.
Proof.
  rewrite <- mem_In. destruct (mem h l); split; congruence.
Qed.

(** What the classification leaves under a header: an empty array in
    exactly one of the two objects. *)
Lemma classify_fold_numeric (json : dataset num) (headers : list string)
    (cols : obj (list num) * obj (list string)) (h : string) :
  get (fst (fold_left (classify_step json) headers cols)) h
  = if mem h headers && is_numeric_column json h then Some [] else get (fst cols) h.
Proof.
  revert cols. induction headers as [|h0 headers IH]; intros [nc cc]; simpl.
  - reflexivity.
  - rewrite IH. unfold classify_step.
    destruct (String.eqb h h0) eqn:E.
    + apply String.eqb_eq in E. subst h0. simpl.
      destruct (is_numeric_column json h) eqn:Hn; simpl.
      * rewrite get_set_same. now destruct (mem h headers).
      * now rewrite !andb_false_r.
    + simpl. apply String.eqb_neq in E.
      destruct (is_numeric_column json h0); simpl; [|reflexivity].
      rewrite get_set_other by congruence. reflexivity.
Qed.

Lemma classify_fold_categorical (json : dataset num) (headers : list string)
    (cols : obj (list num) * obj (list string)) (h : string) :
  get (snd (fold_left (classify_step json) headers cols)) h
  = if mem h headers && negb (is_numeric_column json h) then Some [] else get (snd cols) h.
Proof.
  revert cols. induction headers as [|h0 headers IH]; intros [nc cc]; simpl.
  - reflexivity.
  - rewrite IH. unfold classify_step.
    destruct (String.eqb h h0) eqn:E.
    + apply String.eqb_eq in E. subst h0. simpl.
      destruct (is_numeric_column json h) eqn:Hn; simpl.
      * now rewrite !andb_false_r.
      * rewrite get_set_same. now destruct (mem h headers).
    + simpl. apply String.eqb_neq in E.
      destruct (is_numeric_column json h0); simpl; [reflexivity|].
      rewrite get_set_other by congruence. reflexivity.
Qed.

Lemma classify_numeric (json : dataset num) (headers : list string) (h : string) :
  get (fst (classify json headers)) h
  = if mem h headers && is_numeric_column json h then Some [] else None.
Proof. apply classify_fold_numeric. Qed.

Lemma classify_categorical (json : dataset num) (headers : list string) (h : string) :
  get (snd (classify json headers)) h
  = if mem h headers && negb (is_numeric_column json h) then Some [] else None.
Proof. apply classify_fold_categorical. Qed.

End ClassifierFacts.

(* ================================================================== *)
(** * 24. The date step *)
(* ================================================================== *)

Section DateFacts.
Context {num : Type} {A : Arith num} {RT : Runtime num}.









Lemma field_set_same (r : row num) (k : string) (v : value num) :
  field (set r k v) k = v.
Proof. unfold field. now rewrite get_set_same. Qed.

Lemma field_set_other (r : row num) (k h : string) (v : value num) :
  k <> h -> field (set r k v) h = field r h.
Proof. intros H. unfold field. now rewrite get_set_other. Qed.








End DateFacts.

(** The date step in the arithmetic of the program. *)
Section DateFactsFloat64.
Context {RT : Runtime float}.








End DateFactsFloat64.

(* ================================================================== *)
(** * 25. The extraction of the columns *)
(* ================================================================== *)

Section ExtractFacts.
Context {num : Type} {A : Arith num} {RT : Runtime num}.

(** A cell of another column leaves the arrays of [h] alone. *)
Lemma extract_cell_other (r : row num) (cols : obj (list num) * obj (list string))
    (h0 h : string) :
  h0 <> h ->
  get (fst (extract_cell r cols h0)) h = get (fst cols) h
  /\ get (snd (extract_cell r cols h0)) h = get (snd cols) h.
Proof.
  intros Hne. destruct cols as [nc cc]. unfold extract_cell.
  destruct (hasOwnProperty nc h0); simpl.
  - now rewrite get_set_other.
  - destruct (get cc h0); simpl; [now rewrite get_set_other | now split].
Qed.

Lemma extract_cell_categorical (r : row num) (cols : obj (list num) * obj (list string))
    (h : string) (l : list string) :
  get (fst cols) h = None -> get (snd cols) h = Some l ->
  get (fst (extract_cell r cols h)) h = None
  /\ get (snd (extract_cell r cols h)) h = Some (l ++ [label_of (field r h)]).
Proof.
  intros Hn Hc. destruct cols as [nc cc]. simpl in Hn, Hc.
  unfold extract_cell, hasOwnProperty. rewrite Hn, Hc. simpl.
  now rewrite get_set_same.
Qed.

Lemma extract_cell_numeric (r : row num) (cols : obj (list num) * obj (list string))
    (h : string) (l : list num) :
  get (fst cols) h = Some l ->
  get (fst (extract_cell r cols h)) h = Some (l ++ [number_or_zero (field r h)]).
Proof.
  intros Hn. destruct cols as [nc cc]. simpl in Hn.
  unfold extract_cell, hasOwnProperty. rewrite Hn. simpl.
  now rewrite get_set_same.
Qed.

Lemma extract_row_other (r : row num) (headers : list string)
    (cols : obj (list num) * obj (list string)) (h : string) :
  ~ In h headers ->
  get (fst (fold_left (extract_cell r) headers cols)) h = get (fst cols) h
  /\ get (snd (fold_left (extract_cell r) headers cols)) h = get (snd cols) h.
Proof.
  revert cols. induction headers as [|h0 headers IH]; intros cols Hh; simpl.
  - now split.
  - destruct (IH (extract_cell r cols h0)) as [H1 H2].
    { intros H. apply Hh. now right. }
    destruct (extract_cell_other r cols h0 h) as [H3 H4].
    { intros ->. apply Hh. now left. }
    rewrite H1, H2. now split.
Qed.

(** One row adds one label to the array of a categorical column. *)
Lemma extract_row_categorical (r : row num) (headers : list string)
    (cols : obj (list num) * obj (list string)) (h : string) (l : list string) :
  NoDup headers -> In h headers ->
  get (fst cols) h = None -> get (snd cols) h = Some l ->
  get (fst (fold_left (extract_cell r) headers cols)) h = None
  /\ get (snd (fold_left (extract_cell r) headers cols)) h
     = Some (l ++ [label_of (field r h)]).
Proof.
  revert cols. induction headers as [|h0 headers IH]; intros cols Hnd Hin Hn Hc.
  - contradiction.
  - simpl. inversion Hnd as [|? ? Hnotin Hnd']; subst.
    destruct (string_dec h0 h) as [-> | Hne].
    + destruct (extract_cell_categorical r cols h l Hn Hc) as [H1 H2].
      destruct (extract_row_other r headers (extract_cell r cols h) h Hnotin) as [H3 H4].
      rewrite H3, H4. now split.
    + destruct (extract_cell_other r cols h0 h Hne) as [H1 H2].
      apply IH; try assumption.
      * destruct Hin as [Hin | Hin]; [contradiction | exact Hin].
      * now rewrite H1.
      * now rewrite H2.
Qed.

Lemma extract_row_numeric (r : row num) (headers : list string)
    (cols : obj (list num) * obj (list string)) (h : string) (l : list num) :
  NoDup headers -> In h headers ->
  get (fst cols) h = Some l ->
  get (fst (fold_left (extract_cell r) headers cols)) h
  = Some (l ++ [number_or_zero (field r h)]).
Proof.
  revert cols. induction headers as [|h0 headers IH]; intros cols Hnd Hin Hn.
  - contradiction.
  - simpl. inversion Hnd as [|? ? Hnotin Hnd']; subst.
    destruct (string_dec h0 h) as [-> | Hne].
    + pose proof (extract_cell_numeric r cols h l Hn) as H1.
      destruct (extract_row_other r headers (extract_cell r cols h) h Hnotin) as [H3 _].
      now rewrite H3.
    + destruct (extract_cell_other r cols h0 h Hne) as [H1 _].
      apply IH; try assumption.
      * destruct Hin as [Hin | Hin]; [contradiction | exact Hin].
      * now rewrite H1.
Qed.

Lemma extract_categorical (json : dataset num) (headers : list string)
    (cols : obj (list num) * obj (list string)) (h : string) (l : list string) :
  NoDup headers -> In h headers ->
  get (fst cols) h = None -> get (snd cols) h = Some l ->
  get (snd (extract json headers cols)) h = Some (l ++ column_labels json h).
Proof.
  intros Hnd Hin. unfold extract. revert cols l.
  induction json as [|r json IH]; intros cols l Hn Hc; simpl.
  - now rewrite app_nil_r.
  - destruct (extract_row_categorical r headers cols h l Hnd Hin Hn Hc) as [H1 H2].
    rewrite (IH _ _ H1 H2). now rewrite <- app_assoc.
Qed.

Lemma extract_numeric (json : dataset num) (headers : list string)
    (cols : obj (list num) * obj (list string)) (h : string) (l : list num) :
  NoDup headers -> In h headers ->
  get (fst cols) h = Some l ->
  get (fst (extract json headers cols)) h = Some (l ++ column_numbers json h).
Proof.
  intros Hnd Hin. unfold extract. revert cols l.
  induction json as [|r json IH]; intros cols l Hn; simpl.
  - now rewrite app_nil_r.
  - pose proof (extract_row_numeric r headers cols h l Hnd Hin Hn) as H1.
    rewrite (IH _ _ H1). now rewrite <- app_assoc.
Qed.

(** The array the profiler ends with for a categorical column: the labels
    of its cells, row by row. *)
Lemma profile_categorical_column (json : dataset num) (headers : list string) (h : string) :
  NoDup headers -> In h headers -> is_numeric_column json h = false ->
  get (snd (extract json headers (classify json headers))) h = Some (column_labels json h).
Proof.
  intros Hnd Hin Hcat.
  assert (Hmem : mem h headers = true) by now apply mem_In.
  apply (extract_categorical json headers _ h [] Hnd Hin).
  - now rewrite classify_numeric, Hmem, Hcat.
  - now rewrite classify_categorical, Hmem, Hcat.
Qed.

Lemma profile_numeric_column (json : dataset num) (headers : list string) (h : string) :
  NoDup headers -> In h headers -> is_numeric_column json h = true ->
  get (fst (extract json headers (classify json headers))) h = Some (column_numbers json h).
Proof.
  intros Hnd Hin Hnum.
  assert (Hmem : mem h headers = true) by now apply mem_In.
  apply (extract_numeric json headers _ h [] Hnd Hin).
  now rewrite classify_numeric, Hmem, Hnum.
Qed.

Lemma label_of_missing (v : value num) :
  is_missing v = true -> label_of v = "N/A"%string.
Proof.
  unfold label_of, or_else. destruct v as [| |b|x|s]; simpl; try discriminate; try reflexivity.
  intros H. now rewrite H.
Qed.

Lemma label_of_truthy (v : value num) :
  truthy v = true -> label_of v = String_ v.
Proof. unfold label_of, or_else. now intros ->. Qed.

End ExtractFacts.

(* ================================================================== *)
(** * 26. Frequency counts *)
(* ================================================================== *)

Section FilterFacts.
Context {T : Type}.

Lemma filter_true (l : list T) : filter (fun _ => true) l = l.
Proof. induction l as [|a l IH]; simpl; [reflexivity | now rewrite IH]. Qed.

Lemma filter_filter (f g : T -> bool) (l : list T) :
  filter f (filter g l) = filter (fun x => g x && f x) l.
Proof.
  induction l as [|a l IH]; simpl; [reflexivity|].
  destruct (g a); simpl; [destruct (f a)|]; now rewrite IH.
Qed.

(** A list is its elements that satisfy [f] and those that do not. *)
Lemma filter_split_perm (f : T -> bool) (l : list T) :
  Permutation (filter f l ++ filter (fun x => negb (f x)) l) l.
Proof.
  induction l as [|a l IH]; simpl.
  - apply perm_nil.
  - destruct (f a); simpl.
    + now apply perm_skip.
    + apply Permutation_sym, Permutation_cons_app, Permutation_sym, IH.
Qed.

End FilterFacts.

Section KeyOrderFacts.

Lemma index_keys_names (ks : list string) :
  map snd (index_keys ks) = filter is_index_key ks.
Proof.
  unfold index_keys, is_index_key. induction ks as [|k ks IH]; simpl.
  - reflexivity.
  - destruct (array_index k); simpl; now rewrite IH.
Qed.

(** The enumeration order rearranges the keys and loses none. *)
Lemma own_key_order_perm (ks : list string) : Permutation (own_key_order ks) ks.
Proof.
  unfold own_key_order.
  apply perm_trans with (filter is_index_key ks ++ filter (fun k => negb (is_index_key k)) ks).
  - apply Permutation_app_tail. rewrite <- index_keys_names.
    apply Permutation_map, js_sort_perm.
  - apply filter_split_perm.
Qed.

Lemma own_key_order_In (ks : list string) (k : string) :
  In k (own_key_order ks) <-> In k ks.
Proof.
  split; apply Permutation_in.
  - apply own_key_order_perm.
  - apply Permutation_sym, own_key_order_perm.
Qed.

Context {V : Type}.

Lemma entries_In (o : obj V) (k : string) (v : V) :
  In (k, v) (entries o) <-> In k (keys o) /\ get o k = Some v.
Proof.
  unfold entries. rewrite in_flat_map. split.
  - intros [k' [Hk' Hin]]. destruct (get o k') as [v'|] eqn:G; [|contradiction].
    destruct Hin as [Heq | []]. injection Heq as -> ->. now split.
  - intros [Hk G]. exists k. split; [exact Hk|]. rewrite G. now left.
Qed.

Lemma entries_get (o : obj V) (k : string) (v : V) :
  get o k = Some v -> In (k, v) (entries o).
Proof.
  intros G. apply entries_In. split; [|exact G].
  apply own_key_order_In. now apply get_In_keys with (v := v).
Qed.

(** Where every key has its value given by [f], the entries are the keys
    paired with [f]. *)
Lemma entries_map (o : obj V) (f : string -> V) :
  (forall k, In k (map fst o) -> get o k = Some (f k)) ->
  entries o = map (fun k => (k, f k)) (keys o).
Proof.
  intros H. unfold entries.
  assert (Hk : forall k, In k (keys o) -> get o k = Some (f k)).
  { intros k Hk. apply H. now apply own_key_order_In. }
  induction (keys o) as [|k ks IH]; simpl.
  - reflexivity.
  - rewrite (Hk k) by now left. simpl. f_equal.
    apply IH. intros k' Hk'. apply Hk. now right.
Qed.

End KeyOrderFacts.

Section CountFacts.

Lemma count_value_get (o : obj nat) (w v : string) :
  get (count_value o w) v
  = if string_dec w v then Some (count_base o v + 1) else get o v.
Proof.
  unfold count_value. destruct (string_dec w v) as [-> | Hne].
  - now rewrite get_set_same.
  - now rewrite get_set_other.
Qed.

(** After counting, a value that occurs carries the number of its
    occurrences on top of what it had. *)
Lemma count_fold_get (vs : list string) (o : obj nat) (v : string) :
  get (fold_left count_value vs o) v
  = match count_occ string_dec vs v with
    | O => get o v
    | S n => Some (count_base o v + S n)
    end.
Proof.
  revert o. induction vs as [|w vs IH]; intros o; simpl.
  - reflexivity.
  - rewrite IH. unfold count_base at 1. rewrite count_value_get.
    destruct (string_dec w v) as [-> | Hne].
    + destruct (count_occ string_dec vs v); f_equal; lia.
    + reflexivity.
Qed.

Lemma count_values_get (vs : list string) (v : string) :
  get (count_values vs) v
  = match count_occ string_dec vs v with
    | O => None
    | S n => Some (S n)
    end.
Proof. unfold count_values. rewrite count_fold_get. reflexivity. Qed.

Lemma mem_app (w : string) (l1 l2 : list string) :
  mem w (l1 ++ l2) = mem w l1 || mem w l2.
Proof. apply existsb_app. Qed.

(** The keys of the counting object: those it had, then the new values
    in the order of their first occurrence. *)
Lemma count_fold_names (vs : list string) (o : obj nat) :
  map fst (fold_left count_value vs o)
  = map fst o ++ filter (fun w => negb (mem w (map fst o))) (first_seen vs).
Proof.
  revert o. induction vs as [|v vs IH]; intros o.
  - simpl. now rewrite app_nil_r.
  - cbn [fold_left first_seen filter]. rewrite IH. unfold count_value.
    destruct (get o v) as [c|] eqn:G.
    + rewrite (set_existing_keys o v _ c G).
      assert (Hv : mem v (map fst o) = true).
      { apply mem_In. now apply get_In_keys with (v := c). }
      rewrite Hv. simpl. f_equal. rewrite filter_filter.
      apply filter_ext_in. intros w _.
      destruct (String.eqb v w) eqn:E; [|reflexivity].
      apply String.eqb_eq in E. subst w. now rewrite Hv.
    + rewrite (set_new_keys o v _ G).
      assert (Hv : mem v (map fst o) = false).
      { apply mem_not_In. now apply get_None_keys. }
      rewrite Hv. simpl. rewrite <- app_assoc. simpl. do 2 f_equal.
      rewrite filter_filter. apply filter_ext. intros w.
      rewrite mem_app. unfold mem at 2. simpl.
      rewrite orb_false_r, negb_orb, (String.eqb_sym w v).
      apply andb_comm.
Qed.

Lemma count_values_names (vs : list string) :
  map fst (count_values vs) = first_seen vs.
Proof.
  unfold count_values. rewrite count_fold_names. simpl. apply filter_true.
Qed.

Lemma first_seen_In (vs : list string) (v : string) :
  In v (first_seen vs) <-> In v vs.
Proof.
  induction vs as [|w vs IH]; simpl.
  - reflexivity.
  - rewrite filter_In, IH. split.
    + intros [H | [H _]]; [now left | now right].
    + intros [H | H]; [now left|].
      destruct (string_dec w v) as [-> | Hne]; [now left | right].
      split; [exact H|]. apply negb_true_iff. now apply String.eqb_neq.
Qed.

Lemma first_seen_NoDup (vs : list string) : NoDup (first_seen vs).
Proof.
  induction vs as [|w vs IH]; simpl.
  - constructor.
  - constructor.
    + rewrite filter_In. intros [_ H].
      now rewrite String.eqb_refl in H.
    + now apply NoDup_filter.
Qed.

Lemma count_occ_first_seen (vs : list string) (v : string) :
  In v (first_seen vs) -> exists n, count_occ string_dec vs v = S n.
Proof.
  intros H. apply (proj1 (first_seen_In vs v)) in H.
  pose proof (proj1 (count_occ_In string_dec vs v) H) as Hc.
  destruct (count_occ string_dec vs v) as [|n]; [lia | now exists n].
Qed.

(** The entries of the counting object: every distinct value with the
    number of its occurrences, in enumeration order. *)
Lemma count_values_entries (vs : list string) :
  entries (count_values vs)
  = map (fun v => (v, count_occ string_dec vs v)) (own_key_order (first_seen vs)).
Proof.
  rewrite (entries_map (count_values vs) (fun v => count_occ string_dec vs v)).
  - unfold keys. now rewrite count_values_names.
  - intros k Hk. rewrite count_values_names in Hk.
    destruct (count_occ_first_seen vs k Hk) as [n Hn].
    now rewrite count_values_get, Hn.
Qed.

End CountFacts.

(** Sorting by a count, the larger first. *)
Section SortByCount.
Context {T : Type} (key : T -> nat).

Lemma larger_first_asym (a b : T) : larger_first key a b = true -> larger_first key b a = false.
Proof.
  unfold larger_first. rewrite Nat.ltb_lt, Nat.ltb_ge. lia.
Qed.

Lemma sort_larger_first_sorted (l : list T) :
  StronglySorted (fun a b => (key b <= key a)%nat) (js_sort (larger_first key) l).
Proof.
  apply Sorted_StronglySorted.
  - intros a b c Hab Hbc. lia.
  - assert (H : Sorted (in_order (larger_first key)) (js_sort (larger_first key) l)).
    { apply js_sort_sorted. intros a b _ _. apply larger_first_asym. }
    induction H as [|a s Hs IH Hhd]; constructor; [exact IH|].
    destruct Hhd as [|b s' Hab]; constructor.
    unfold in_order, larger_first in Hab. now apply Nat.ltb_ge in Hab.
Qed.

(** The sort is stable: the elements of one count keep their order. *)
Lemma sort_insert_larger_first_filter (c : nat) (x : T) (l : list T) :
  filter (fun e => (key e =? c)%nat) (sort_insert (larger_first key) x l)
  = filter (fun e => (key e =? c)%nat) (x :: l).
Proof.
  induction l as [|y l IH]; simpl.
  - reflexivity.
  - destruct (larger_first key y x) eqn:E; simpl.
    + rewrite IH. simpl.
      destruct (key x =? c)%nat eqn:Ex; [|reflexivity].
      destruct (key y =? c)%nat eqn:Ey; [|reflexivity].
      apply Nat.eqb_eq in Ex, Ey. unfold larger_first in E.
      apply Nat.ltb_lt in E. lia.
    + reflexivity.
Qed.

Lemma sort_larger_first_stable (c : nat) (l : list T) :
  filter (fun e => (key e =? c)%nat) (js_sort (larger_first key) l)
  = filter (fun e => (key e =? c)%nat) l.
Proof.
  induction l as [|x l IH]; simpl.
  - reflexivity.
  - rewrite sort_insert_larger_first_filter. simpl. now rewrite IH.
Qed.

End SortByCount.

(* ================================================================== *)
(** * 27. The categorical KPIs *)
(* ================================================================== *)

Section CategoricalFacts.
Context {num : Type} {A : Arith num} {RT : Runtime num}.

Lemma profile_categorical (json : dataset num) (headers : list string) :
  categorical (profile json headers)
  = map categoricalKPI (entries (snd (extract json headers (classify json headers)))).
Proof.
  unfold profile. now destruct (extract json headers (classify json headers)).
Qed.

Lemma profile_numeric (json : dataset num) (headers : list string) :
  numeric (profile json headers)
  = map numericKPI (entries (fst (extract json headers (classify json headers)))).
Proof.
  unfold profile. now destruct (extract json headers (classify json headers)).
Qed.

Lemma sorted_counts_perm (labels : list string) :
  Permutation (map fst (sorted_counts labels)) (first_seen labels).
Proof.
  unfold sorted_counts.
  apply perm_trans with (map fst (entries (count_values labels))).
  - apply Permutation_map, js_sort_perm.
  - rewrite count_values_entries, map_map. simpl. rewrite map_id.
    apply own_key_order_perm.
Qed.

Lemma sorted_counts_length (labels : list string) :
  length (sorted_counts labels) = length (first_seen labels).
Proof.
  rewrite <- (length_map fst). apply Permutation_length, sorted_counts_perm.
Qed.

Lemma sorted_counts_count (labels : list string) (e : string * nat) :
  In e (sorted_counts labels) -> snd e = count_occ string_dec labels (fst e).
Proof.
  unfold sorted_counts. rewrite js_sort_In, count_values_entries, in_map_iff.
  intros [v [<- _]]. reflexivity.
Qed.

Lemma sorted_counts_descending (labels : list string) :
  StronglySorted (fun a b => (snd b <= snd a)%nat) (sorted_counts labels).
Proof. apply (sort_larger_first_sorted snd). Qed.

Lemma sorted_counts_stable (labels : list string) (c : nat) :
  filter (fun e => (snd e =? c)%nat) (sorted_counts labels)
  = filter (fun e => (snd e =? c)%nat)
      (map (fun v => (v, count_occ string_dec labels v)) (own_key_order (first_seen labels))).
Proof.
  unfold sorted_counts.
  rewrite <- count_values_entries. apply (sort_larger_first_stable snd).
Qed.

End CategoricalFacts.

(* ================================================================== *)
(** * 28. Enumeration order and copies of objects *)
(* ================================================================== *)

Section EnumerationFacts.

Lemma js_sort_fixed {T : Type} (before : T -> T -> bool) (l : list T) :
  Sorted (in_order before) l -> js_sort before l = l.
Proof.
  intros Hs. induction Hs as [|x l Hs IH Hhd]; [reflexivity|].
  change (js_sort before (x :: l)) with (sort_insert before x (js_sort before l)).
  rewrite IH.
  destruct Hhd as [|y l Hxy]; simpl; [reflexivity|].
  unfold in_order in Hxy. now rewrite Hxy.
Qed.

Lemma index_keys_app (l1 l2 : list string) :
  index_keys (l1 ++ l2) = index_keys l1 ++ index_keys l2.
Proof. unfold index_keys. apply flat_map_app. Qed.

Lemma index_keys_none (l : list string) :
  Forall (fun k => is_index_key k = false) l -> index_keys l = [].
Proof.
  unfold index_keys, is_index_key. induction 1 as [|k l Hk _ IH]; simpl; [reflexivity|].
  destruct (array_index k); [discriminate | exact IH].
Qed.

Lemma index_keys_all (l : list string) :
  Forall (fun k => is_index_key k = true) l ->
  index_keys l = map (fun k => (index_of k, k)) l.
Proof.
  unfold index_keys, is_index_key, index_of.
  induction 1 as [|k l Hk _ IH]; simpl; [reflexivity|].
  destruct (array_index k); [now rewrite IH | discriminate].
Qed.

Lemma index_keys_index (ks : list string) (e : N * string) :
  In e (index_keys ks) -> is_index_key (snd e) = true /\ index_of (snd e) = fst e.
Proof.
  unfold index_keys, is_index_key, index_of. induction ks as [|k ks IH]; simpl; [tauto|].
  intros H. apply in_app_or in H. destruct H as [H|H]; [|now apply IH].
  destruct (array_index k) eqn:E; [|contradiction].
  destruct H as [<-|[]]. simpl. now rewrite E.
Qed.

(** Keys in enumeration order: array indices in ascending order, then
    the other keys. *)
Lemma own_key_order_fixed (X Y : list string) :
  Forall (fun k => is_index_key k = true) X ->
  Sorted (fun a b => (index_of a <= index_of b)%N) X ->
  Forall (fun k => is_index_key k = false) Y ->
  own_key_order (X ++ Y) = X ++ Y.
Proof.
  intros HX Hs HY. unfold own_key_order.
  rewrite index_keys_app, (index_keys_none Y HY), app_nil_r, (index_keys_all X HX).
  rewrite js_sort_fixed.
  - rewrite map_map. simpl. rewrite map_id, filter_app. f_equal.
    assert (HX' : filter (fun k => negb (is_index_key k)) X = []).
    { clear Hs. induction HX as [|k X Hk _ IH]; simpl; [reflexivity|].
      now rewrite Hk. }
    assert (HY' : filter (fun k => negb (is_index_key k)) Y = Y).
    { induction HY as [|k Y Hk _ IH]; simpl; [reflexivity|].
      rewrite Hk. simpl. now rewrite IH. }
    now rewrite HX', HY'.
  - clear HX. induction Hs as [|a X Hs IH Hhd]; simpl; constructor; trivial.
    destruct Hhd as [|b X Hab]; simpl; constructor.
    unfold in_order. simpl. now apply N.ltb_ge.
Qed.

Lemma own_key_order_shape (ks : list string) :
  exists X Y, own_key_order ks = X ++ Y
    /\ Forall (fun k => is_index_key k = true) X
    /\ StronglySorted (fun a b => (index_of a <= index_of b)%N) X
    /\ Forall (fun k => is_index_key k = false) Y.
Proof.
  exists (map snd (js_sort (fun a b => (fst a <? fst b)%N) (index_keys ks))),
         (filter (fun k => negb (is_index_key k)) ks).
  split; [reflexivity|].
  assert (Hin : forall e, In e (js_sort (fun a b => (fst a <? fst b)%N) (index_keys ks)) ->
                          is_index_key (snd e) = true /\ index_of (snd e) = fst e).
  { intros e He. apply index_keys_index with (ks := ks).
    exact (proj1 (js_sort_In _ _ e) He). }
  assert (Hs : StronglySorted (fun a b : N * string => (fst a <= fst b)%N)
                 (js_sort (fun a b => (fst a <? fst b)%N) (index_keys ks))).
  { apply Sorted_StronglySorted.
    - intros a b c Hab Hbc. lia.
    - assert (H := js_sort_sorted (fun a b : N * string => (fst a <? fst b)%N) (index_keys ks)).
      eapply Sorted_ind with (P := fun l => Sorted (fun a b : N * string => (fst a <= fst b)%N) l).
      3: { apply H. intros a b _ _ Hab. apply N.ltb_lt in Hab. apply N.ltb_ge. lia. }
      + constructor.
      + intros a l _ IH Hhd. constructor; [exact IH|].
        destruct Hhd as [|b l Hab]; constructor.
        unfold in_order in Hab. now apply N.ltb_ge in Hab. }
  repeat split.
  - apply Forall_forall. intros k Hk. apply in_map_iff in Hk.
    destruct Hk as [e [<- He]]. now apply Hin.
  - induction Hs as [|a l Hs IH Hall]; simpl; constructor.
    + apply IH. intros e He. apply Hin. now right.
    + apply Forall_forall. intros k Hk. apply in_map_iff in Hk.
      destruct Hk as [e [<- He]].
      rewrite (proj2 (Hin a (or_introl eq_refl))).
      rewrite (proj2 (Hin e (or_intror He))).
      rewrite Forall_forall in Hall. now apply Hall.
  - apply Forall_forall. intros k Hk. apply filter_In in Hk.
    now apply negb_true_iff.
Qed.

(** Enumerating keys that are in enumeration order changes nothing. *)
Lemma own_key_order_idem (ks : list string) :
  own_key_order (own_key_order ks) = own_key_order ks.
Proof.
  destruct (own_key_order_shape ks) as [X [Y [-> [HX [Hs HY]]]]].
  apply own_key_order_fixed; trivial. now apply StronglySorted_Sorted.
Qed.




Context {V : Type}.

Lemma get_In (o : obj V) (k : string) (v : V) : get o k = Some v -> In (k, v) o.
Proof.
  induction o as [|[k' v'] o IH]; simpl; [discriminate|].
  destruct (String.eqb k' k) eqn:E.
  - apply String.eqb_eq in E. intros [= <-]. left. now subst.
  - intros H. right. now apply IH.
Qed.

Lemma get_first (o : obj V) (k : string) (v : V) :
  In (k, v) o -> exists v', get o k = Some v'.
Proof.
  induction o as [|[k' v'] o IH]; simpl; [tauto|].
  intros [H|H].
  - injection H as -> ->. rewrite String.eqb_refl. now exists v.
  - destruct (String.eqb k' k); [now exists v' | now apply IH].
Qed.

(** The properties of a copy read as those of the object. *)
Lemma get_entries (o : obj V) (k : string) : get (entries o) k = get o k.
Proof.
  destruct (get (entries o) k) as [v|] eqn:E.
  - apply get_In in E. apply entries_In in E. symmetry. apply E.
  - destruct (get o k) as [v|] eqn:E'; [|reflexivity].
    apply entries_get in E'. apply get_first in E'. destruct E' as [v' E']. congruence.
Qed.

Lemma names_entries (o : obj V) : map fst (entries o) = keys o.
Proof.
  unfold entries.
  assert (H : forall k, In k (keys o) -> exists v, get o k = Some v).
  { intros k Hk. apply (proj1 (own_key_order_In _ _)) in Hk.
    destruct (get o k) as [v|] eqn:E; [now exists v|].
    apply get_None_keys in E. contradiction. }
  induction (keys o) as [|k ks IH]; simpl; [reflexivity|].
  destruct (H k (or_introl eq_refl)) as [v ->]. simpl. f_equal.
  apply IH. intros k' Hk'. apply H. now right.
Qed.

Lemma keys_entries (o : obj V) : keys (entries o) = keys o.
Proof. unfold keys at 1. rewrite names_entries. apply own_key_order_idem. Qed.

Lemma entries_unique (o : obj V) :
  NoDup (map fst o) ->
  flat_map (fun k => match get o k with Some v => [(k, v)] | None => [] end) (map fst o) = o.
Proof.
  induction o as [|[k v] o IH]; simpl; [reflexivity|].
  intros Hnd. inversion Hnd as [|? ? Hk Hnd']; subst.
  rewrite String.eqb_refl. simpl. f_equal.
  rewrite <- (IH Hnd') at 2.
  assert (Hext : forall l, (forall k', In k' l -> k' <> k) ->
            flat_map (fun k0 => match (if String.eqb k k0 then Some v else get o k0) with
                                | Some v0 => [(k0, v0)] | None => [] end) l
            = flat_map (fun k0 => match get o k0 with
                                  | Some v0 => [(k0, v0)] | None => [] end) l).
  { induction l as [|a l IHl]; simpl; [reflexivity|]. intros Hl.
    assert (Ha : String.eqb k a = false).
    { apply String.eqb_neq. intros ->. now apply (Hl a (or_introl eq_refl)). }
    rewrite Ha. f_equal. apply IHl. intros k' Hk'. apply Hl. now right. }
  apply Hext. intros k' Hk' ->. contradiction.
Qed.

(** An object whose keys are distinct and in enumeration order is its
    own copy. *)
Lemma entries_fixed (o : obj V) :
  NoDup (map fst o) -> own_key_order (map fst o) = map fst o -> entries o = o.
Proof.
  intros Hnd Hk. unfold entries, keys. rewrite Hk. now apply entries_unique.
Qed.

Lemma entries_NoDup (o : obj V) : NoDup (map fst o) -> NoDup (map fst (entries o)).
Proof.
  intros Hnd. rewrite names_entries. unfold keys.
  apply Permutation_NoDup with (l := map fst o); trivial.
  apply Permutation_sym, own_key_order_perm.
Qed.

(** Overwriting a property of a copy leaves a copy. *)
Lemma entries_set_copy (o : obj V) (k : string) (v w : V) :
  NoDup (map fst o) -> get o k = Some w ->
  entries (set (entries o) k v) = set (entries o) k v.
Proof.
  intros Hnd Hk. apply entries_fixed.
  - rewrite (set_existing_keys _ k v w); [now apply entries_NoDup|].
    now rewrite get_entries.
  - rewrite (set_existing_keys _ k v w); [|now rewrite get_entries].
    rewrite names_entries. apply own_key_order_idem.
Qed.

Lemma set_set (o : obj V) (k : string) (v w : V) : set (set o k v) k w = set o k w.
Proof.
  induction o as [|[k' v'] o IH]; simpl.
  - now rewrite String.eqb_refl.
  - destruct (String.eqb k' k) eqn:E; simpl; rewrite E; [reflexivity | now rewrite IH].
Qed.

End EnumerationFacts.

(* ================================================================== *)
(** * 29. Facts about the data preparation *)
(* ================================================================== *)

Section FirstByFacts.
Context {T : Type} (key : T -> string).

Lemma first_by_In (l : list T) (x : T) : In x (first_by key l) -> In x l.
Proof.
  revert x. induction l as [|a l IH]; simpl; [tauto|].
  intros x [H|H]; [now left|]. apply filter_In in H. right. now apply IH.
Qed.

Lemma first_by_keys (l : list T) : map key (first_by key l) = first_seen (map key l).
Proof.
  induction l as [|a l IH]; simpl; [reflexivity|]. f_equal.
  rewrite <- IH. clear IH. induction (first_by key l) as [|b m IHm]; simpl; [reflexivity|].
  destruct (String.eqb (key a) (key b)); simpl; now rewrite IHm.
Qed.

Lemma first_by_NoDup (l : list T) : NoDup (map key (first_by key l)).
Proof. rewrite first_by_keys. apply first_seen_NoDup. Qed.

Lemma first_by_covers (l : list T) (x : T) :
  In x l -> exists y, In y (first_by key l) /\ key y = key x.
Proof.
  intros Hx. assert (H : In (key x) (map key (first_by key l))).
  { rewrite first_by_keys. apply first_seen_In. now apply in_map. }
  apply in_map_iff in H. destruct H as [y [Hy Hin]]. now exists y.
Qed.

(** Where no two elements share a key, all are first. *)
Lemma first_by_fixed (l : list T) : NoDup (map key l) -> first_by key l = l.
Proof.
  induction l as [|a l IH]; simpl; [reflexivity|].
  intros Hnd. inversion Hnd as [|? ? Ha Hnd']; subst. f_equal.
  rewrite (IH Hnd'). clear IH Hnd Hnd'.
  induction l as [|b l IHl]; simpl; [reflexivity|].
  destruct (String.eqb (key a) (key b)) eqn:E.
  - apply String.eqb_eq in E. exfalso. apply Ha. left. symmetry. exact E.
  - simpl. f_equal. apply IHl. intros H. apply Ha. now right.
Qed.

Lemma first_by_idem (l : list T) : first_by key (first_by key l) = first_by key l.
Proof. apply first_by_fixed, first_by_NoDup. Qed.

End FirstByFacts.

Section RemoveDuplicatesFacts.
Context {num : Type} {A : Arith num} {RT : Runtime num}.

Lemma string_set_add_seen (seen : list string) (s : string) :
  mem s seen = true -> string_set_add seen s = seen.
Proof. unfold string_set_add, mem. now intros ->. Qed.

Lemma string_set_add_new (seen : list string) (s : string) :
  mem s seen = false -> string_set_add seen s = seen ++ [s].
Proof. unfold string_set_add, mem. now intros ->. Qed.

(** The filter with its set of texts keeps the first rows that the set
    does not hold. *)
Lemma remove_seen_spec (data : dataset num) (seen : list string) :
  remove_seen seen data
  = filter (fun r => negb (mem (JSON_stringify r) seen)) (first_by JSON_stringify data).
Proof.
  revert seen. induction data as [|r rest IH]; intros seen; [reflexivity|].
  cbn [remove_seen first_by filter].
  destruct (mem (JSON_stringify r) seen) eqn:E; cbn [negb].
  - rewrite (string_set_add_seen _ _ E), IH, filter_filter.
    apply filter_ext. intros y.
    destruct (String.eqb (JSON_stringify r) (JSON_stringify y)) eqn:E'; [|reflexivity].
    apply String.eqb_eq in E'. rewrite <- E', E. reflexivity.
  - rewrite (string_set_add_new _ _ E), IH, filter_filter. f_equal.
    apply filter_ext. intros y. rewrite mem_app. simpl.
    rewrite orb_false_r, negb_orb, andb_comm. f_equal. f_equal. apply String.eqb_sym.
Qed.

Lemma removeDuplicates_first_by (data : dataset num) :
  removeDuplicates data = first_by JSON_stringify data.
Proof.
  unfold removeDuplicates. rewrite remove_seen_spec. apply filter_true.
Qed.

End RemoveDuplicatesFacts.

Section MissingValuesFacts.
Context {num : Type} {A : Arith num} {RT : Runtime num}.

Lemma field_entries (r : row num) (h : string) : field (entries r) h = field r h.
Proof. unfold field. now rewrite get_entries. Qed.

Lemma field_with_field (r : row num) (column h : string) (v : value num) :
  field (with_field r column v) h = if String.eqb column h then v else field r h.
Proof.
  unfold with_field. destruct (String.eqb column h) eqn:E.
  - apply String.eqb_eq in E. subst. apply field_set_same.
  - apply String.eqb_neq in E. rewrite field_set_other; trivial. apply field_entries.
Qed.

Lemma filter_all {T : Type} (p : T -> bool) (l : list T) :
  (forall x, In x l -> p x = true) -> filter p l = l.
Proof.
  induction l as [|a l IH]; simpl; intros H; [reflexivity|].
  rewrite (H a (or_introl eq_refl)). f_equal. apply IH. intros x Hx. apply H. now right.
Qed.

Lemma map_fixed {T : Type} (f : T -> T) (l : list T) :
  (forall x, In x l -> f x = x) -> map f l = l.
Proof.
  induction l as [|a l IH]; simpl; intros H; [reflexivity|].
  rewrite (H a (or_introl eq_refl)). f_equal. apply IH. intros x Hx. apply H. now right.
Qed.

(** A column without missing cells is left as it is, whatever the
    strategy. *)
Lemma handleMissingValues_complete (data : dataset num) (column strategy : string) :
  (forall r, In r data -> is_missing (field r column) = false) ->
  handleMissingValues data column strategy = data.
Proof.
  intros H. unfold handleMissingValues. destruct (String.eqb strategy "drop-row").
  - apply filter_all. intros r Hr. unfold is_present. now rewrite (H r Hr).
  - apply map_fixed. intros r Hr. now rewrite (H r Hr).
Qed.



(** The rows the pivot would skip for a missing value can be dropped
    beforehand. *)
Lemma pivot_fold_drop_row (rowDim colDim valDim func column : string)
    (data : dataset num) (st : PivotState) :
  column <> "None"%string -> rowDim = column \/ colDim = column ->
  fold_left (pivot_step rowDim colDim valDim func)
            (filter (fun r => is_present (field r column)) data) st
  = fold_left (pivot_step rowDim colDim valDim func) data st.
Proof.
  intros Hc Hdim. revert st. induction data as [|r data IH]; intros st; simpl; [reflexivity|].
  unfold is_present at 1. destruct (is_missing (field r column)) eqn:E; simpl.
  - rewrite IH. f_equal. symmetry. apply pivot_step_skip.
    destruct Hdim as [Hd|Hd]; subst column; [left | right]; now split.
  - apply IH.
Qed.

End MissingValuesFacts.

Section DeleteColumnFacts.
Context {num : Type}.






End DeleteColumnFacts.

Section StringFacts.

Lemma upper_char_idem (c : ascii) : Str.upper_char (Str.upper_char c) = Str.upper_char c.
Proof. destruct c as [[] [] [] [] [] [] [] []]; reflexivity. Qed.

Lemma lower_char_idem (c : ascii) : Str.lower_char (Str.lower_char c) = Str.lower_char c.
Proof. destruct c as [[] [] [] [] [] [] [] []]; reflexivity. Qed.

Lemma map_chars_idem (f : ascii -> ascii) (s : string) :
  (forall c, f (f c) = f c) -> Str.map_chars f (Str.map_chars f s) = Str.map_chars f s.
Proof. intros Hf. induction s as [|c s IH]; simpl; [reflexivity | now rewrite Hf, IH]. Qed.

Lemma toUpperCase_idem (s : string) :
  Str.toUpperCase (Str.toUpperCase s) = Str.toUpperCase s.
Proof. apply map_chars_idem, upper_char_idem. Qed.

Lemma toLowerCase_idem (s : string) :
  Str.toLowerCase (Str.toLowerCase s) = Str.toLowerCase s.
Proof. apply map_chars_idem, lower_char_idem. Qed.

(** No white space in front. *)
Lemma trim_start_fixed (l : list ascii) :
  match l with c :: _ => F64.is_space c = false | [] => True end ->
  F64.trim_start l = l.
Proof. destruct l as [|c l]; simpl; [reflexivity|]. now intros ->. Qed.

Lemma trim_start_head (l : list ascii) :
  match F64.trim_start l with c :: _ => F64.is_space c = false | [] => True end.
Proof.
  induction l as [|c l IH]; simpl; [exact I|].
  destruct (F64.is_space c) eqn:E; [exact IH | exact E].
Qed.

Lemma trim_start_split (l : list ascii) : exists p, l = p ++ F64.trim_start l.
Proof.
  induction l as [|c l [p IH]]; simpl; [now exists []|].
  destruct (F64.is_space c).
  - exists (c :: p). simpl. now f_equal.
  - now exists [].
Qed.

Lemma trim_idem (l : list ascii) : F64.trim (F64.trim l) = F64.trim l.
Proof.
  unfold F64.trim.
  set (a := F64.trim_start l).
  set (b := F64.trim_start (rev a)).
  assert (Ha : match a with c :: _ => F64.is_space c = false | [] => True end)
    by apply trim_start_head.
  assert (Hb : match b with c :: _ => F64.is_space c = false | [] => True end)
    by apply trim_start_head.
  assert (Ht : F64.trim_start (rev b) = rev b).
  { apply trim_start_fixed.
    destruct (trim_start_split (rev a)) as [p Hp]. fold b in Hp.
    assert (Hab : a = rev b ++ rev p).
    { rewrite <- rev_app_distr, <- Hp. symmetry. apply rev_involutive. }
    destruct (rev b) as [|c t] eqn:Erb; [exact I|].
    rewrite Hab in Ha. exact Ha. }
  rewrite Ht, rev_involutive. now rewrite (trim_start_fixed b Hb).
Qed.

Lemma Str_trim_idem (s : string) : Str.trim (Str.trim s) = Str.trim s.
Proof.
  unfold Str.trim. now rewrite list_ascii_of_string_of_list_ascii, trim_idem.
Qed.

Lemma capitalize_idem (s : string) :
  standardize "capitalize" (standardize "capitalize" s) = standardize "capitalize" s.
Proof.
  destruct s as [|c s]; [reflexivity|].
  change (standardize "capitalize" (String c s))
    with (String (Str.upper_char c) (Str.toLowerCase s)).
  change (standardize "capitalize" (String (Str.upper_char c) (Str.toLowerCase s)))
    with (String (Str.upper_char (Str.upper_char c))
                 (Str.toLowerCase (Str.toLowerCase s))).
  now rewrite upper_char_idem, toLowerCase_idem.
Qed.

(** Each format is the same applied once or twice. *)
Lemma standardize_idem (type s : string) :
  standardize type (standardize type s) = standardize type s.
Proof.
  destruct (String.eqb type "uppercase") eqn:E1.
  { apply String.eqb_eq in E1. subst. apply toUpperCase_idem. }
  destruct (String.eqb type "lowercase") eqn:E2.
  { apply String.eqb_eq in E2. subst. apply toLowerCase_idem. }
  destruct (String.eqb type "trim") eqn:E3.
  { apply String.eqb_eq in E3. subst. apply Str_trim_idem. }
  destruct (String.eqb type "capitalize") eqn:E4.
  { apply String.eqb_eq in E4. subst. apply capitalize_idem. }
  unfold standardize. now rewrite E1, E2, E3, E4.
Qed.

End StringFacts.

Section StandardizeFacts.
Context {num : Type}.

Lemma field_Some (r : row num) (h : string) (v : value num) :
  field r h = v -> v <> VUndefined -> get r h = Some v.
Proof.
  unfold field. destruct (get r h) as [w|]; intros <- Hv; [reflexivity | contradiction].
Qed.

Lemma standardizeFormat_idem_row (column type : string) (r : row num) :
  NoDup (map fst r) ->
  let f := fun r : row num =>
             match field r column with
             | VStr val => with_field r column (VStr (standardize type val))
             | _ => r
             end in
  f (f r) = f r.
Proof.
  intros Hnd f. unfold f.
  destruct (field r column) as [| |b|x|s] eqn:E; rewrite ?E; trivial.
  rewrite field_with_field, String.eqb_refl.
  unfold with_field. rewrite standardize_idem.
  rewrite (entries_set_copy r column _ (VStr s) Hnd).
  - apply set_set.
  - apply field_Some; [exact E | discriminate].
Qed.

End StandardizeFacts.

Section ValidateFacts.
Context {num : Type} {A : Arith num} {RT : Runtime num}.





End ValidateFacts.

(* ================================================================== *)
(** * 30. Facts about the preparation studio *)
(* ================================================================== *)

Section CleaningFacts.
Context {num : Type} {A : Arith num} {RT : Runtime num}.

Lemma refresh_data (st : DataCleaningView.State (num:=num)) :
  DataCleaningView.data (DataCleaningView.refresh st) = DataCleaningView.data st.
Proof.
  unfold DataCleaningView.refresh. now destruct (DataCleaningView.data st) eqn:E.
Qed.

Lemma refresh_history (st : DataCleaningView.State (num:=num)) :
  DataCleaningView.history (DataCleaningView.refresh st) = DataCleaningView.history st.
Proof.
  unfold DataCleaningView.refresh. now destruct (DataCleaningView.data st) eqn:E.
Qed.

Lemma last4_length {T : Type} (l : list T) :
  (length (DataCleaningView.last4 l) <= 4)%nat.
Proof. unfold DataCleaningView.last4. rewrite length_skipn. lia. Qed.

Lemma last4_short {T : Type} (l : list T) :
  (length l <= 4)%nat -> DataCleaningView.last4 l = l.
Proof.
  intros H. unfold DataCleaningView.last4.
  replace (length l - 4)%nat with 0%nat by lia. reflexivity.
Qed.

Lemma without_last_app {T : Type} (l : list T) (x : T) :
  DataCleaningView.without_last (l ++ [x]) = l.
Proof.
  unfold DataCleaningView.without_last. rewrite length_app. simpl.
  replace (length l + 1 - 1)%nat with (length l + 0)%nat by lia.
  rewrite firstn_app_2. simpl. apply app_nil_r.
Qed.

Lemma applyTransform_history (action : DataCleaningView.Action)
    (st : DataCleaningView.State (num:=num)) :
  DataCleaningView.history (DataCleaningView.applyTransform action st)
  = DataCleaningView.last4 (DataCleaningView.history st) ++ [DataCleaningView.data st].
Proof.
  unfold DataCleaningView.applyTransform.
  destruct (DataCleaningView.transform action st) as [[newData sel]|]; [|reflexivity].
  now rewrite refresh_history.
Qed.

Lemma handleUndo_history (st : DataCleaningView.State (num:=num)) :
  DataCleaningView.history (DataCleaningView.handleUndo st)
  = DataCleaningView.without_last (DataCleaningView.history st).
Proof.
  unfold DataCleaningView.handleUndo.
  destruct (rev (DataCleaningView.history st)) as [|previous l] eqn:E.
  - assert (H : DataCleaningView.history st = []).
    { rewrite <- (rev_involutive (DataCleaningView.history st)), E. reflexivity. }
    now rewrite H.
  - now rewrite refresh_history.
Qed.

Lemma handle_history_bound (st : DataCleaningView.State (num:=num))
    (e : DataCleaningView.Event) :
  (length (DataCleaningView.history st) <= 5)%nat ->
  (length (DataCleaningView.history (DataCleaningView.handle st e)) <= 5)%nat.
Proof.
  intros H. destruct e as [action| |h]; simpl.
  - rewrite applyTransform_history, length_app. simpl.
    pose proof (last4_length (DataCleaningView.history st)). lia.
  - rewrite handleUndo_history. unfold DataCleaningView.without_last.
    rewrite length_firstn. lia.
  - exact H.
Qed.

Lemma run_history_bound (events : list DataCleaningView.Event)
    (st : DataCleaningView.State (num:=num)) :
  (length (DataCleaningView.history st) <= 5)%nat ->
  (length (DataCleaningView.history (fold_left DataCleaningView.handle events st)) <= 5)%nat.
Proof.
  revert st. induction events as [|e events IH]; intros st H; simpl; [exact H|].
  apply IH. now apply handle_history_bound.
Qed.

Lemma mount_history (rawData : dataset num) :
  DataCleaningView.history (DataCleaningView.mount rawData) = [].
Proof. unfold DataCleaningView.mount. now rewrite refresh_history. Qed.

End CleaningFacts.

(* ================================================================== *)
(** * 31. The cells and keys of the pivot *)
(* ================================================================== *)

Section PivotCellFacts.
Context {num : Type} {A : Arith num} {RT : Runtime num}.

Lemma bucket_of_at (vm : obj (obj (list (value num)))) (rKey cKey : value num) :
  bucket_of vm rKey cKey = bucket_at vm (String_ rKey) (String_ cKey).
Proof. reflexivity. Qed.

Lemma eqb_false_neq (a b : string) : String.eqb a b = false -> a <> b.
Proof. apply String.eqb_neq. Qed.

(** One accumulation appends the reading to the bucket of the row's
    keys, where it is collected, and touches no other bucket. *)
Lemma pivot_accumulate_bucket (valDim func : string) (st : PivotState)
    (r : row num) (rKey cKey : value num) (rk ck : string) :
  bucket_at (valuesMap (pivot_accumulate valDim func st r rKey cKey)) rk ck
  = bucket_at (valuesMap st) rk ck
    ++ (if String.eqb (String_ rKey) rk && String.eqb (String_ cKey) ck
           && collected valDim func r
        then [field r valDim] else []).
Proof.
  unfold pivot_accumulate, bucket_at, collected. cbn [valuesMap].
  set (RK := String_ rKey). set (CK := String_ cKey). set (vm := valuesMap st).
  destruct (String.eqb RK rk) eqn:Er.
  - apply String.eqb_eq in Er. subst rk. rewrite get_set_same.
    destruct (get vm RK) as [inner|] eqn:Eg; [rewrite Eg | rewrite get_set_same];
      cbn [andb].
    + destruct (get inner CK) as [b|] eqn:Ei; [rewrite Ei | rewrite get_set_same];
        destruct (String.eqb func "Count" || typeof_number (field r valDim));
        (destruct (String.eqb CK ck) eqn:Ec;
         [apply String.eqb_eq in Ec; subst ck | apply eqb_false_neq in Ec]);
        cbn [andb];
        rewrite ?get_set_same, ?Ei, ?app_nil_r; trivial;
        rewrite ?get_set_other by exact Ec; rewrite ?get_set_other by exact Ec;
        now rewrite ?app_nil_r.
    + cbn [get].
      destruct (String.eqb func "Count" || typeof_number (field r valDim));
        (destruct (String.eqb CK ck) eqn:Ec;
         [apply String.eqb_eq in Ec; subst ck | apply eqb_false_neq in Ec]);
        cbn [andb];
        rewrite ?get_set_same; trivial;
        rewrite ?get_set_other by exact Ec; rewrite ?get_set_other by exact Ec;
        reflexivity.
  - apply eqb_false_neq in Er. cbn [andb]. rewrite app_nil_r.
    rewrite get_set_other by exact Er.
    destruct (get vm RK) as [inner|] eqn:Eg; [reflexivity|].
    now rewrite get_set_other by exact Er.
Qed.

Lemma pivot_step_keys (rowDim colDim valDim func : string) (st : PivotState) (r : row num) :
  pivot_step rowDim colDim valDim func st r
  = match pivot_keys rowDim colDim r with
    | Some (rKey, cKey) => pivot_accumulate valDim func st r rKey cKey
    | None => st
    end.
Proof.
  unfold pivot_step, pivot_keys.
  destruct (resolve_key rowDim r); [|reflexivity].
  now destruct (resolve_key colDim r).
Qed.

Lemma pivot_step_v2_keys (rowDim colDim valDim func : string) (st : PivotState)
    (r : row num) :
  pivot_step_v2 rowDim colDim valDim func st r
  = match pivot_keys_v2 rowDim colDim r with
    | Some (rKey, cKey) => pivot_accumulate valDim func st r rKey cKey
    | None => st
    end.
Proof. reflexivity. Qed.

(** The buckets after the loop, for a loop body that files each row
    under the keys [keys_of] gives it. *)
Lemma pivot_fold_bucket (keys_of : row num -> option (value num * value num))
    (step : PivotState -> row num -> PivotState) (valDim func : string) :
  (forall st r, step st r
                = match keys_of r with
                  | Some (rKey, cKey) => pivot_accumulate valDim func st r rKey cKey
                  | None => st
                  end) ->
  forall (data : list (row num)) (st : PivotState) (rk ck : string),
    bucket_at (valuesMap (fold_left step data st)) rk ck
    = bucket_at (valuesMap st) rk ck ++ cell_values keys_of valDim func rk ck data.
Proof.
  intros Hstep data. induction data as [|r data IH]; intros st rk ck.
  - unfold cell_values. simpl. now rewrite app_nil_r.
  - cbn [fold_left]. rewrite IH, Hstep. unfold cell_values. cbn [filter].
    unfold filed_under at 2. destruct (keys_of r) as [[rKey cKey]|].
    + rewrite pivot_accumulate_bucket, <- app_assoc. f_equal.
      destruct (String.eqb (String_ rKey) rk && String.eqb (String_ cKey) ck
                && collected valDim func r); reflexivity.
    + reflexivity.
Qed.

(** ** The grid *)

Lemma fold_set_get {K V : Type} (key : K -> string) (val : K -> V) (l : list K)
    (o : obj V) (k : K) :
  (forall a b, key a = key b -> val a = val b) -> In k l ->
  get (fold_left (fun g a => set g (key a) (val a)) l o) (key k) = Some (val k).
Proof.
  intros Hval. revert o. induction l as [|a l IH] using rev_ind; intros o Hin; [destruct Hin|].
  rewrite fold_left_app. cbn [fold_left].
  destruct (String.eqb (key a) (key k)) eqn:E.
  - apply String.eqb_eq in E. rewrite <- E, get_set_same. f_equal. now apply Hval.
  - apply eqb_false_neq in E. rewrite get_set_other by exact E.
    apply IH. apply in_app_or in Hin. destruct Hin as [Hin|[->|[]]]; [exact Hin|].
    now contradiction E.
Qed.

Lemma fold_left_agree {S T : Type} (f g : S -> T -> S) (l : list T) (o : S) :
  (forall s a, f s a = g s a) -> fold_left f l o = fold_left g l o.
Proof.
  intros H. revert o. induction l as [|a l IH]; intros o; simpl; [reflexivity|].
  now rewrite H, IH.
Qed.

Lemma grid_row_text (func : string) (vm : obj (obj (list (value num))))
    (cols : list (value num)) (a b : value num) :
  String_ a = String_ b -> grid_row func vm cols a = grid_row func vm cols b.
Proof.
  intros H. unfold grid_row. apply fold_left_agree. intros g cKey.
  unfold bucket_of. now rewrite H.
Qed.

(** Every pair of a row key and a column key of the result has its cell
    in the grid. *)
Lemma pivot_result_cell (func : string) (st : PivotState) (rKey cKey : value num) :
  In rKey (rowKeys (pivot_result func st)) ->
  In cKey (colKeys (pivot_result func st)) ->
  exists g, get (grid (pivot_result func st)) (String_ rKey) = Some g
    /\ get g (String_ cKey)
       = Some (round2 (aggregate func (bucket_of (valuesMap st) rKey cKey))).
Proof.
  cbn [pivot_result rowKeys colKeys grid]. intros Hr Hc.
  exists (grid_row func (valuesMap st) (sort_default (colKeySet st)) rKey). split.
  - apply (fold_set_get String_
             (grid_row func (valuesMap st) (sort_default (colKeySet st)))); trivial.
    intros a b. apply grid_row_text.
  - unfold grid_row.
    apply (fold_set_get String_
             (fun cKey => round2 (aggregate func (bucket_of (valuesMap st) rKey cKey))));
      trivial.
    intros a b Hab. unfold bucket_of. now rewrite Hab.
Qed.

Lemma set_add_In_iff (s : list (value num)) (v k : value num) :
  In k (set_add s v) -> In k s \/ k = set_entry v.
Proof.
  unfold set_add. cbv zeta.
  destruct (existsb (same_value_zero (set_entry v)) s); [now left|].
  intros H. apply in_app_or in H. destruct H as [H|[<-|[]]]; [now left | now right].
Qed.

Lemma set_add_keeps (s : list (value num)) (v k : value num) :
  In k s -> In k (set_add s v).
Proof.
  unfold set_add. cbv zeta.
  destruct (existsb (same_value_zero (set_entry v)) s); [trivial|].
  intros H. apply in_or_app. now left.
Qed.

End PivotCellFacts.

Section PivotKeyFacts.
Context {num : Type} {A : Arith num} {RT : Runtime num}.

Lemma same_value_zero_refl (v : value num) : same_value_zero v v = true.
Proof.
  destruct v as [| |b|x|s]; simpl; trivial.
  - now destruct b.
  - unfold isNaN. now destruct (neqb x x).
  - apply String.eqb_refl.
Qed.

Lemma existsb_set_add (p : value num -> bool) (s : list (value num)) (v : value num) :
  existsb p s = true -> existsb p (set_add s v) = true.
Proof.
  unfold set_add. cbv zeta.
  destruct (existsb (same_value_zero (set_entry v)) s); [trivial|].
  intros H. now rewrite existsb_app, H.
Qed.

(** After [s.add(v)] the set holds what it stores for [v]. *)
Lemma set_add_member (s : list (value num)) (v : value num) :
  existsb (same_value_zero (set_entry v)) (set_add s v) = true.
Proof.
  unfold set_add. cbv zeta.
  destruct (existsb (same_value_zero (set_entry v)) s) eqn:E; [exact E|].
  rewrite existsb_app. simpl. now rewrite same_value_zero_refl, orb_true_r.
Qed.

(** A key whose text is not the text of a number is stored as it is. *)
Lemma set_entry_text (v : value num) : String_ (set_entry v) = String_ v \/ exists x, v = VNum x.
Proof. destruct v; simpl; auto. right. now eexists. Qed.

Section Loop.
Variable keys_of : row num -> option (value num * value num).
Variable step : @PivotState num -> row num -> @PivotState num.
Variables valDim func : string.
Hypothesis Hstep :
  forall st r, step st r
               = match keys_of r with
                 | Some (rKey, cKey) => pivot_accumulate valDim func st r rKey cKey
                 | None => st
                 end.

Lemma step_rowKeySet (st : PivotState) (r : row num) :
  rowKeySet (step st r)
  = match keys_of r with
    | Some (rKey, _) => set_add (rowKeySet st) rKey
    | None => rowKeySet st
    end.
Proof. rewrite Hstep. now destruct (keys_of r) as [[rKey cKey]|]. Qed.

Lemma step_colKeySet (st : PivotState) (r : row num) :
  colKeySet (step st r)
  = match keys_of r with
    | Some (_, cKey) => set_add (colKeySet st) cKey
    | None => colKeySet st
    end.
Proof. rewrite Hstep. now destruct (keys_of r) as [[rKey cKey]|]. Qed.

(** The key sets after the loop hold the keys of the rows, and only
    those. *)
Lemma pivot_fold_rowKeys_In (data : list (row num)) (st : PivotState) (k : value num) :
  In k (rowKeySet (fold_left step data st)) ->
  In k (rowKeySet st)
  \/ exists r k' c, In r data /\ keys_of r = Some (k', c) /\ k = set_entry k'.
Proof.
  revert st. induction data as [|r data IH]; intros st; cbn [fold_left]; [now left|].
  intros Hk. apply IH in Hk. destruct Hk as [Hk|[r' [k' [c [Hr' Hk]]]]].
  - rewrite step_rowKeySet in Hk. destruct (keys_of r) as [[rKey cKey]|] eqn:E; [|now left].
    apply set_add_In_iff in Hk. destruct Hk as [Hk|Hk]; [now left|]. subst k.
    right. exists r, rKey, cKey. split; [now left | now split].
  - right. exists r', k', c. split; [now right | exact Hk].
Qed.

Lemma pivot_fold_colKeys_In (data : list (row num)) (st : PivotState) (k : value num) :
  In k (colKeySet (fold_left step data st)) ->
  In k (colKeySet st)
  \/ exists r c k', In r data /\ keys_of r = Some (c, k') /\ k = set_entry k'.
Proof.
  revert st. induction data as [|r data IH]; intros st; cbn [fold_left]; [now left|].
  intros Hk. apply IH in Hk. destruct Hk as [Hk|[r' [c [k' [Hr' Hk]]]]].
  - rewrite step_colKeySet in Hk. destruct (keys_of r) as [[rKey cKey]|] eqn:E; [|now left].
    apply set_add_In_iff in Hk. destruct Hk as [Hk|Hk]; [now left|]. subst k.
    right. exists r, rKey, cKey. split; [now left | now split].
  - right. exists r', c, k'. split; [now right | exact Hk].
Qed.

Lemma pivot_fold_rowKeys_keep (p : value num -> bool) (data : list (row num))
    (st : PivotState) :
  existsb p (rowKeySet st) = true ->
  existsb p (rowKeySet (fold_left step data st)) = true.
Proof.
  revert st. induction data as [|r data IH]; intros st Hp; cbn [fold_left]; [exact Hp|].
  apply IH. rewrite step_rowKeySet. destruct (keys_of r) as [[rKey cKey]|]; [|exact Hp].
  now apply existsb_set_add.
Qed.

Lemma pivot_fold_colKeys_keep (p : value num -> bool) (data : list (row num))
    (st : PivotState) :
  existsb p (colKeySet st) = true ->
  existsb p (colKeySet (fold_left step data st)) = true.
Proof.
  revert st. induction data as [|r data IH]; intros st Hp; cbn [fold_left]; [exact Hp|].
  apply IH. rewrite step_colKeySet. destruct (keys_of r) as [[rKey cKey]|]; [|exact Hp].
  now apply existsb_set_add.
Qed.

Lemma pivot_fold_keys_cover (data : list (row num)) (st : PivotState)
    (r : row num) (k c : value num) :
  In r data -> keys_of r = Some (k, c) ->
  existsb (same_value_zero (set_entry k)) (rowKeySet (fold_left step data st)) = true
  /\ existsb (same_value_zero (set_entry c)) (colKeySet (fold_left step data st)) = true.
Proof.
  revert st. induction data as [|r' data IH]; intros st Hr Hk; [destruct Hr|].
  cbn [fold_left]. destruct Hr as [->|Hr]; [|now apply IH].
  split.
  - apply pivot_fold_rowKeys_keep. rewrite step_rowKeySet, Hk. apply set_add_member.
  - apply pivot_fold_colKeys_keep. rewrite step_colKeySet, Hk. apply set_add_member.
Qed.

End Loop.

Lemma ltb_asym (a b : string) : String.ltb a b = true -> String.ltb b a = false.
Proof.
  unfold String.ltb. rewrite (String.compare_antisym b a).
  now destruct (String.compare a b).
Qed.

Lemma default_before_asym (a b : value num) :
  default_before a b = true -> default_before b a = false.
Proof.
  destruct a, b; simpl; trivial; try discriminate; apply ltb_asym.
Qed.

(** The default sort leaves no key in front of one whose text comes
    before its own. *)
Lemma sort_default_sorted (l : list (value num)) :
  Sorted (in_order default_before) (sort_default l).
Proof.
  unfold sort_default. apply js_sort_sorted. intros a b _ _. apply default_before_asym.
Qed.

Lemma sort_default_In (l : list (value num)) (k : value num) :
  In k (sort_default l) <-> In k l.
Proof. unfold sort_default. apply js_sort_In. Qed.

Lemma existsb_perm {T : Type} (p : T -> bool) (l l' : list T) :
  Permutation l l' -> existsb p l = existsb p l'.
Proof.
  induction 1; simpl; trivial.
  - now rewrite IHPermutation.
  - destruct (p x), (p y); reflexivity.
  - congruence.
Qed.

Lemma existsb_sort_default (p : value num -> bool) (l : list (value num)) :
  existsb p (sort_default l) = existsb p l.
Proof. unfold sort_default. apply existsb_perm, js_sort_perm. Qed.

End PivotKeyFacts.

(* ================================================================== *)
(** * 32. Symmetry of the correlation *)
(* ================================================================== *)

Section SymmetryFacts.
Context {num : Type} {A : Arith num}.
Local Open Scope js_scope.

Hypothesis nmul_comm : forall a b : num, a * b = b * a.

Lemma at_app_length (p l : list num) (a : num) : at_ (p ++ a :: l) (length p) = a.
Proof. unfold at_. rewrite app_nth2 by lia. now rewrite Nat.sub_diag. Qed.

Lemma reducei_from_swap (x y px py : list num) (acc : num) :
  length x = length y -> length px = length py ->
  reducei_from (fun s xi i => s + xi * at_ (py ++ y) i) (length px) x acc
  = reducei_from (fun s yi i => s + yi * at_ (px ++ x) i) (length px) y acc.
Proof.
  revert y px py acc. induction x as [|a x IH]; intros [|b y] px py acc Hl Hp;
    try discriminate; [reflexivity|].
  cbn [reducei_from].
  assert (E1 : at_ (py ++ b :: y) (length px) = b) by (rewrite Hp; apply at_app_length).
  rewrite E1, at_app_length, (nmul_comm b a).
  replace (py ++ b :: y) with ((py ++ [b]) ++ y) by now rewrite <- app_assoc.
  replace (px ++ a :: x) with ((px ++ [a]) ++ x) by now rewrite <- app_assoc.
  replace (S (length px)) with (length (px ++ [a])) by (rewrite length_app; simpl; lia).
  apply IH.
  - now injection Hl.
  - rewrite !length_app. simpl. lia.
Qed.

Lemma sumProducts_comm (x y : list num) :
  length x = length y -> sumProducts x y = sumProducts y x.
Proof.
  intros Hl. unfold sumProducts, reducei.
  exact (reducei_from_swap x y [] [] zero Hl eq_refl).
Qed.

Lemma calculateCorrelation_comm (x y : list num) :
  calculateCorrelation x y = calculateCorrelation y x.
Proof.
  unfold calculateCorrelation.
  destruct (length x =? length y)%nat eqn:E.
  - apply Nat.eqb_eq in E. rewrite <- E, Nat.eqb_refl. cbn [negb orb].
    destruct (length x =? 0)%nat; [reflexivity|].
    unfold corr_denominator, corr_radicand, corr_numerator.
    rewrite (nmul_comm (spread y) (spread x)), (sumProducts_comm y x (eq_sym E)).
    now rewrite (nmul_comm (sum y) (sum x)), E.
  - rewrite (Nat.eqb_sym (length y) (length x)), E. reflexivity.
Qed.

End SymmetryFacts.

Lemma mapi_nth_error_None {T U : Type} (f : T -> nat -> U) (l : list T) (k : nat) :
  nth_error l k = None -> nth_error (mapi f l) k = None.
Proof.
  intros H. apply nth_error_None. unfold mapi. rewrite mapi_from_length.
  now apply nth_error_None.
Qed.

Lemma mapi_nth_error_eq {T U : Type} (f : T -> nat -> U) (l : list T) (k : nat) :
  nth_error (mapi f l) k
  = match nth_error l k with Some a => Some (f a k) | None => None end.
Proof.
  destruct (nth_error l k) as [a|] eqn:E.
  - now apply mapi_nth_error.
  - now apply mapi_nth_error_None.
Qed.

(** Multiplication of doubles does not depend on the order of the
    factors. *)
Lemma Float64_mul_comm (x y : float) : PrimFloat.mul x y = PrimFloat.mul y x.
Proof.
  apply Prim2SF_inj. rewrite !mul_spec. unfold SF64mul, SFmul.
  destruct (Prim2SF x) as [sx|sx| |sx mx ex], (Prim2SF y) as [sy|sy| |sy my ey];
    trivial; try (now rewrite xorb_comm).
  now rewrite xorb_comm, Pos.mul_comm, Z.add_comm.
Qed.

(* ================================================================== *)
(** * 33. The share test of the date heuristic *)
(* ================================================================== *)

Section ShareFacts.

Lemma share_test_table : share_exact_upto 50 = true.
Proof. vm_compute. reflexivity. Qed.

Lemma share_exact_lookup (limit c v : nat) :
  share_exact_upto limit = true ->
  (1 <= c <= limit)%nat -> (v <= c)%nat -> share_exact c v = true.
Proof.
  unfold share_exact_upto. intros H Hc Hv. rewrite forallb_forall in H.
  assert (Hin : In c (seq 1 limit)) by (apply in_seq; lia).
  specialize (H c Hin). rewrite forallb_forall in H.
  apply H. apply in_seq. lia.
Qed.

Lemma share_test_float64 (c v : nat) :
  (1 <= c <= 50)%nat -> (v <= c)%nat ->
  nltb (lit_0_8 (A:=Float64)) (ndiv (of_nat v) (of_nat c)) = (4 * c <? 5 * v)%nat.
Proof.
  intros Hc Hv. apply Bool.eqb_prop.
  exact (share_exact_lookup 50 c v share_test_table Hc Hv).
Qed.

Lemma share_test_exact (c v : nat) :
  (1 <= c)%nat ->
  nltb (lit_0_8 (A:=Exact)) (ndiv (of_nat v) (of_nat c)) = (4 * c <? 5 * v)%nat.
Proof.
  intros Hc. rewrite !of_nat_exact. unfold lit_0_8. cbn [nltb ndiv nint Exact].
  assert (Hc' : (0 < INR c)%R) by (apply lt_0_INR; lia).
  assert (Hq : (INR v / INR c * INR c = INR v)%R) by (field; lra).
  unfold Rltb. destruct (Rlt_dec (8 / 10) (INR v / INR c)) as [H|H];
    destruct (4 * c <? 5 * v)%nat eqn:E; trivial; exfalso.
  - apply Nat.ltb_ge in E. apply le_INR in E. rewrite !mult_INR in E. simpl in E.
    apply (Rmult_lt_compat_r (INR c)) in H; trivial. rewrite Hq in H. lra.
  - apply Nat.ltb_lt in E. apply lt_INR in E. rewrite !mult_INR in E. simpl in E.
    apply H. apply (Rmult_lt_reg_r (INR c)); trivial. rewrite Hq. lra.
Qed.

Lemma filter_length_le {T : Type} (p : T -> bool) (l : list T) :
  (length (filter p l) <= length l)%nat.
Proof.
  induction l as [|a l IH]; simpl; [lia|]. destruct (p a); simpl; lia.
Qed.

(** [isLikelyDate] through its share test. *)
Lemma isLikelyDate_share {num : Type} {A : Arith num} (values : list (value num)) :
  (forall c v, (1 <= c <= 50)%nat -> (v <= c)%nat ->
     nltb (lit_0_8 (A:=A)) (ndiv (of_nat v) (of_nat c)) = (4 * c <? 5 * v)%nat) ->
  isLikelyDate values
  = (4 * Nat.min (length values) 50 <? 5 * date_like values)%nat.
Proof.
  intros Hshare. unfold isLikelyDate, date_like, date_sample.
  destruct (length values =? 0)%nat eqn:E.
  - apply Nat.eqb_eq in E. apply length_zero_iff_nil in E. subst. reflexivity.
  - apply Nat.eqb_neq in E. rewrite firstn_min_length.
    apply Hshare; [lia|].
    etransitivity; [apply filter_length_le|].
    rewrite length_firstn. lia.
Qed.

End ShareFacts.

(* ================================================================== *)
(** * 34. Sorting in exact arithmetic *)
(* ================================================================== *)

Section ExactOrderFacts.
Local Open Scope R_scope.

Lemma Rltb_true (x y : R) : Rltb x y = true <-> x < y.
Proof.
  unfold Rltb. destruct (Rlt_dec x y); split; intros H; trivial;
    try discriminate; contradiction.
Qed.

Lemma Rltb_false (x y : R) : Rltb x y = false <-> y <= x.
Proof.
  unfold Rltb. destruct (Rlt_dec x y); split; intros H; trivial;
    try discriminate; lra.
Qed.

Lemma Rleb_true (x y : R) : Rleb x y = true <-> x <= y.
Proof. unfold Rleb. rewrite negb_true_iff. apply Rltb_false. Qed.

Lemma ascending_exact (a b : R) : ascending (A:=Exact) a b = true <-> a < b.
Proof.
  unfold ascending. cbn [nltb nsub Exact]. rewrite zero_exact, Rltb_true. lra.
Qed.

Lemma ascending_exact_false (a b : R) : ascending (A:=Exact) a b = false <-> b <= a.
Proof.
  unfold ascending. cbn [nltb nsub Exact]. rewrite zero_exact, Rltb_false. lra.
Qed.

(** In exact arithmetic the sorted array is ascending. *)
Lemma sort_numeric_sorted (l : list R) : StronglySorted Rle (sort_numeric (A:=Exact) l).
Proof.
  apply Sorted_StronglySorted; [intros a b c; apply Rle_trans|].
  assert (H : Sorted (in_order (ascending (A:=Exact))) (sort_numeric (A:=Exact) l)).
  { apply js_sort_sorted. intros a b _ _ Hab.
    apply ascending_exact in Hab. apply ascending_exact_false. lra. }
  induction H as [|a s Hs IH Hhd]; constructor; trivial.
  destruct Hhd as [|b s Hab]; constructor.
  now apply ascending_exact_false in Hab.
Qed.

Lemma sort_numeric_perm {num : Type} {A : Arith num} (l : list num) :
  Permutation (sort_numeric l) l.
Proof. apply js_sort_perm. Qed.

(** An ascending arrangement of given numbers is unique. *)
Lemma sorted_perm_eq (l l' : list R) :
  StronglySorted Rle l -> StronglySorted Rle l' -> Permutation l l' -> l = l'.
Proof.
  intros Hl. revert l'. induction Hl as [|a l Hl IH Ha]; intros l' Hl' Hp.
  - apply Permutation_nil in Hp. now subst.
  - destruct Hl' as [|b l' Hl' Hb].
    + apply Permutation_sym in Hp. now apply Permutation_nil_cons in Hp.
    + assert (Hab : a = b).
      { rewrite Forall_forall in Ha, Hb.
        assert (H1 : In a (b :: l')) by (apply (Permutation_in _ Hp); now left).
        assert (H2 : In b (a :: l))
          by (apply (Permutation_in _ (Permutation_sym Hp)); now left).
        destruct H1 as [H1|H1]; [now symmetry|].
        destruct H2 as [H2|H2]; [exact H2|].
        apply Rle_antisym; [now apply Ha | now apply Hb]. }
      subst b. f_equal. apply IH; trivial. now apply Permutation_cons_inv in Hp.
Qed.

Lemma sort_numeric_perm_eq (l l' : list R) :
  Permutation l l' -> sort_numeric (A:=Exact) l = sort_numeric (A:=Exact) l'.
Proof.
  intros Hp. apply sorted_perm_eq; try apply sort_numeric_sorted.
  apply perm_trans with l; [apply sort_numeric_perm|].
  apply perm_trans with l'; [exact Hp|]. apply Permutation_sym, sort_numeric_perm.
Qed.

Lemma filter_perm {T : Type} (p : T -> bool) (l l' : list T) :
  Permutation l l' -> Permutation (filter p l) (filter p l').
Proof.
  induction 1 as [|x l l' Hp IH|x y l|l l' l'' H1 IH1 H2 IH2]; simpl.
  - constructor.
  - destruct (p x); [now constructor | exact IH].
  - destruct (p x), (p y); try apply Permutation_refl. apply perm_swap.
  - now apply perm_trans with (filter p l').
Qed.

Lemma sorted_nth_le (s : list R) (i k : nat) :
  StronglySorted Rle s -> (i <= k < length s)%nat -> nth i s 0 <= nth k s 0.
Proof.
  intros Hs. revert i k. induction Hs as [|a s Hs IH Ha]; intros i k Hik; simpl in Hik; [lia|].
  destruct i as [|i], k as [|k]; simpl; try lia; try lra.
  - rewrite Forall_forall in Ha. apply Ha, nth_In. lia.
  - apply IH. lia.
Qed.

Lemma filter_length_prefix {T : Type} (p : T -> bool) (s : list T) (j : nat) :
  (forall a, In a (firstn j s) -> p a = true) -> (j <= length s)%nat ->
  (j <= length (filter p s))%nat.
Proof.
  intros Hall Hj. rewrite <- (firstn_skipn j s) at 1.
  rewrite filter_app, length_app, (filter_all p (firstn j s) Hall), length_firstn. lia.
Qed.

Lemma filter_length_suffix {T : Type} (p : T -> bool) (s : list T) (j : nat) :
  (forall a, In a (skipn j s) -> p a = true) ->
  (length s - j <= length (filter p s))%nat.
Proof.
  intros Hall. rewrite <- (firstn_skipn j s) at 2.
  rewrite filter_app, length_app, (filter_all p (skipn j s) Hall), length_skipn. lia.
Qed.

Lemma In_firstn_nth (s : list R) (j : nat) (a : R) :
  In a (firstn j s) -> exists i, (i < j)%nat /\ (i < length s)%nat /\ nth i s 0 = a.
Proof.
  intros H. destruct (In_nth _ _ 0 H) as [i [Hi Hn]].
  rewrite length_firstn in Hi. exists i. repeat split; try lia.
  rewrite nth_firstn in Hn.
  destruct (i <? j)%nat eqn:E; [exact Hn | apply Nat.ltb_ge in E; lia].
Qed.

Lemma In_skipn_nth (s : list R) (j : nat) (a : R) :
  In a (skipn j s) -> exists i, (j <= i < length s)%nat /\ nth i s 0 = a.
Proof.
  intros H. destruct (In_nth _ _ 0 H) as [i [Hi Hn]].
  rewrite length_skipn in Hi. exists (j + i)%nat. split; [lia|].
  rewrite <- Hn. now rewrite nth_skipn.
Qed.

End ExactOrderFacts.

(* ================================================================== *)
(** * 35. Facts about the insights and the profile *)
(* ================================================================== *)

Section InsightFacts.
Context {num : Type} {A : Arith num} {FM : Format num}.

Lemma calculateTrend_short (values : list num) :
  (length values < 2)%nat ->
  calculateTrend values
  = {| slope := zero; intercept := None; nextVal := zero;
       trend := Some "stable"%string; trendDirection := None |}.
Proof.
  intros H. unfold calculateTrend. apply Nat.ltb_lt in H. now rewrite H.
Qed.

Lemma detectAnomalies_short (values : list num) :
  (length values < 4)%nat -> detectAnomalies values = [].
Proof.
  intros H. unfold detectAnomalies. apply Nat.ltb_lt in H. now rewrite H.
Qed.

(** The prediction is always there. *)
Lemma insights_with_nonempty
    (trend_of : string -> option string -> Insights.Insight)
    (prediction_of : num -> Insights.Insight)
    (anomaly_of : nat -> Insights.Insight)
    (colName : string) (values : list num) :
  In (prediction_of (nextVal (calculateTrend values)))
     (Insights.insights (insights_with trend_of prediction_of anomaly_of colName values)).
Proof.
  unfold insights_with. cbn [Insights.insights].
  destruct (0 <? length (detectAnomalies values))%nat;
    destruct (not_stable (trendDirection (calculateTrend values)));
    repeat (apply in_or_app; simpl; tauto || left); simpl; tauto.
Qed.

End InsightFacts.

Section TrendFactsExact.
Local Open Scope R_scope.

Lemma trend_denominator_pos (values : list R) :
  (2 <= length values)%nat -> 0 < trend_denominator (A:=Exact) values.
Proof.
  intros Hn.
  assert (Hd : trend_denominator (A:=Exact) values
               = spread (A:=Exact) (trend_indices (length values))).
  { unfold trend_denominator, spread, trend_indices.
    now rewrite length_map, length_seq. }
  rewrite Hd. apply spread_pos.
  exists (of_nat (A:=Exact) 0), (of_nat (A:=Exact) 1). repeat split.
  - apply in_map, in_seq. lia.
  - apply in_map, in_seq. lia.
  - rewrite !of_nat_exact. simpl. lra.
Qed.

(** The regular return of [calculateTrend], which exact arithmetic takes
    for every series of two or more values. *)
Lemma calculateTrend_exact (values : list R) :
  (2 <= length values)%nat ->
  let n := INR (length values) in
  let sumX := Rsum (map INR (seq 0 (length values))) in
  let s := (n * sumProducts (A:=Exact) (trend_indices (length values)) values
            - sumX * Rsum values) / trend_denominator (A:=Exact) values in
  calculateTrend (A:=Exact) values
  = {| slope := s;
       intercept := Some ((Rsum values - s * sumX) / n);
       nextVal := s * n + (Rsum values - s * sumX) / n;
       trend := None;
       trendDirection :=
         Some (if Rltb (5 / 100) s then "increasing"%string
               else if Rltb s (0 - 5 / 100) then "decreasing"%string
               else "stable"%string) |}.
Proof.
  intros Hn n sumX s. unfold calculateTrend.
  destruct (length values <? 2)%nat eqn:E; [apply Nat.ltb_lt in E; lia|].
  assert (Hz : neqb (trend_denominator (A:=Exact) values) zero = false).
  { apply Reqb_false. rewrite zero_exact. pose proof (trend_denominator_pos values Hn). lra. }
  rewrite Hz.
  assert (HX : sum (A:=Exact) (trend_indices (length values)) = sumX).
  { rewrite sum_exact. unfold trend_indices, sumX. f_equal.
    apply map_ext. intros k. apply of_nat_exact. }
  rewrite !HX, !sum_exact, !of_nat_exact. reflexivity.
Qed.

Lemma Rsum_snoc (l : list R) (a : R) : Rsum (l ++ [a]) = Rsum l + a.
Proof. induction l as [|b l IH]; simpl; [lra | rewrite IH; lra]. Qed.

Lemma Rsum_indices (n : nat) : 2 * Rsum (map INR (seq 0 n)) = INR n * (INR n - 1).
Proof.
  induction n as [|n IH]; [simpl; lra|].
  rewrite seq_S, map_app.
  change (map INR [(0 + n)%nat]) with [INR n].
  rewrite Rsum_snoc, S_INR. nra.
Qed.

End TrendFactsExact.

Section ExtractAbsentFacts.
Context {num : Type} {A : Arith num} {RT : Runtime num}.

(** The extraction adds no column to [numericCols]. *)
Lemma extract_cell_absent (r : row num) (cols : obj (list num) * obj (list string))
    (h0 h : string) :
  get (fst cols) h = None -> get (fst (extract_cell r cols h0)) h = None.
Proof.
  intros H. destruct cols as [numericCols catCols]. unfold extract_cell. simpl in H.
  unfold hasOwnProperty. destruct (get numericCols h0) as [l|] eqn:E; cbn [fst].
  - rewrite get_set_other; [exact H|]. intros ->. congruence.
  - now destruct (get catCols h0).
Qed.

Lemma extract_row_absent (r : row num) (headers : list string)
    (cols : obj (list num) * obj (list string)) (h : string) :
  get (fst cols) h = None -> get (fst (fold_left (extract_cell r) headers cols)) h = None.
Proof.
  revert cols. induction headers as [|h0 headers IH]; intros cols H; simpl; [exact H|].
  apply IH. now apply extract_cell_absent.
Qed.

Lemma extract_absent (json : dataset num) (headers : list string)
    (cols : obj (list num) * obj (list string)) (h : string) :
  get (fst cols) h = None -> get (fst (extract json headers cols)) h = None.
Proof.
  unfold extract. revert cols. induction json as [|r json IH]; intros cols H; simpl; [exact H|].
  apply IH. now apply extract_row_absent.
Qed.

(** The columns of [numericCols] after the extraction are the headers
    classified Numeric, each with the numbers of its column. *)
Lemma extract_numeric_get (json : dataset num) (headers : list string) (h : string)
    (l : list num) :
  NoDup headers ->
  get (fst (extract json headers (classify json headers))) h = Some l ->
  In h headers /\ is_numeric_column json h = true /\ l = column_numbers json h.
Proof.
  intros Hnd Hget.
  destruct (mem h headers && is_numeric_column json h) eqn:E.
  - apply andb_true_iff in E. destruct E as [Hm Hn]. apply mem_In in Hm.
    rewrite (profile_numeric_column json headers h Hnd Hm Hn) in Hget.
    injection Hget as <-. now repeat split.
  - rewrite extract_absent in Hget; [discriminate|].
    now rewrite classify_numeric, E.
Qed.

Lemma number_or_zero_not_nan (v : value num) :
  isNaN (zero (A:=A)) = false -> isNaN (number_or_zero v) = false.
Proof.
  intros Hz. unfold number_or_zero. cbn [truthy].
  destruct (isNaN (Number v)) eqn:E.
  - now rewrite orb_true_r.
  - destruct (neqb (Number v) zero); cbn [orb negb]; [exact Hz | exact E].
Qed.

End ExtractAbsentFacts.

(* ================================================================== *)
(** * 36. Splitting text *)
(* ================================================================== *)

Section SplitFacts.

Lemma split_from_nonempty_string (sep : string) (s : string) (skip : nat) (part : list ascii) :
  Str.split_from sep skip part s <> [].
Proof.
  revert skip part. induction s as [|c s IH]; intros skip part; cbn [Str.split_from].
  - discriminate.
  - destruct skip as [|k]; [|apply IH].
    destruct (String.prefix sep (String c s)); [discriminate | apply IH].
Qed.

Lemma append_nil_r (s : string) : String.append s EmptyString = s.
Proof. induction s as [|c s IH]; simpl; [reflexivity | now rewrite IH]. Qed.

Lemma append_assoc (a b c : string) :
  String.append (String.append a b) c = String.append a (String.append b c).
Proof. induction a as [|x a IH]; simpl; [reflexivity | now rewrite IH]. Qed.

Lemma string_of_list_app (l1 l2 : list ascii) :
  string_of_list_ascii (l1 ++ l2)
  = String.append (string_of_list_ascii l1) (string_of_list_ascii l2).
Proof. induction l1 as [|c l1 IH]; simpl; [reflexivity | now rewrite IH]. Qed.

Lemma of_rev_cons (c : ascii) (part : list ascii) :
  Str.of_rev (c :: part) = String.append (Str.of_rev part) (String c EmptyString).
Proof. unfold Str.of_rev. simpl. apply string_of_list_app. Qed.

Lemma prefix_drop (sep s : string) :
  String.prefix sep s = true -> s = String.append sep (string_drop (String.length sep) s).
Proof.
  revert s. induction sep as [|c sep IH]; intros s H; [now destruct s|].
  destruct s as [|d s]; simpl in H; [discriminate|].
  destruct (ascii_dec c d) as [->|]; [|discriminate].
  simpl. f_equal. now apply IH.
Qed.

Lemma join_cons (sep a : string) (l : list string) :
  l <> [] -> Json.join sep (a :: l) = String.append a (String.append sep (Json.join sep l)).
Proof. destruct l; [contradiction | reflexivity]. Qed.

(** The parts of a text, joined by the separator, are the text. *)
Lemma split_from_join (sep s : string) (skip : nat) (part : list ascii) :
  sep <> EmptyString ->
  Json.join sep (Str.split_from sep skip part s)
  = String.append (Str.of_rev part) (string_drop skip s).
Proof.
  intros Hsep. revert skip part. induction s as [|c s IH]; intros skip part.
  - destruct skip; simpl; now rewrite append_nil_r.
  - cbn [Str.split_from]. destruct skip as [|k]; [|apply IH].
    destruct (String.prefix sep (String c s)) eqn:E.
    + rewrite join_cons by apply split_from_nonempty_string.
      rewrite IH. f_equal.
      destruct sep as [|d sep]; [contradiction|].
      pose proof (prefix_drop _ _ E) as Hp. simpl in Hp. injection Hp as <- Hs.
      simpl. rewrite Nat.sub_0_r. f_equal. exact (eq_sym Hs).
    + rewrite IH, of_rev_cons, append_assoc. reflexivity.
Qed.

Lemma split_join (sep s : string) :
  sep <> EmptyString -> Json.join sep (Str.split sep s) = s.
Proof. intros H. unfold Str.split. now rewrite split_from_join. Qed.

End SplitFacts.

Section TextToColumnsFacts.
Context {num : Type} {A : Arith num} {RT : Runtime num}.

Lemma to_uint_not_nil (n : nat) : Nat.to_uint n <> Decimal.Nil.
Proof.
  intros H. pose proof (DecimalNat.Unsigned.of_to n) as Hn. rewrite H in Hn.
  simpl in Hn. subst n. discriminate.
Qed.

Lemma decimal_inj (a b : nat) : Str.decimal a = Str.decimal b -> a = b.
Proof.
  unfold Str.decimal. intros H.
  apply DecimalNat.Unsigned.to_uint_inj.
  apply (f_equal DecimalString.NilZero.uint_of_string) in H.
  rewrite !DecimalString.NilZero.usu in H by apply to_uint_not_nil.
  now injection H.
Qed.

Lemma append_inj (s a b : string) : String.append s a = String.append s b -> a = b.
Proof. induction s as [|c s IH]; simpl; [trivial|]. intros [= H]. now apply IH. Qed.

Lemma part_column_inj (column : string) (a b : nat) :
  part_column column a = part_column column b -> a = b.
Proof.
  unfold part_column. intros H. apply append_inj, append_inj, decimal_inj in H. lia.
Qed.

(** The loop over the parts: each part lands under its own key, and
    every other key is left alone. *)
Lemma parts_fold_get (column : string) (parts : list string) (i0 : nat)
    (o : row num) (h : string) :
  get (reducei_from (fun newRow part index =>
                       set newRow (part_column column index) (VStr (Str.trim part)))
                    i0 parts o) h
  = match find (fun j => String.eqb (part_column column (i0 + j)) h)
               (seq 0 (length parts)) with
    | Some j => Some (VStr (Str.trim (nth j parts EmptyString)))
    | None => get o h
    end.
Proof.
  revert i0 o. induction parts as [|p parts IH]; intros i0 o; [reflexivity|].
  cbn [reducei_from length]. rewrite IH.
  rewrite <- cons_seq, <- seq_shift. cbn [find]. rewrite Nat.add_0_r.
  assert (Hfind : forall l,
            find (fun j => String.eqb (part_column column (i0 + j)) h) (map S l)
            = option_map S (find (fun j => String.eqb (part_column column (S i0 + j)) h) l)).
  { induction l as [|a l IHl]; simpl; [reflexivity|].
    replace (i0 + S a)%nat with (S (i0 + a)) by lia.
    destruct (String.eqb (part_column column (S (i0 + a))) h); [reflexivity | exact IHl]. }
  rewrite Hfind.
  destruct (find (fun j => String.eqb (part_column column (S i0 + j)) h)
                 (seq 0 (length parts))) as [j|] eqn:Ej.
  - cbn [option_map]. apply find_some in Ej. destruct Ej as [_ Ej].
    apply String.eqb_eq in Ej.
    destruct (String.eqb (part_column column i0) h) eqn:E0; [|reflexivity].
    apply String.eqb_eq in E0. rewrite <- Ej in E0. apply part_column_inj in E0. lia.
  - cbn [option_map]. destruct (String.eqb (part_column column i0) h) eqn:E0.
    + apply String.eqb_eq in E0. subst h. now rewrite get_set_same.
    + apply String.eqb_neq in E0. now rewrite get_set_other.
Qed.

Lemma find_index (column : string) (n j : nat) :
  (j < n)%nat ->
  find (fun i => String.eqb (part_column column (0 + i)) (part_column column j)) (seq 0 n)
  = Some j.
Proof.
  intros Hj.
  destruct (find (fun i => String.eqb (part_column column (0 + i)) (part_column column j))
                 (seq 0 n)) as [i|] eqn:E.
  - apply find_some in E. destruct E as [_ E]. apply String.eqb_eq in E.
    apply part_column_inj in E. f_equal. lia.
  - pose proof (find_none _ _ E j) as Hnone. simpl in Hnone.
    rewrite String.eqb_refl in Hnone. discriminate Hnone. apply in_seq. lia.
Qed.

End TextToColumnsFacts.

(* ================================================================== *)
(** * 37. Statistics in exact arithmetic *)
(* ================================================================== *)

Section ExactStatisticsFacts.
Local Open Scope R_scope.

Lemma reducei_from_dot (x y p : list R) (acc : R) :
  length x = length y ->
  reducei_from (fun s xi i => nadd (Arith:=Exact) s (nmul xi (at_ (p ++ y) i)))
               (length p) x acc
  = acc + Rdot x y.
Proof.
  revert y p acc. induction x as [|a x IH]; intros [|b y] p acc Hl; try discriminate.
  - unfold Rdot. simpl. lra.
  - cbn [reducei_from]. rewrite at_app_length.
    replace (p ++ b :: y) with ((p ++ [b]) ++ y) by now rewrite <- app_assoc.
    replace (S (length p)) with (length (p ++ [b])) by (rewrite length_app; simpl; lia).
    rewrite IH by now injection Hl. unfold Rdot. cbn [combine map Rsum fst snd nadd nmul Exact].
    lra.
Qed.

Lemma sumProducts_exact (x y : list R) :
  length x = length y -> sumProducts (A:=Exact) x y = Rdot x y.
Proof.
  intros Hl. unfold sumProducts, reducei.
  rewrite (reducei_from_dot x y [] zero Hl). rewrite zero_exact. lra.
Qed.

Lemma Rdot_cons (a b : R) (x y : list R) : Rdot (a :: x) (b :: y) = a * b + Rdot x y.
Proof. reflexivity. Qed.

Lemma Rsum_squares_nonneg (l : list R) : 0 <= Rsum (squares l).
Proof. induction l as [|a l IH]; simpl; [lra | nra]. Qed.

(** The inequality of Cauchy and Schwarz. *)
Lemma Rdot_square_le (x y : list R) :
  length x = length y ->
  Rdot x y * Rdot x y <= Rsum (squares x) * Rsum (squares y).
Proof.
  revert y. induction x as [|a x IH]; intros [|b y] Hl; try discriminate.
  - unfold Rdot. simpl. lra.
  - rewrite Rdot_cons. cbn [squares map Rsum].
    fold (squares x). fold (squares y).
    specialize (IH y (f_equal pred Hl)).
    pose proof (Rsum_squares_nonneg x) as Hx.
    pose proof (Rsum_squares_nonneg y) as Hy.
    set (P := Rdot x y) in *. set (X := Rsum (squares x)) in *.
    set (Y := Rsum (squares y)) in *.
    assert (Hmid : 2 * (a * b) * P <= X * (b * b) + (a * a) * Y).
    { destruct (Rle_dec (2 * (a * b) * P) 0) as [Hneg|Hpos]; [nra|].
      apply Rnot_le_lt in Hpos.
      assert (Hsq : (2 * (a * b) * P) * (2 * (a * b) * P)
                    <= (X * (b * b) + (a * a) * Y) * (X * (b * b) + (a * a) * Y)).
      { assert (H1 : (2 * (a * b) * P) * (2 * (a * b) * P)
                     <= 4 * (a * a) * (b * b) * (X * Y)).
        { assert (H0 : 0 <= (a * a) * (b * b)) by nra. nra. }
        assert (H2 : 4 * (X * (b * b)) * ((a * a) * Y)
                     <= (X * (b * b) + (a * a) * Y) * (X * (b * b) + (a * a) * Y)).
        { pose proof (Rle_0_sqr (X * (b * b) - (a * a) * Y)) as Hd.
          unfold Rsqr in Hd. nra. }
        nra. }
      assert (Hrhs : 0 <= X * (b * b) + (a * a) * Y) by nra.
      nra. }
    nra.
Qed.

Lemma Rsum_map_scale (c d : R) (l : list R) :
  Rsum (map (fun v => c * v - d) l) = c * Rsum l - INR (length l) * d.
Proof.
  induction l as [|a l IH]; [simpl; lra|].
  cbn [map Rsum]. rewrite IH. change (length (a :: l)) with (S (length l)).
  rewrite S_INR. lra.
Qed.

(** The sums of [calculateCorrelation] through the values scaled and
    centred: [n * v - sum]. *)
Lemma centred_dot (c : R) (x y : list R) :
  length x = length y -> c = INR (length x) ->
  Rdot (map (fun v => c * v - Rsum x) x) (map (fun v => c * v - Rsum y) y)
  = c * (c * Rdot x y - Rsum x * Rsum y).
Proof.
  intros Hl Hc.
  assert (H : forall (sx sy : R) (x y : list R), length x = length y ->
            Rdot (map (fun v => c * v - sx) x) (map (fun v => c * v - sy) y)
            = c * c * Rdot x y - c * sy * Rsum x - c * sx * Rsum y
              + INR (length x) * (sx * sy)).
  { clear. intros sx sy x. induction x as [|a x IH]; intros [|b y] Hl; try discriminate.
    - unfold Rdot. simpl. lra.
    - cbn [map]. rewrite !Rdot_cons, IH by now injection Hl.
      change (length (a :: x)) with (S (length x)). rewrite S_INR.
      cbn [Rsum]. lra. }
  rewrite (H (Rsum x) (Rsum y) x y Hl), <- Hc. lra.
Qed.

Lemma centred_squares (c : R) (x : list R) :
  c = INR (length x) ->
  Rsum (squares (map (fun v => c * v - Rsum x) x))
  = c * (c * Rsum (squares x) - Rsum x * Rsum x).
Proof.
  intros Hc.
  assert (H : forall (s : R) (l : list R),
            Rsum (squares (map (fun v => c * v - s) l))
            = c * c * Rsum (squares l) - 2 * c * s * Rsum l + INR (length l) * (s * s)).
  { clear. intros s l. induction l as [|a l IH]; [simpl; lra|].
    cbn [map squares Rsum]. fold (squares (map (fun v => c * v - s) l)).
    fold (squares l). rewrite IH.
    change (length (a :: l)) with (S (length l)). rewrite S_INR. lra. }
  rewrite (H (Rsum x) x), <- Hc. lra.
Qed.

(** The square of the numerator is at most the radicand. *)
Lemma corr_numerator_square_le (x y : list R) :
  length x = length y -> x <> [] ->
  corr_numerator (A:=Exact) x y * corr_numerator (A:=Exact) x y
  <= corr_radicand (A:=Exact) x y.
Proof.
  intros Hl Hne.
  assert (Hn : 0 < INR (length x)).
  { apply lt_0_INR. destruct x; [contradiction | simpl; lia]. }
  set (n := INR (length x)) in *.
  assert (Hny : n = INR (length y)) by (unfold n; now rewrite Hl).
  pose proof (Rdot_square_le (map (fun v => n * v - Rsum x) x)
                (map (fun v => n * v - Rsum y) y)) as Hcs.
  rewrite !length_map in Hcs. specialize (Hcs Hl).
  rewrite (centred_dot n x y Hl eq_refl), (centred_squares n x eq_refl),
    (centred_squares n y Hny) in Hcs.
  unfold corr_numerator, corr_radicand.
  rewrite sumProducts_exact, !spread_exact, !sum_exact, of_nat_exact by exact Hl.
  rewrite <- Hl. fold n. cbn [nmul nsub Exact].
  set (N := n * Rdot x y - Rsum x * Rsum y) in *.
  set (SX := n * Rsum (squares x) - Rsum x * Rsum x) in *.
  set (SY := n * Rsum (squares y) - Rsum y * Rsum y) in *.
  assert (Hnn : 0 < n * n) by nra.
  apply (Rmult_le_reg_l (n * n)); trivial. nra.
Qed.

Lemma squares_dev (avg : R) (values : list R) :
  fold_left (fun a b => nadd (Arith:=Exact) a b)
            (map (fun value => let diff := nsub (Arith:=Exact) value avg in
                               nmul (Arith:=Exact) diff diff) values) 0
  = dev2 avg values.
Proof.
  rewrite fold_add_exact. unfold dev2. cbn [nsub nmul Exact]. lra.
Qed.

End ExactStatisticsFacts.

Section ExactTrendFacts.
Local Open Scope R_scope.

Lemma trend_indices_exact (n : nat) : trend_indices (A:=Exact) n = map INR (seq 0 n).
Proof. unfold trend_indices. apply map_ext. intros k. apply of_nat_exact. Qed.

Lemma trend_denominator_exact (values : list R) :
  trend_denominator (A:=Exact) values
  = INR (length values) * Rsum (squares (map INR (seq 0 (length values))))
    - Rsum (map INR (seq 0 (length values))) * Rsum (map INR (seq 0 (length values))).
Proof.
  unfold trend_denominator.
  rewrite sumSquares_exact, sum_exact, of_nat_exact, trend_indices_exact. reflexivity.
Qed.

Lemma Rsum_line (a b : R) (l : list nat) :
  Rsum (map (fun i => a * INR i + b) l) = a * Rsum (map INR l) + INR (length l) * b.
Proof.
  induction l as [|k l IH]; [simpl; lra|].
  cbn [map Rsum]. rewrite IH. change (length (k :: l)) with (S (length l)).
  rewrite S_INR. lra.
Qed.

Lemma Rdot_line (a b : R) (l : list nat) :
  Rdot (map INR l) (map (fun i => a * INR i + b) l)
  = a * Rsum (squares (map INR l)) + b * Rsum (map INR l).
Proof.
  induction l as [|k l IH]; [unfold Rdot; simpl; lra|].
  cbn [map]. rewrite Rdot_cons, IH. cbn [squares map Rsum]. fold (squares (map INR l)). lra.
Qed.

End ExactTrendFacts.

(* ================================================================== *)
(** * 38. The claims of the specification *)
(* ================================================================== *)

Set Warnings "-inexact-float".

(** ** C1: rows without a dimension value *)

(** C1, as amended.  In [MathEngine.performPivot] of the full application
    a row whose value in a real row dimension, or in a real column
    dimension, is absent, null or the empty string is skipped: it leaves
    the row keys, the column keys and the buckets as they were, whatever
    the other dimension holds, and the result is the one obtained without
    that row.  The [performPivot] of the second variant does not skip such
    a row: it files it under the key ["Unknown"].  A real dimension is the
    name of a column: not the sentinel ["None"] and not a name that
    [Object.prototype] answers for a row without the cell. *)
Theorem performPivot_skips_missing_dimension
    {num : Type} {A : Arith num} {RT : Runtime num}
    (before after : list (row num)) (r : row num) (rowDim colDim valDim func : string) :
  (rowDim <> "None"%string /\ inherited rowDim = false
   /\ is_missing (field r rowDim) = true)
  \/ (colDim <> "None"%string /\ inherited colDim = false
      /\ is_missing (field r colDim) = true) ->
  (forall st : PivotState, pivot_step rowDim colDim valDim func st r = st)
  /\ performPivot (before ++ r :: after) rowDim colDim valDim func
     = performPivot (before ++ after) rowDim colDim valDim func
  /\ (forall st : PivotState,
        (rowDim <> "None"%string -> inherited rowDim = false ->
         is_missing (field r rowDim) = true ->
         In (VStr "Unknown") (rowKeySet (pivot_step_v2 rowDim colDim valDim func st r)))
        /\ (colDim <> "None"%string -> inherited colDim = false ->
            is_missing (field r colDim) = true ->
            In (VStr "Unknown") (colKeySet (pivot_step_v2 rowDim colDim valDim func st r)))).
Proof.
  intros H.
  assert (H' : (rowDim <> "None"%string /\ is_missing (field r rowDim) = true)
               \/ (colDim <> "None"%string /\ is_missing (field r colDim) = true)).
  { destruct H as [[Hd [_ Hm]] | [Hd [_ Hm]]]; [left | right]; now split. }
  split; [|split].
  - intros st. now apply pivot_step_skip.
  - unfold performPivot. rewrite !fold_left_app. simpl.
    now rewrite (pivot_step_skip rowDim colDim valDim func _ r H').
  - intros st. split; intros Hdim _ Hmiss; unfold pivot_step_v2, pivot_accumulate; simpl.
    + rewrite (resolve_key_v2_missing rowDim r Hdim Hmiss). apply set_add_In.
    + rewrite (resolve_key_v2_missing colDim r Hdim Hmiss). apply set_add_In.
Qed.

Lemma performPivot_skips_missing_dimension_witness :
  (("region" <> "None")%string /\ inherited "region" = false
   /\ is_missing (field sale_without_region "region") = true
   \/ ("None" <> "None")%string /\ inherited "None" = false
      /\ is_missing (field sale_without_region "None") = true)
  /\ performPivot ([] ++ sale_without_region :: []) "region" "None" "amount" "Sum"
     = performPivot ([] ++ []) "region" "None" "amount" "Sum".
Proof.
  assert (H : ("region" <> "None")%string /\ inherited "region" = false
              /\ is_missing (field sale_without_region "region") = true).
  { split; [discriminate | split; reflexivity]. }
  split; [now left|].
  apply (performPivot_skips_missing_dimension (RT:=Float64Runtime)
           [] [] sale_without_region "region" "None" "amount" "Sum").
  now left.
Defined.

(** C1 as stated fails for the [performPivot] of the second variant: the
    row without a region gives the row key ["Unknown"], the column key
    ["Total"] and a bucket entry. *)
Lemma performPivot_v2_keeps_missing_dimension :
  is_missing (field sale_without_region "region") = true
  /\ performPivot_v2 (RT:=Float64Runtime) [sale_without_region] "region" "None" "amount" "Sum"
     = {| rowKeys := [VStr "Unknown"];
          colKeys := [VStr "Total"];
          grid := [("Unknown"%string, [("Total"%string, 10%float)])] |}.
Proof. split; vm_compute; reflexivity. Qed.

(** ** C2: the degenerate cases of the trend *)

(** C2, as amended.  When the series has fewer than two values, or the
    least-squares denominator is 0, [calculateTrend] returns slope 0; the
    forecast is 0 for a series of fewer than two values and the last value
    otherwise. *)
Theorem calculateTrend_degenerate {num : Type} {A : Arith num} (values : list num) :
  (length values < 2)%nat \/ neqb (trend_denominator values) zero = true ->
  slope (calculateTrend values) = zero
  /\ nextVal (calculateTrend values)
     = (if (length values <? 2)%nat then zero else at_ values (length values - 1)).
Proof.
  intros H. unfold calculateTrend.
  destruct (length values <? 2)%nat eqn:E.
  - repeat split.
  - destruct H as [H | H].
    + apply Nat.ltb_lt in H. congruence.
    + rewrite H. repeat split.
Qed.

Lemma calculateTrend_degenerate_witness :
  ((length [5%float] < 2)%nat \/ neqb (trend_denominator [5%float]) zero = true)
  /\ slope (calculateTrend [5%float]) = zero
  /\ nextVal (calculateTrend [5%float])
     = (if (length [5%float] <? 2)%nat then zero else at_ [5%float] (length [5%float] - 1)).
Proof.
  split.
  - left. simpl. lia.
  - apply (calculateTrend_degenerate (A:=Float64) [5%float]). left. simpl. lia.
Defined.

(** C2 as stated fails on a series of one value: the forecast is 0, not
    that value. *)
Lemma calculateTrend_single_value_forecast :
  length [5%float] = 1%nat
  /\ nextVal (calculateTrend (A:=Float64) [5%float]) = 0%float
  /\ neqb (nextVal (calculateTrend (A:=Float64) [5%float])) (last [5%float] 0%float) = false.
Proof. repeat split. Qed.

(** ** C3: the guards of the correlation *)

(** C3, as amended.  In any arithmetic [calculateCorrelation] returns 0
    when the lengths differ, when the input is empty and when the computed
    denominator equals 0.  In exact arithmetic the radicand is never
    negative, a division only happens by a denominator other than 0, and
    a constant series makes the result 0; under binary64 rounding neither
    of the last two is guaranteed. *)
Theorem calculateCorrelation_guards :
  (forall (num : Type) (A : Arith num) (x y : list num),
      length x <> length y \/ x = [] \/ neqb (corr_denominator x y) zero = true ->
      calculateCorrelation x y = zero)
  /\ (forall x y : list R,
        (0 <= corr_radicand x y)%R
        /\ (calculateCorrelation x y = 0%R
            \/ (corr_denominator x y <> 0%R
                /\ calculateCorrelation x y = (corr_numerator x y / corr_denominator x y)%R)))
  /\ (forall (c : R) (x y : list R),
        (forall v, In v x -> v = c) \/ (forall v, In v y -> v = c) ->
        calculateCorrelation x y = 0%R).
Proof.
  split; [|split].
  - intros num A x y [H | [H | H]].
    + now apply calculateCorrelation_mismatch.
    + subst x. apply calculateCorrelation_empty.
    + now apply calculateCorrelation_zero_denominator.
  - intros x y. split; [apply corr_radicand_nonneg|].
    destruct (Nat.eq_dec (length x) (length y)) as [Hlen | Hlen].
    + destruct x as [|a x].
      * left. apply (calculateCorrelation_empty (A:=Exact)).
      * destruct (neqb (corr_denominator (a :: x) y) zero) eqn:Hden.
        -- left. now apply (calculateCorrelation_zero_denominator (A:=Exact)).
        -- right. split.
           ++ now apply Reqb_false in Hden.
           ++ apply (calculateCorrelation_regular (A:=Exact)); [exact Hlen | discriminate | exact Hden].
    + left. now apply (calculateCorrelation_mismatch (A:=Exact)).
  - exact calculateCorrelation_constant_exact.
Qed.

Lemma calculateCorrelation_guards_witness :
  (length [1%float] <> length [1%float; 2%float]
   \/ [1%float] = [] \/ neqb (corr_denominator [1%float] [1%float; 2%float]) zero = true)
  /\ calculateCorrelation [1%float] [1%float; 2%float] = zero.
Proof.
  split.
  - left. simpl. lia.
  - apply (proj1 calculateCorrelation_guards float Float64). left. simpl. lia.
Defined.

(** C3 as stated fails in the arithmetic of the program.  A constant
    series of 4.35 against 1, 2, 4 has a radicand that rounding makes
    negative, and the result is [NaN], not 0.  For 1e200, 1 against 1, 2
    the sum of squares overflows, the radicand is [NaN] and so is the
    result. *)
Lemma calculateCorrelation_constant_series_nan :
  (forall v, In v [4.35%float; 4.35%float; 4.35%float] -> v = 4.35%float)
  /\ nltb (corr_radicand (A:=Float64)
             [4.35%float; 4.35%float; 4.35%float] [1%float; 2%float; 4%float]) zero = true
  /\ isNaN (calculateCorrelation (A:=Float64)
              [4.35%float; 4.35%float; 4.35%float] [1%float; 2%float; 4%float]) = true
  /\ neqb (calculateCorrelation (A:=Float64)
             [4.35%float; 4.35%float; 4.35%float] [1%float; 2%float; 4%float]) zero = false
  /\ sumSquares (A:=Float64) [1e200%float; 1%float] = infinity
  /\ isNaN (calculateCorrelation (A:=Float64)
              [1e200%float; 1%float] [1%float; 2%float]) = true.
Proof.
  split; [|repeat split; vm_compute; reflexivity].
  intros v [H | [H | [H | []]]]; now subst.
Qed.

(** ** C4: the column classifier *)

(** C4, as amended.  On a sheet none of whose headers is a name that
    [Object.prototype] answers, a column named in row 0 is classified
    Numeric if and only if, among the first 50 rows, at least one value
    is present (not absent, null or the empty string) and every present
    value converts to a number other than [NaN]; otherwise it is
    Categorical.  An infinite value counts as a number. *)
Theorem classify_numeric_iff {num : Type} {A : Arith num} {RT : Runtime num}
    (json : dataset num) (header : string) :
  plain_names (headers_of json) = true ->
  In header (headers_of json) ->
  (hasOwnProperty (fst (classify json (headers_of json))) header = true
   <-> (exists r, In r (firstn 50 json) /\ is_present (field r header) = true)
       /\ (forall r, In r (firstn 50 json) -> is_present (field r header) = true ->
                     isNaN (Number (field r header)) = false))
  /\ hasOwnProperty (snd (classify json (headers_of json))) header
     = negb (hasOwnProperty (fst (classify json (headers_of json))) header).
Proof.
  intros _ Hin. apply mem_In in Hin.
  unfold hasOwnProperty.
  rewrite classify_numeric, classify_categorical, Hin.
  rewrite <- is_numeric_column_spec.
  destruct (is_numeric_column json header); simpl; split; try reflexivity;
    split; congruence.
Qed.

Lemma classify_numeric_iff_witness :
  plain_names (headers_of sales_by_region) = true
  /\ In "amount"%string (headers_of sales_by_region)
  /\ hasOwnProperty (snd (classify (RT:=Float64Runtime) sales_by_region
                            (headers_of sales_by_region))) "amount"
     = negb (hasOwnProperty (fst (classify (RT:=Float64Runtime) sales_by_region
                                    (headers_of sales_by_region))) "amount").
Proof.
  assert (H : In "amount"%string (headers_of sales_by_region)).
  { right. now left. }
  split; [reflexivity | split; [exact H|]].
  apply (classify_numeric_iff (RT:=Float64Runtime) sales_by_region "amount" eq_refl H).
Defined.

(** C4 as stated fails on a column holding the text [Infinity]: the value
    is present and converts to a number that is not finite, and the column
    is classified Numeric. *)
Lemma classify_infinite_is_numeric :
  In "n"%string (headers_of infinite_text_column)
  /\ hasOwnProperty (fst (classify (RT:=Float64Runtime) infinite_text_column
                            (headers_of infinite_text_column))) "n" = true
  /\ (forall r, In r (firstn 50 infinite_text_column) ->
        is_present (field r "n") = true
        /\ PrimFloat.is_finite (Number (RT:=Float64Runtime) (field r "n")) = false).
Proof.
  split; [now left | split; [vm_compute; reflexivity|]].
  intros r [<- | []]. split; vm_compute; reflexivity.
Qed.

(** ** C5: the interquartile rule *)



(** ** C6: the categorical KPIs *)

(** C6, as amended.  On a sheet none of whose headers is a name that
    [Object.prototype] answers, for a column classified Categorical none
    of whose labels is such a name, the profiler holds one Categorical
    KPI.  Its labels are the cells of the column,
    row by row, where an absent, null or empty cell reads ["N/A"] and a
    truthy cell reads as its string.  The KPI has one entry per distinct
    label, with the number of its occurrences; the entries are sorted by
    descending count, entries of equal count staying in the order in
    which the counting object enumerates its keys (labels that are array
    indices first, in ascending numeric order, then the other labels in
    the order of their first occurrence); [topValues] are the first five
    and [uniqueCount] is the number of distinct labels. *)
Theorem categoricalKPI_frequencies {num : Type} {A : Arith num} {RT : Runtime num}
    (json : dataset num) (header : string) :
  plain_names (headers_of json) = true ->
  NoDup (headers_of json) -> In header (headers_of json) ->
  hasOwnProperty (snd (classify json (headers_of json))) header = true ->
  plain_names (column_labels json header) = true ->
  let labels := column_labels json header in
  let sorted := sorted_counts labels in
  let kpi := categoricalKPI (header, labels) in
  In kpi (categorical (profile json (headers_of json)))
  /\ (forall k, In k (categorical (profile json (headers_of json))) ->
                cat_column k = header -> k = kpi)
  /\ (forall r, In r json ->
        (is_missing (field r header) = true -> label_of (field r header) = "N/A"%string)
        /\ (truthy (field r header) = true ->
            label_of (field r header) = String_ (field r header)))
  /\ topValues kpi = map (fun '(n, c) => {| name := n; count := c |}) (firstn 5 sorted)
  /\ uniqueCount kpi = length (first_seen labels)
  /\ Permutation (map fst sorted) (first_seen labels)
  /\ (forall e, In e sorted -> snd e = count_occ string_dec labels (fst e))
  /\ StronglySorted (fun a b => (snd b <= snd a)%nat) sorted
  /\ (forall c,
        filter (fun e => (snd e =? c)%nat) sorted
        = filter (fun e => (snd e =? c)%nat)
            (map (fun v => (v, count_occ string_dec labels v))
                 (own_key_order (first_seen labels)))).
Proof.
  intros _ Hnd Hin Hcat _ labels sorted kpi.
  assert (Hnum : is_numeric_column json header = false).
  { unfold hasOwnProperty in Hcat. rewrite classify_categorical in Hcat.
    destruct (is_numeric_column json header); [|reflexivity].
    rewrite andb_false_r in Hcat. discriminate. }
  pose proof (profile_categorical_column json (headers_of json) header Hnd Hin Hnum) as Hget.
  repeat split.
  - rewrite profile_categorical. apply in_map. now apply entries_get.
  - intros k Hk Hcol. rewrite profile_categorical in Hk.
    apply in_map_iff in Hk. destruct Hk as [[h l] [<- He]].
    apply entries_In in He. destruct He as [_ Hl].
    simpl in Hcol. subst h. rewrite Hget in Hl. now injection Hl as <-.
  - apply label_of_missing.
  - apply label_of_truthy.
  - apply sorted_counts_length.
  - apply sorted_counts_perm.
  - apply sorted_counts_count.
  - apply sorted_counts_descending.
  - apply sorted_counts_stable.
Qed.

Lemma categoricalKPI_frequencies_witness :
  plain_names (headers_of codes_b_7_3) = true
  /\ NoDup (headers_of codes_b_7_3)
  /\ In "code"%string (headers_of codes_b_7_3)
  /\ hasOwnProperty (snd (classify (RT:=Float64Runtime) codes_b_7_3
                            (headers_of codes_b_7_3))) "code" = true
  /\ plain_names (column_labels (RT:=Float64Runtime) codes_b_7_3 "code") = true
  /\ In (categoricalKPI ("code"%string, column_labels (RT:=Float64Runtime) codes_b_7_3 "code"))
        (categorical (profile codes_b_7_3 (headers_of codes_b_7_3))).
Proof.
  assert (Hnd : NoDup (headers_of codes_b_7_3)).
  { repeat constructor. intros []. }
  assert (Hin : In "code"%string (headers_of codes_b_7_3)) by now left.
  assert (Hcat : hasOwnProperty (snd (classify (RT:=Float64Runtime) codes_b_7_3
                                        (headers_of codes_b_7_3))) "code" = true)
    by reflexivity.
  split; [reflexivity | split; [exact Hnd | split; [exact Hin | split; [exact Hcat|]]]].
  split; [reflexivity|].
  apply (categoricalKPI_frequencies (RT:=Float64Runtime) codes_b_7_3 "code"
           eq_refl Hnd Hin Hcat eq_refl).
Defined.

(** C6 as stated fails on the column b, 7, 3: every label occurs once, and
    the entries come out as 3, 7, b, not in the order of first occurrence
    b, 7, 3. *)
Lemma categoricalKPI_ties_not_first_seen :
  column_labels (RT:=Float64Runtime) codes_b_7_3 "code" = ["b"; "7"; "3"]%string
  /\ categorical (processData_v2 (RT:=Float64Runtime) codes_b_7_3)
     = [ {| cat_column := "code";
            topValues := [ {| name := "3"; count := 1 |};
                           {| name := "7"; count := 1 |};
                           {| name := "b"; count := 1 |} ];
            uniqueCount := 3 |} ]
  /\ (exists analytics,
        snd (processData (RT:=Float64Runtime) codes_b_7_3) = Some analytics
        /\ categorical analytics = categorical (processData_v2 codes_b_7_3)).
Proof.
  split; [reflexivity | split; [vm_compute; reflexivity|]].
  eexists. split; vm_compute; reflexivity.
Qed.

(** ** C7: profiling twice *)



(** ** C8: the correlation of a series with itself *)

(** C8, as amended.  In exact arithmetic the correlation of a series with
    itself is 1 whenever the series is not empty and not constant. *)
Theorem calculateCorrelation_self (x : list R) :
  x <> [] -> (exists u v, In u x /\ In v x /\ u <> v) ->
  calculateCorrelation (A:=Exact) x x = 1%R.
Proof. intros _. apply calculateCorrelation_self_exact. Qed.

Lemma calculateCorrelation_self_witness :
  [0%R; 1%R] <> []
  /\ (exists u v, In u [0%R; 1%R] /\ In v [0%R; 1%R] /\ u <> v)
  /\ calculateCorrelation (A:=Exact) [0%R; 1%R] [0%R; 1%R] = 1%R.
Proof.
  assert (Hnc : exists u v, In u [0%R; 1%R] /\ In v [0%R; 1%R] /\ u <> v).
  { exists 0%R, 1%R. repeat split; [now left | right; now left | lra]. }
  split; [discriminate | split; [exact Hnc|]].
  apply calculateCorrelation_self; [discriminate | exact Hnc].
Defined.

(** C8 as stated fails in the arithmetic of the program: for the series
    100000000, 100000001 the two terms of [n * sumX2 - sumX ** 2] round to
    the same double, 40000000400000000, the denominator is 0 and the
    result is 0.  For 1e200, 0 the sum of squares overflows and the result
    is [NaN]. *)
Lemma calculateCorrelation_self_cancels :
  neqb 100000000%float 100000001%float = false
  /\ nmul (of_nat 2) (sumSquares (A:=Float64) [100000000%float; 100000001%float])
     = 40000000400000000%float
  /\ nmul (sum (A:=Float64) [100000000%float; 100000001%float])
          (sum (A:=Float64) [100000000%float; 100000001%float])
     = 40000000400000000%float
  /\ calculateCorrelation (A:=Float64) [100000000%float; 100000001%float]
       [100000000%float; 100000001%float] = 0%float
  /\ neqb (calculateCorrelation (A:=Float64) [100000000%float; 100000001%float]
             [100000000%float; 100000001%float]) 1%float = false
  /\ isNaN (calculateCorrelation (A:=Float64) [1e200%float; 0%float]
              [1e200%float; 0%float]) = true.
Proof. repeat split; vm_compute; reflexivity. Qed.

(** ** C9: the two pivot engines *)

(** C9, as amended.  The two engines return the same row keys, column
    keys and grid on every dataset in which each row's field in every real
    dimension is truthy (present, and not the empty string, 0, [NaN] or
    [false]). *)
Theorem performPivot_variants_agree
    {num : Type} {A : Arith num} {RT : Runtime num}
    (data : list (row num)) (rowDim colDim valDim func : string) :
  Forall (dimensions_truthy rowDim colDim) data ->
  performPivot data rowDim colDim valDim func
  = performPivot_v2 data rowDim colDim valDim func.
Proof.
  intros H. unfold performPivot, performPivot_v2.
  now rewrite (pivot_fold_agree rowDim colDim valDim func data pivot_init H).
Qed.

Lemma performPivot_variants_agree_witness :
  Forall (dimensions_truthy "region" "None") sales_by_region
  /\ performPivot (RT:=Float64Runtime) sales_by_region "region" "None" "amount" "Sum"
     = performPivot_v2 sales_by_region "region" "None" "amount" "Sum".
Proof.
  assert (H : Forall (dimensions_truthy (A:=Float64) "region" "None") sales_by_region).
  { repeat constructor; right; reflexivity. }
  split; [exact H|].
  now apply performPivot_variants_agree.
Defined.

(** C9 as stated fails on a row without a value in the row dimension: the
    first engine returns no keys, the second the key ["Unknown"]. *)
Lemma performPivot_variants_differ :
  performPivot (RT:=Float64Runtime) [sale_without_region] "region" "None" "amount" "Sum"
  <> performPivot_v2 [sale_without_region] "region" "None" "amount" "Sum".
Proof.
  intros H. apply (f_equal rowKeys) in H. vm_compute in H. discriminate.
Qed.

(** ** C10: the diagonal of the correlation matrix *)

(** C10, as amended.  Every diagonal cell of the correlation matrix is 1,
    whatever the series of its KPI; the correlation function is not
    consulted for it: on an empty series it returns 0, and so it does, in
    exact arithmetic, on a constant one. *)
Theorem correlationMatrix_diagonal :
  (forall (num : Type) (A : Arith num) (numericKPIs : list (@NumericKPI num))
          (i : nat) (k : @NumericKPI num),
      nth_error numericKPIs i = Some k ->
      exists cells,
        nth_error (snd (correlationMatrix numericKPIs)) i = Some cells
        /\ nth_error cells i = Some one)
  /\ (forall (num : Type) (A : Arith num) (y : list num),
        calculateCorrelation [] y = zero)
  /\ (forall (c : R) (n : nat),
        calculateCorrelation (A:=Exact) (repeat c n) (repeat c n) = 0%R).
Proof.
  split; [|split].
  - intros num A kpis i k Hk. unfold correlationMatrix, correlationGrid. simpl.
    assert (Hcol : nth_error (map column kpis) i = Some (column k)).
    { now rewrite nth_error_map, Hk. }
    eexists. split.
    + apply (mapi_nth_error _ _ _ _ Hcol).
    + rewrite (mapi_nth_error _ _ _ _ Hcol). now rewrite Nat.eqb_refl.
  - intros num A y. apply calculateCorrelation_empty.
  - intros c n. apply (calculateCorrelation_constant_exact c). left.
    intros v Hv. now apply repeat_spec in Hv.
Qed.

Lemma correlationMatrix_diagonal_witness :
  nth_error [constant_kpi] 0 = Some constant_kpi
  /\ (exists cells,
        nth_error (snd (correlationMatrix [constant_kpi])) 0 = Some cells
        /\ nth_error cells 0 = Some (one (A:=Float64)))
  /\ calculateCorrelation (A:=Float64) (rawData constant_kpi) (rawData constant_kpi)
     = 0%float.
Proof.
  split; [reflexivity | split].
  - apply (proj1 correlationMatrix_diagonal float Float64 [constant_kpi] 0%nat constant_kpi).
    reflexivity.
  - reflexivity.
Defined.

(** C10 as stated fails in the arithmetic of the program: the
    correlation of the constant series 4.35, 4.35, 4.35 with itself is not
    the 0 the claim takes it to be but -1 (the diagonal cell is 1 all the
    same). *)
Lemma calculateCorrelation_constant_self_not_zero :
  rawData constant_rate_kpi = repeat 4.35%float 3
  /\ calculateCorrelation (A:=Float64) (rawData constant_rate_kpi) (rawData constant_rate_kpi)
     = (-1)%float
  /\ neqb (calculateCorrelation (A:=Float64) (rawData constant_rate_kpi)
             (rawData constant_rate_kpi)) zero = false
  /\ matrix_cell (correlationGrid [constant_rate_kpi]) 0 0 = Some 1%float.
Proof. repeat split; vm_compute; reflexivity. Qed.

(* ================================================================== *)
(** * 39. Further properties of the application *)
(* ================================================================== *)

(** ** Worked examples *)

(** The pivot of three sales rows by region under [Sum]: the row keys
    A and B, the single column key Total, and the sums 30 and 5. *)
Example performPivot_sum_by_region :
  performPivot (RT:=Float64Runtime) sales_by_region "region" "None" "amount" "Sum"
  = {| rowKeys := [VStr "A"; VStr "B"];
       colKeys := [VStr "Total"];
       grid := [ ("A"%string, [("Total"%string, 30%float)]);
                 ("B"%string, [("Total"%string, 5%float)]) ] |}.
Proof. vm_compute. reflexivity. Qed.

(** The trend of 1, 2, 3, 4, 5 has slope 1, is increasing and
    forecasts 6; the trend of 5, 5, 5, 5 is stable and forecasts 5. *)
Example calculateTrend_examples :
  calculateTrend (A:=Float64) [1%float; 2%float; 3%float; 4%float; 5%float]
  = {| slope := 1%float; intercept := Some 1%float; nextVal := 6%float;
       trend := None; trendDirection := Some "increasing"%string |}
  /\ calculateTrend (A:=Float64) [5%float; 5%float; 5%float; 5%float]
     = {| slope := 0%float; intercept := Some 5%float; nextVal := 5%float;
          trend := None; trendDirection := Some "stable"%string |}.
Proof. split; vm_compute; reflexivity. Qed.

(** A sample of 50 values of which 45 lie strictly between 32000 and
    75000 is taken for a date column; one with 10 such values is not. *)
Example isLikelyDate_examples :
  isLikelyDate (A:=Float64) (repeat (VNum 45000%float) 45 ++ repeat (VStr "n/a") 5) = true
  /\ isLikelyDate (A:=Float64) (repeat (VNum 45000%float) 10 ++ repeat (VNum 5%float) 40)
     = false.
Proof. split; vm_compute; reflexivity. Qed.

(** ** MathEngine: median, deviation, correlation and trend *)

(** X1.  In exact arithmetic [calculateMedian] splits the values in two
    halves: at least half of them are at most the median, and at least
    half of them are at least the median. *)
Theorem calculateMedian_splits (values : list R) :
  values <> [] ->
  (length values <= 2 * count_at_most (calculateMedian (A:=Exact) values) values)%nat
  /\ (length values <= 2 * count_at_least (calculateMedian (A:=Exact) values) values)%nat.
Proof.
  intros Hne.
  set (s := sort_numeric (A:=Exact) values).
  assert (Hs : StronglySorted Rle s) by apply sort_numeric_sorted.
  assert (Hp : Permutation s values) by apply sort_numeric_perm.
  assert (Hn : length s = length values) by apply (Permutation_length Hp).
  assert (Hpos : (0 < length values)%nat).
  { destruct values; [contradiction | simpl; lia]. }
  set (m := calculateMedian (A:=Exact) values).
  set (h := (length s / 2)%nat).
  assert (Hm : (nth (h - (1 - length s mod 2)) s 0 <= m <= nth h s 0)%R).
  { unfold m, calculateMedian. fold s. fold h.
    destruct (length values =? 0)%nat eqn:E; [apply Nat.eqb_eq in E; lia|].
    unfold at_. rewrite zero_exact.
    pose proof (Nat.mod_upper_bound (length s) 2) as Hmod.
    destruct (length s mod 2 =? 0)%nat eqn:Eo; cbn [negb].
    - apply Nat.eqb_eq in Eo. rewrite Eo. cbn [nadd ndiv nint Exact].
      assert (Hle : (nth (h - 1) s 0 <= nth h s 0)%R).
      { apply sorted_nth_le; trivial. unfold h. pose proof (Nat.div_mod_eq (length s) 2). lia. }
      replace (h - (1 - 0))%nat with (h - 1)%nat by lia. lra.
    - apply Nat.eqb_neq in Eo. replace (h - (1 - length s mod 2))%nat with h by lia. lra. }
  pose proof (Nat.div_mod_eq (length s) 2) as Hdiv. fold h in Hdiv.
  pose proof (Nat.mod_upper_bound (length s) 2) as Hmod.
  assert (Hh : (h < length s)%nat) by (unfold h in *; lia).
  split.
  - unfold count_at_most.
    rewrite <- (Permutation_length (filter_perm (fun v => Rleb v m) s values Hp)), <- Hn.
    set (j := (h - (1 - length s mod 2) + 1)%nat).
    assert (Hj : (j <= length (filter (fun v => Rleb v m) s))%nat).
    { apply filter_length_prefix; [|unfold j; lia].
      intros a Ha. apply In_firstn_nth in Ha. destruct Ha as [i [Hi [Hi' <-]]].
      apply Rleb_true. apply Rle_trans with (nth (h - (1 - length s mod 2)) s 0%R);
        [|apply Hm].
      apply sorted_nth_le; trivial. unfold j in Hi. lia. }
    unfold j in Hj. lia.
  - unfold count_at_least.
    rewrite <- (Permutation_length (filter_perm (fun v => Rleb m v) s values Hp)), <- Hn.
    assert (Hj : (length s - h <= length (filter (fun v => Rleb m v) s))%nat).
    { apply filter_length_suffix.
      intros a Ha. apply In_skipn_nth in Ha. destruct Ha as [i [Hi <-]].
      apply Rleb_true. apply Rle_trans with (nth h s 0%R); [apply Hm|].
      apply sorted_nth_le; trivial. }
    lia.
Qed.

Lemma calculateMedian_splits_witness :
  (length [3; 1; 2; 8]%R
   <= 2 * count_at_most (calculateMedian (A:=Exact) [3; 1; 2; 8]%R) [3; 1; 2; 8]%R)%nat.
Proof.
  apply (calculateMedian_splits [3; 1; 2; 8]%R). discriminate.
Defined.

(** X2.  In exact arithmetic the median and the anomalies do not depend
    on the order of the values: rearranged values have the same median
    and the same anomalies, rearranged alike. *)
Theorem median_and_anomalies_order_free (values values' : list R) :
  Permutation values values' ->
  calculateMedian (A:=Exact) values = calculateMedian (A:=Exact) values'
  /\ Permutation (detectAnomalies (A:=Exact) values) (detectAnomalies (A:=Exact) values').
Proof.
  intros Hp. pose proof (sort_numeric_perm_eq values values' Hp) as Hs.
  pose proof (Permutation_length Hp) as Hl. split.
  - unfold calculateMedian. now rewrite Hs, Hl.
  - unfold detectAnomalies. rewrite Hs, Hl.
    destruct (length values' <? 4)%nat; [constructor|]. now apply filter_perm.
Qed.

Lemma median_and_anomalies_order_free_witness :
  calculateMedian (A:=Exact) [3; 1; 2]%R = calculateMedian (A:=Exact) [1; 2; 3]%R.
Proof.
  apply (median_and_anomalies_order_free [3; 1; 2]%R [1; 2; 3]%R).
  apply perm_trans with [1; 3; 2]%R.
  - apply perm_swap.
  - apply perm_skip, perm_swap.
Defined.

(** X3.  In exact arithmetic the standard deviation is not negative, and
    it is 0 exactly when every value equals the average it is taken
    around. *)
Theorem calculateStdDev_zero_iff (values : list R) (avg : R) :
  (0 <= calculateStdDev (A:=Exact) values avg)%R
  /\ (calculateStdDev (A:=Exact) values avg = 0%R <-> forall v, In v values -> v = avg).
Proof.
  unfold calculateStdDev. destruct (length values =? 0)%nat eqn:E.
  - apply Nat.eqb_eq, length_zero_iff_nil in E. subst. rewrite zero_exact.
    split; [lra|]. split; [intros _ v [] | reflexivity].
  - apply Nat.eqb_neq in E. unfold reduce. rewrite zero_exact, squares_dev.
    rewrite length_map, of_nat_exact. cbn [nsqrt ndiv Exact].
    assert (Hn : (0 < INR (length values))%R) by (apply lt_0_INR; lia).
    pose proof (dev2_nonneg avg values) as Hd.
    assert (Hq : (0 <= dev2 avg values / INR (length values))%R).
    { apply Rmult_le_pos; [exact Hd|]. left. now apply Rinv_0_lt_compat. }
    split; [apply sqrt_pos|]. split.
    + intros Hs v Hv. apply sqrt_eq_0 in Hs; [|exact Hq].
      destruct (Req_dec v avg) as [|Hne]; [assumption|]. exfalso.
      assert (Hp : (0 < dev2 avg values)%R) by (apply dev2_pos; now exists v).
      assert (Hz : (dev2 avg values = 0)%R).
      { apply (Rmult_eq_reg_r (/ INR (length values))).
        - unfold Rdiv in Hs. rewrite Hs. lra.
        - apply Rinv_neq_0_compat. lra. }
      lra.
    + intros Hall. rewrite (dev2_constant avg values Hall).
      unfold Rdiv. rewrite Rmult_0_l. apply sqrt_0.
Qed.

(** X4.  In exact arithmetic the correlation coefficient lies between -1
    and 1, whatever the two series. *)
Theorem calculateCorrelation_bounded (x y : list R) :
  (-1 <= calculateCorrelation (A:=Exact) x y <= 1)%R.
Proof.
  destruct (Nat.eq_dec (length x) (length y)) as [Hl|Hl].
  2: { rewrite calculateCorrelation_mismatch by exact Hl. rewrite zero_exact. lra. }
  destruct x as [|a x].
  { rewrite calculateCorrelation_empty, zero_exact. lra. }
  destruct (neqb (corr_denominator (A:=Exact) (a :: x) y) zero) eqn:E.
  { rewrite calculateCorrelation_zero_denominator by exact E. rewrite zero_exact. lra. }
  rewrite calculateCorrelation_regular; trivial; [|discriminate].
  apply Reqb_false in E. rewrite zero_exact in E.
  pose proof (corr_radicand_nonneg (a :: x) y) as Hrad.
  pose proof (corr_numerator_square_le (a :: x) y Hl) as Hnum.
  specialize (Hnum ltac:(discriminate)).
  unfold corr_denominator in *. cbn [nsqrt ndiv Exact] in *.
  set (N := corr_numerator (A:=Exact) (a :: x) y) in *.
  set (D := sqrt (corr_radicand (A:=Exact) (a :: x) y)) in *.
  assert (HD : (0 <= D)%R) by apply sqrt_pos.
  assert (HDD : (D * D = corr_radicand (A:=Exact) (a :: x) y)%R) by (apply sqrt_sqrt; exact Hrad).
  assert (Hpos : (0 < D)%R) by lra.
  rewrite <- HDD in Hnum.
  assert (Hb : (- D <= N <= D)%R) by (split; nra).
  split.
  - apply (Rmult_le_reg_r D); trivial. unfold Rdiv. rewrite Rmult_assoc, Rinv_l by lra. lra.
  - apply (Rmult_le_reg_r D); trivial. unfold Rdiv. rewrite Rmult_assoc, Rinv_l by lra. lra.
Qed.

(** X5.  In an arithmetic whose product does not depend on the order of
    its factors, as that of doubles, the correlation of two series does
    not depend on their order, and the correlation matrix is symmetric. *)
Theorem correlationMatrix_symmetric {num : Type} {A : Arith num} :
  (forall a b : num, nmul a b = nmul b a) ->
  (forall x y : list num, calculateCorrelation x y = calculateCorrelation y x)
  /\ (forall (numericKPIs : list (@NumericKPI num)) (i j : nat),
        matrix_cell (correlationGrid numericKPIs) i j
        = matrix_cell (correlationGrid numericKPIs) j i).
Proof.
  intros Hmul. split; [apply (calculateCorrelation_comm Hmul)|].
  intros kpis i j. unfold matrix_cell, correlationGrid.
  rewrite !mapi_nth_error_eq.
  destruct (nth_error (map column kpis) i) as [ci|] eqn:Ei;
    destruct (nth_error (map column kpis) j) as [cj|] eqn:Ej;
    rewrite ?mapi_nth_error_eq, ?Ei, ?Ej; trivial.
  rewrite Nat.eqb_sym. destruct (j =? i)%nat; [reflexivity|].
  f_equal. apply (calculateCorrelation_comm Hmul).
Qed.

Lemma correlationMatrix_symmetric_witness :
  calculateCorrelation (A:=Float64) [1%float; 2%float; 4%float] [3%float; 1%float; 2%float]
  = calculateCorrelation (A:=Float64) [3%float; 1%float; 2%float] [1%float; 2%float; 4%float].
Proof.
  apply (proj1 (correlationMatrix_symmetric (A:=Float64) Float64_mul_comm)).
Defined.

(** X6.  In exact arithmetic [calculateTrend] recovers a line: for the
    values [a * i + b] at the indices 0 to [n - 1], with [n] at least 2,
    the slope is [a], the intercept is [b] and the forecast is the next
    value of the line, [a * n + b]. *)
Theorem calculateTrend_recovers_line (a b : R) (n : nat) :
  (2 <= n)%nat ->
  slope (calculateTrend (A:=Exact) (line_values a b n)) = a
  /\ intercept (calculateTrend (A:=Exact) (line_values a b n)) = Some b
  /\ nextVal (calculateTrend (A:=Exact) (line_values a b n)) = (a * INR n + b)%R.
Proof.
  intros Hn.
  assert (Hlen : length (line_values a b n) = n).
  { unfold line_values. now rewrite length_map, length_seq. }
  assert (Hn' : (2 <= length (line_values a b n))%nat) by now rewrite Hlen.
  pose proof (trend_denominator_pos _ Hn') as HD.
  rewrite (calculateTrend_exact _ Hn'). cbn [slope intercept nextVal].
  rewrite trend_denominator_exact in *. rewrite Hlen in *.
  rewrite trend_indices_exact, sumProducts_exact
    by (unfold line_values; now rewrite !length_map).
  unfold line_values in *. rewrite Rdot_line, Rsum_line, length_seq in *.
  set (X := Rsum (map INR (seq 0 n))) in *.
  set (Q := Rsum (squares (map INR (seq 0 n)))) in *.
  assert (Hpos : (0 < INR n)%R) by (apply lt_0_INR; lia).
  assert (Hs : ((INR n * (a * Q + b * X) - X * (a * X + INR n * b)) / (INR n * Q - X * X)
                = a)%R).
  { field. lra. }
  rewrite Hs. repeat split.
  - f_equal. field. lra.
  - field. lra.
Qed.

Lemma calculateTrend_recovers_line_witness :
  slope (calculateTrend (A:=Exact) (line_values 3 1 4)) = 3%R.
Proof.
  apply (calculateTrend_recovers_line 3 1 4). lia.
Defined.

(** ** MathEngine and AIInsightsView: the insights *)

(** X7.  For a series of fewer than two values [generateInsights] reports
    a trend all the same: [calculateTrend] returns its label under the key
    [trend], [generateInsights] reads [trendDirection], finds it
    undefined, and so emits the trend insight with the direction
    "undefined", followed by the forecast 0.  Both variants do. *)
Theorem generateInsights_short_series
    {num : Type} {A : Arith num} {FM : Format num}
    (colName : string) (values : list num) :
  (length values < 2)%nat ->
  (exists t p,
     Insights.insights (generateInsights colName values) = [t; p]
     /\ Insights.type t = "trend"%string
     /\ Insights.text t
        = String.append colName " shows a statistically significant undefined trend."
     /\ Insights.type p = "prediction"%string
     /\ Insights.text p
        = String.append "Forecasted next value: " (String.append (toFixed2 zero) "."))
  /\ (exists t p,
        Insights.insights (generateInsights_v2 colName values) = [t; p]
        /\ Insights.type t = "trend"%string
        /\ Insights.text t
           = String.append colName
               " shows a statistically significant undefined trend over the dataset order."
        /\ Insights.type p = "prediction"%string)
  /\ Insights.anomalies (generateInsights colName values) = []
  /\ Insights.nextVal (generateInsights colName values) = zero.
Proof.
  intros Hn.
  assert (Ha : detectAnomalies values = []) by (apply detectAnomalies_short; lia).
  unfold generateInsights, generateInsights_v2, insights_with.
  rewrite (calculateTrend_short values Hn), Ha. cbn.
  repeat split; eexists; eexists; repeat split.
Qed.

Lemma generateInsights_short_series_witness :
  Insights.insights (generateInsights (A:=Float64) "Sales" [5%float])
  = [ {| Insights.type := "trend";
         Insights.text := "Sales shows a statistically significant undefined trend.";
         Insights.score := "high" |};
      {| Insights.type := "prediction";
         Insights.text := "Forecasted next value: 0.00.";
         Insights.score := "medium" |} ].
Proof.
  destruct (generateInsights_short_series (A:=Float64) "Sales" [5%float])
    as [[t [p [H _]]] _].
  - simpl. lia.
  - reflexivity.
Defined.

(** X8.  In exact arithmetic, for a series of two or more values, the
    trend insight is emitted exactly when the slope of the regression line
    is above 0.05 or below -0.05. *)
Theorem trend_insight_iff_slope {FM : Format R} (colName : string) (values : list R) :
  (2 <= length values)%nat ->
  existsb (fun i => String.eqb (Insights.type i) "trend")
          (Insights.insights (generateInsights (A:=Exact) colName values))
  = Rltb (5 / 100) (Insights.slope (generateInsights (A:=Exact) colName values))
    || Rltb (Insights.slope (generateInsights (A:=Exact) colName values)) (- (5 / 100)).
Proof.
  intros Hn. unfold generateInsights, insights_with.
  rewrite (calculateTrend_exact values Hn).
  cbn [trendDirection slope nextVal Insights.insights Insights.slope].
  set (s := ((INR (length values)
              * sumProducts (A:=Exact) (trend_indices (length values)) values
              - Rsum (map INR (seq 0 (length values))) * Rsum values)
             / trend_denominator (A:=Exact) values)%R).
  replace (0 - 5 / 100)%R with (- (5 / 100))%R by lra.
  destruct (Rltb (5 / 100) s) eqn:E1; [|destruct (Rltb s (- (5 / 100))) eqn:E2];
    cbn [not_stable String.eqb negb app];
    destruct (0 <? length (detectAnomalies (A:=Exact) values))%nat; reflexivity.
Qed.

Lemma trend_insight_iff_slope_witness :
  existsb (fun i => String.eqb (Insights.type i) "trend")
          (Insights.insights (generateInsights (A:=Exact) (FM:=blank_format) "Sales" [1%R; 3%R]))
  = Rltb (5 / 100)
      (Insights.slope (generateInsights (A:=Exact) (FM:=blank_format) "Sales" [1%R; 3%R]))
    || Rltb (Insights.slope (generateInsights (A:=Exact) (FM:=blank_format)
                               "Sales" [1%R; 3%R]))
            (- (5 / 100)).
Proof.
  apply (trend_insight_iff_slope (FM:=blank_format) "Sales" [1%R; 3%R]).
  simpl. lia.
Defined.

(** X9.  The insights of the view are empty only when there is no numeric
    column: with a target KPI the forecast is always among them, so the
    line "No significant trends or anomalies detected." is shown for no
    series. *)
Theorem analysis_insights_never_empty
    {num : Type} {A : Arith num} {FM : Format num}
    (numericKPIs : list (@NumericKPI num)) (selectedKPI : string) :
  Insights.insights
    (AIInsightsView.analysis (AIInsightsView.targetKPI numericKPIs selectedKPI)) = []
  <-> numericKPIs = [].
Proof.
  unfold AIInsightsView.targetKPI. split.
  - destruct (find (fun k => String.eqb (column k) selectedKPI) numericKPIs) as [k|] eqn:E.
    + intros H. cbn [AIInsightsView.analysis] in H.
      pose proof (insights_with_nonempty
                    (trend_insight " shows a statistically significant " " trend.")
                    (prediction_insight "Forecasted next value: " ".")
                    (anomaly_insight "Detected " " outliers in the data distribution.")
                    (column k) (rawData k)) as Hin.
      unfold generateInsights in H. rewrite H in Hin. destruct Hin.
    + destruct numericKPIs as [|k ks]; [reflexivity|]. intros H.
      cbn [hd_error AIInsightsView.analysis] in H.
      pose proof (insights_with_nonempty
                    (trend_insight " shows a statistically significant " " trend.")
                    (prediction_insight "Forecasted next value: " ".")
                    (anomaly_insight "Detected " " outliers in the data distribution.")
                    (column k) (rawData k)) as Hin.
      unfold generateInsights in H. rewrite H in Hin. destruct Hin.
  - intros ->. reflexivity.
Qed.

(** X10.  The dashed trend line of the forecast chart is not the
    regression line the forecast is taken from: in exact arithmetic, for a
    KPI whose average is the mean of its series of two or more values,
    the trend line lies half a slope below the line
    [slope * i + intercept] at every index. *)
Theorem trendLine_half_slope_below (k : @NumericKPI R) (i : nat) :
  (2 <= length (rawData k))%nat ->
  avg k = (Rsum (rawData k) / INR (length (rawData k)))%R ->
  (i < length (rawData k))%nat ->
  exists b,
    intercept (calculateTrend (A:=Exact) (rawData k)) = Some b
    /\ nth_error (AIInsightsView.trendLine (A:=Exact) k
                    (slope (calculateTrend (A:=Exact) (rawData k)))) i
       = Some (slope (calculateTrend (A:=Exact) (rawData k)) * INR i + b
               - slope (calculateTrend (A:=Exact) (rawData k)) / 2)%R.
Proof.
  intros Hn Havg Hi. rewrite (calculateTrend_exact (rawData k) Hn).
  cbn [slope intercept]. eexists. split; [reflexivity|].
  set (s := ((INR (length (rawData k))
              * sumProducts (A:=Exact) (trend_indices (length (rawData k))) (rawData k)
              - Rsum (map INR (seq 0 (length (rawData k)))) * Rsum (rawData k))
             / trend_denominator (A:=Exact) (rawData k))%R).
  unfold AIInsightsView.trendLine.
  destruct (nth_error (rawData k) i) as [y|] eqn:Ey;
    [|apply nth_error_None in Ey; lia].
  rewrite (mapi_nth_error _ _ _ _ Ey). f_equal.
  rewrite !of_nat_exact, Havg. cbn [nadd nsub nmul ndiv nint Exact].
  pose proof (Rsum_indices (length (rawData k))) as HX.
  assert (Hpos : (0 < INR (length (rawData k)))%R) by (apply lt_0_INR; lia).
  set (n := INR (length (rawData k))) in *.
  set (X := Rsum (map INR (seq 0 (length (rawData k))))) in *.
  replace X with (n * (n - 1) / 2)%R by lra.
  field. lra.
Qed.

Lemma trendLine_half_slope_below_witness :
  exists b,
    intercept (calculateTrend (A:=Exact) (rawData rising_kpi)) = Some b
    /\ nth_error (AIInsightsView.trendLine (A:=Exact) rising_kpi
                    (slope (calculateTrend (A:=Exact) (rawData rising_kpi)))) 0
       = Some (slope (calculateTrend (A:=Exact) (rawData rising_kpi)) * INR 0 + b
               - slope (calculateTrend (A:=Exact) (rawData rising_kpi)) / 2)%R.
Proof.
  apply (trendLine_half_slope_below rising_kpi 0).
  - simpl. lia.
  - simpl. lra.
  - simpl. lia.
Defined.

(** ** MathEngine: the pivot *)

(** X11.  Under every aggregation other than [Count] the buckets the pivot
    aggregates hold numbers only: a reading that is not a number is left
    out, not coerced. *)
Theorem performPivot_excludes_non_numbers
    {num : Type} {A : Arith num} {RT : Runtime num}
    (data : list (row num)) (rowDim colDim valDim func : string) :
  func <> "Count"%string ->
  buckets_numeric
    (valuesMap (fold_left (pivot_step rowDim colDim valDim func) data pivot_init))
  /\ buckets_numeric
       (valuesMap (fold_left (pivot_step_v2 rowDim colDim valDim func) data pivot_init)).
Proof.
  intros H. apply pivot_buckets_numeric. now apply String.eqb_neq.
Qed.

Lemma performPivot_excludes_non_numbers_witness :
  ("Sum" <> "Count")%string
  /\ buckets_numeric
       (valuesMap (fold_left (pivot_step (RT:=Float64Runtime) "region" "None" "amount" "Sum")
                             sales_by_region pivot_init)).
Proof.
  split; [discriminate|].
  apply (performPivot_excludes_non_numbers (RT:=Float64Runtime)
           sales_by_region "region" "None" "amount" "Sum").
  discriminate.
Defined.

(** X12.  Every cell of the pivot is there and holds the aggregate of its
    rows.  Where no dimension and no key text of the result is a name of
    [Object.prototype]: for each row key and each column key of the
    result, the grid has an entry under their texts, and it is the
    aggregate, rounded to two decimals, of the readings of the rows filed
    under these texts (all of them under Count, the numbers among them
    otherwise), in the order of the rows.  So it is in both variants, each
    with its own filing of the rows. *)
Theorem performPivot_cell
    {num : Type} {A : Arith num} {RT : Runtime num}
    (data : list (row num)) (rowDim colDim valDim func : string)
    (rKey cKey : value num) :
  (plain_pivot rowDim colDim (performPivot data rowDim colDim valDim func) = true ->
   In rKey (rowKeys (performPivot data rowDim colDim valDim func)) ->
   In cKey (colKeys (performPivot data rowDim colDim valDim func)) ->
   exists g,
     get (grid (performPivot data rowDim colDim valDim func)) (String_ rKey) = Some g
     /\ get g (String_ cKey)
        = Some (round2 (aggregate func
                  (cell_values (pivot_keys rowDim colDim) valDim func
                               (String_ rKey) (String_ cKey) data))))
  /\ (plain_pivot rowDim colDim (performPivot_v2 data rowDim colDim valDim func) = true ->
      In rKey (rowKeys (performPivot_v2 data rowDim colDim valDim func)) ->
      In cKey (colKeys (performPivot_v2 data rowDim colDim valDim func)) ->
      exists g,
        get (grid (performPivot_v2 data rowDim colDim valDim func)) (String_ rKey) = Some g
        /\ get g (String_ cKey)
           = Some (round2 (aggregate func
                     (cell_values (pivot_keys_v2 rowDim colDim) valDim func
                                  (String_ rKey) (String_ cKey) data)))).
Proof.
  unfold performPivot, performPivot_v2. split; intros _ Hr Hc;
    destruct (pivot_result_cell func _ rKey cKey Hr Hc) as [g [Hg Hcell]];
    exists g; (split; [exact Hg|]); rewrite Hcell, bucket_of_at.
  - now rewrite (pivot_fold_bucket (pivot_keys rowDim colDim)
                   (pivot_step rowDim colDim valDim func) valDim func
                   (pivot_step_keys rowDim colDim valDim func)).
  - now rewrite (pivot_fold_bucket (pivot_keys_v2 rowDim colDim)
                   (pivot_step_v2 rowDim colDim valDim func) valDim func
                   (pivot_step_v2_keys rowDim colDim valDim func)).
Qed.

Lemma performPivot_cell_witness :
  plain_pivot "region" "None"
    (performPivot (RT:=Float64Runtime) sales_by_region "region" "None" "amount" "Sum") = true
  /\ exists g,
       get (grid (performPivot (RT:=Float64Runtime) sales_by_region
                    "region" "None" "amount" "Sum"))
           "A" = Some g
       /\ get g "Total" = Some 30%float.
Proof.
  assert (Hplain : plain_pivot "region" "None"
                     (performPivot (RT:=Float64Runtime) sales_by_region
                        "region" "None" "amount" "Sum") = true)
    by (vm_compute; reflexivity).
  split; [exact Hplain|].
  destruct (proj1 (performPivot_cell (RT:=Float64Runtime) sales_by_region
                     "region" "None" "amount" "Sum" (VStr "A") (VStr "Total")))
    as [g [Hg Hc]].
  - exact Hplain.
  - left. reflexivity.
  - left. reflexivity.
  - exists g. split; [exact Hg|]. etransitivity; [exact Hc|]. vm_compute. reflexivity.
Defined.

(** X13.  The row keys of the pivot are the row-dimension values of the
    rows it does not skip, as a [Set] stores them (a zero as [+0]).
    Where no dimension and no key text of the result is a name of
    [Object.prototype]: each key is the stored value of such a row, each
    such row has its stored value among the keys (as a [Set] compares
    values), and the keys stand in the order of their texts.  The same
    holds of the column keys. *)
Theorem performPivot_keys
    {num : Type} {A : Arith num} {RT : Runtime num}
    (data : list (row num)) (rowDim colDim valDim func : string) :
  let res := performPivot data rowDim colDim valDim func in
  plain_pivot rowDim colDim res = true ->
  (forall k, In k (rowKeys res) ->
     exists r k' c, In r data /\ pivot_keys rowDim colDim r = Some (k', c)
                    /\ k = set_entry k')
  /\ (forall k, In k (colKeys res) ->
     exists r c k', In r data /\ pivot_keys rowDim colDim r = Some (c, k')
                    /\ k = set_entry k')
  /\ (forall r k c, In r data -> pivot_keys rowDim colDim r = Some (k, c) ->
        existsb (same_value_zero (set_entry k)) (rowKeys res) = true
        /\ existsb (same_value_zero (set_entry c)) (colKeys res) = true)
  /\ Sorted (in_order default_before) (rowKeys res)
  /\ Sorted (in_order default_before) (colKeys res).
Proof.
  intros res _. subst res. unfold performPivot. cbn [pivot_result rowKeys colKeys].
  pose proof (pivot_step_keys rowDim colDim valDim func) as Hstep.
  repeat split; try apply sort_default_sorted.
  - intros k Hk. apply (proj1 (sort_default_In _ _)) in Hk.
    apply (pivot_fold_rowKeys_In _ _ valDim func Hstep) in Hk.
    destruct Hk as [[]|Hk]. exact Hk.
  - intros k Hk. apply (proj1 (sort_default_In _ _)) in Hk.
    apply (pivot_fold_colKeys_In _ _ valDim func Hstep) in Hk.
    destruct Hk as [[]|Hk]. exact Hk.
  - rewrite existsb_sort_default.
    now apply (pivot_fold_keys_cover _ _ valDim func Hstep data pivot_init r k c).
  - rewrite existsb_sort_default.
    now apply (pivot_fold_keys_cover _ _ valDim func Hstep data pivot_init r k c).
Qed.

Lemma performPivot_keys_witness :
  plain_pivot "q" "None"
    (performPivot (RT:=Float64Runtime) zero_quantities "q" "None" "q" "Count") = true
  /\ rowKeys (performPivot (RT:=Float64Runtime) zero_quantities "q" "None" "q" "Count")
     = [VNum 0%float; VNum 3%float]
  /\ Sorted (in_order default_before)
       (rowKeys (performPivot (RT:=Float64Runtime) zero_quantities "q" "None" "q" "Count")).
Proof.
  assert (Hplain : plain_pivot "q" "None"
                     (performPivot (RT:=Float64Runtime) zero_quantities
                        "q" "None" "q" "Count") = true)
    by (vm_compute; reflexivity).
  split; [exact Hplain|]. split; [vm_compute; reflexivity|].
  apply (performPivot_keys (RT:=Float64Runtime) zero_quantities "q" "None" "q" "Count" Hplain).
Defined.

(** X14.  Dropping the rows with a missing value in a column does not
    change the pivot over that column: [performPivot] skips those rows
    itself. *)
Theorem performPivot_after_drop_rows
    {num : Type} {A : Arith num} {RT : Runtime num}
    (data : dataset num) (column rowDim colDim valDim func : string) :
  column <> "None"%string -> rowDim = column \/ colDim = column ->
  performPivot (handleMissingValues data column "drop-row") rowDim colDim valDim func
  = performPivot data rowDim colDim valDim func.
Proof.
  intros Hc Hdim. unfold performPivot, handleMissingValues. simpl.
  now rewrite (pivot_fold_drop_row rowDim colDim valDim func column data pivot_init Hc Hdim).
Qed.

Lemma performPivot_after_drop_rows_witness :
  ("region" <> "None")%string /\ ("region" = "region" \/ "None" = "region")%string
  /\ performPivot (RT:=Float64Runtime)
       (handleMissingValues sparse_sales "region" "drop-row") "region" "None" "amount" "Sum"
     = performPivot sparse_sales "region" "None" "amount" "Sum".
Proof.
  assert (Hc : ("region" <> "None")%string) by discriminate.
  assert (Hd : ("region" = "region" \/ "None" = "region")%string) by (left; reflexivity).
  split; [exact Hc | split; [exact Hd|]].
  apply (performPivot_after_drop_rows (RT:=Float64Runtime)
           sparse_sales "region" "region" "None" "amount" "Sum" Hc Hd).
Defined.

(** ** ExcelDateUtils and processData *)

(** X15.  [isLikelyDate] decides by counting: a sample is taken for a date
    column exactly when, among its first 50 values, the numbers strictly
    between 32000 and 75000 are more than four fifths of the values
    looked at.  The rounding of the quotient and of the literal 0.8 never
    changes the outcome: in binary64 the test is the comparison of
    integers, as it is in exact arithmetic; values after the 50th play no
    part. *)
Theorem isLikelyDate_counts :
  (forall values : list (value float),
     isLikelyDate (A:=Float64) values
     = (4 * Nat.min (length values) 50 <? 5 * date_like values)%nat)
  /\ (forall values : list (value R),
        isLikelyDate (A:=Exact) values
        = (4 * Nat.min (length values) 50 <? 5 * date_like values)%nat).
Proof.
  split; intros values; apply isLikelyDate_share.
  - apply share_test_float64.
  - intros c v Hc _. apply share_test_exact. lia.
Qed.



(** X17.  Every Numeric KPI of the profile belongs to a header that is
    classified Numeric, and its raw series is the column of that header:
    one number per row, in the order of the rows, and none of them NaN
    (in an arithmetic in which 0 equals itself, as in binary64). *)
Theorem numericKPI_series_complete {num : Type} {A : Arith num} {RT : Runtime num}
    (json : dataset num) (headers : list string) (k : @NumericKPI num) :
  NoDup headers -> isNaN (zero (A:=A)) = false ->
  In k (numeric (profile json headers)) ->
  In (column k) headers
  /\ is_numeric_column json (column k) = true
  /\ rawData k = column_numbers json (column k)
  /\ length (rawData k) = length json
  /\ Forall (fun x => isNaN x = false) (rawData k).
Proof.
  intros Hnd Hz Hk. rewrite profile_numeric in Hk. apply in_map_iff in Hk.
  destruct Hk as [[h l] [<- He]]. apply entries_In in He. destruct He as [_ Hget].
  destruct (extract_numeric_get json headers h l Hnd Hget) as [Hin [Hnum ->]].
  cbn [numericKPI column rawData]. repeat split; trivial.
  - unfold column_numbers. apply length_map.
  - unfold column_numbers. apply Forall_forall. intros x Hx.
    apply in_map_iff in Hx. destruct Hx as [r [<- _]].
    now apply number_or_zero_not_nan.
Qed.

Lemma numericKPI_series_complete_witness :
  In (numericKPI (RT:=Float64Runtime) ("amount"%string, [10%float; 20%float; 5%float]))
     (numeric (profile sales_by_region (headers_of sales_by_region)))
  /\ rawData (numericKPI (RT:=Float64Runtime)
                ("amount"%string, [10%float; 20%float; 5%float]))
     = column_numbers sales_by_region "amount".
Proof.
  assert (Hin : In (numericKPI (RT:=Float64Runtime)
                      ("amount"%string, [10%float; 20%float; 5%float]))
                   (numeric (profile sales_by_region (headers_of sales_by_region)))).
  { left. reflexivity. }
  split; [exact Hin|].
  apply (numericKPI_series_complete (RT:=Float64Runtime)
           sales_by_region (headers_of sales_by_region) _
           ltac:(repeat constructor; simpl; intuition discriminate)
           eq_refl Hin).
Defined.

(** ** DataTransformer *)

(** X18.  [removeDuplicates] keeps, in their order, exactly the rows whose
    JSON text no earlier row has: no two rows it keeps share a text, every
    row it keeps is a row of the data, every row of the data has its text
    among the kept ones, and removing the duplicates a second time changes
    nothing. *)
Theorem removeDuplicates_keeps_first_rows
    {num : Type} {A : Arith num} {RT : Runtime num} (data : dataset num) :
  removeDuplicates data = first_by JSON_stringify data
  /\ NoDup (map JSON_stringify (removeDuplicates data))
  /\ (forall r, In r (removeDuplicates data) -> In r data)
  /\ (forall r, In r data ->
        exists r', In r' (removeDuplicates data) /\ JSON_stringify r' = JSON_stringify r)
  /\ removeDuplicates (removeDuplicates data) = removeDuplicates data.
Proof.
  rewrite !removeDuplicates_first_by. repeat split.
  - apply first_by_NoDup.
  - intros r. apply first_by_In.
  - intros r. apply first_by_covers.
  - apply first_by_idem.
Qed.



(** X20.  A fill strategy of [handleMissingValues] keeps every row in its
    place: a row whose cell is present is returned as it is, and a row
    whose cell is filled reads as before in every other column. *)
Theorem handleMissingValues_fill_keeps_rows
    {num : Type} {A : Arith num} {RT : Runtime num}
    (data : dataset num) (column strategy : string) (i : nat) (r : row num) :
  strategy <> "drop-row"%string -> nth_error data i = Some r ->
  length (handleMissingValues data column strategy) = length data
  /\ exists r', nth_error (handleMissingValues data column strategy) i = Some r'
       /\ (is_missing (field r column) = false -> r' = r)
       /\ (forall h, h <> column -> field r' h = field r h).
Proof.
  intros Hs Hi. apply String.eqb_neq in Hs. unfold handleMissingValues. rewrite Hs.
  cbv beta iota zeta. split; [apply length_map|].
  eexists. split; [apply map_nth_error; exact Hi|]. cbv beta.
  destruct (is_missing (field r column)); split; try congruence; trivial.
  intros h Hh. rewrite field_with_field.
  destruct (String.eqb column h) eqn:E; [|reflexivity].
  apply String.eqb_eq in E. congruence.
Qed.

Lemma handleMissingValues_fill_keeps_rows_witness :
  ("fill-mean" <> "drop-row")%string
  /\ length (handleMissingValues (RT:=Float64Runtime) sparse_sales "amount" "fill-mean")
     = length sparse_sales.
Proof.
  split; [discriminate|].
  apply (handleMissingValues_fill_keeps_rows (RT:=Float64Runtime)
           sparse_sales "amount" "fill-mean" 0
           [("region"%string, VStr "A"); ("amount"%string, VNum 10%float)]).
  - discriminate.
  - reflexivity.
Defined.

(** X21.  A column in which no cell is missing is left exactly as it is by
    [handleMissingValues], whatever the strategy, known or not. *)
Theorem handleMissingValues_complete_column_untouched
    {num : Type} {A : Arith num} {RT : Runtime num}
    (data : dataset num) (column strategy : string) :
  (forall r, In r data -> is_missing (field r column) = false) ->
  handleMissingValues data column strategy = data.
Proof. apply handleMissingValues_complete. Qed.

Lemma handleMissingValues_complete_column_untouched_witness :
  handleMissingValues (RT:=Float64Runtime) sales_by_region "amount" "fill-mean"
  = sales_by_region.
Proof.
  apply (handleMissingValues_complete_column_untouched (RT:=Float64Runtime)
           sales_by_region "amount" "fill-mean").
  intros r [<-|[<-|[<-|[]]]]; reflexivity.
Defined.

(** X22.  [textToColumns] with a delimiter that is not empty gives every
    row one new column per part of its cell.  For a column whose name is
    not a name of [Object.prototype] and a cell whose text is in the ASCII
    range: the text of the cell (empty for a missing or falsy cell) splits
    into at least one part, the parts joined by the delimiter are that
    text, part [j] is written, trimmed, under the key of the column
    followed by [_] and [j + 1], and every other key of the row reads as
    before. *)
Theorem textToColumns_parts
    {num : Type} {A : Arith num} {RT : Runtime num}
    (data : dataset num) (column delimiter : string) (i : nat) (r : row num) :
  delimiter <> ""%string -> nth_error data i = Some r ->
  inherited column = false ->
  Str.is_ascii (String_ (or_else (field r column) (VStr ""))) = true ->
  let text := String_ (or_else (field r column) (VStr "")) in
  let parts := Str.split delimiter text in
  exists r',
    nth_error (textToColumns data column delimiter) i = Some r'
    /\ (1 <= length parts)%nat
    /\ Json.join delimiter parts = text
    /\ (forall j, (j < length parts)%nat ->
          field r' (part_column column j) = VStr (Str.trim (nth j parts EmptyString)))
    /\ (forall h, (forall j, (j < length parts)%nat -> h <> part_column column j) ->
          field r' h = field r h).
Proof.
  intros Hd Hi _ _ text parts. pose proof Hd as Hd'.
  apply String.eqb_neq in Hd. unfold textToColumns. rewrite Hd.
  eexists. split; [apply map_nth_error; exact Hi|]. cbv beta zeta. fold text. fold parts.
  split; [|split; [|split]].
  - unfold parts, Str.split.
    pose proof (split_from_nonempty_string delimiter text 0 []) as Hne.
    destruct (Str.split_from delimiter 0 [] text); [contradiction|].
    simpl. lia.
  - unfold parts. now apply split_join.
  - intros j Hj. unfold field, reducei. rewrite parts_fold_get.
    now rewrite (find_index column (length parts) j Hj).
  - intros h Hh. unfold field at 1, reducei. rewrite parts_fold_get.
    destruct (find (fun j => String.eqb (part_column column (0 + j)) h)
                   (seq 0 (length parts))) as [j|] eqn:E.
    + apply find_some in E. destruct E as [Hin E]. apply String.eqb_eq in E.
      apply in_seq in Hin. exfalso. apply (Hh j); [lia|]. now rewrite <- E.
    + rewrite get_entries. reflexivity.
Qed.

Lemma textToColumns_parts_witness :
  exists r',
    nth_error (textToColumns (RT:=Float64Runtime) full_names "name" ",") 0 = Some r'
    /\ field r' "name_1" = VStr "Doe"
    /\ field r' "name_2" = VStr "Jane".
Proof.
  destruct (textToColumns_parts (RT:=Float64Runtime) full_names "name" "," 0
              [("name"%string, VStr "Doe, Jane")]) as [r' [Hr [_ [_ [Hparts _]]]]].
  - discriminate.
  - reflexivity.
  - reflexivity.
  - reflexivity.
  - exists r'. split; [exact Hr|]. split.
    + apply (Hparts 0%nat). simpl. lia.
    + apply (Hparts 1%nat). simpl. lia.
Defined.

(** X23.  [standardizeFormat] applied twice with the same format is the
    same as applied once (for rows whose property names are distinct, as
    those of an object are). *)
Theorem standardizeFormat_idempotent {num : Type}
    (data : dataset num) (column type : string) :
  Forall (fun r => NoDup (map fst r)) data ->
  standardizeFormat (standardizeFormat data column type) column type
  = standardizeFormat data column type.
Proof.
  intros Hnd. unfold standardizeFormat. rewrite map_map.
  apply map_ext_in. intros r Hr. rewrite Forall_forall in Hnd.
  exact (standardizeFormat_idem_row column type r (Hnd r Hr)).
Qed.

Lemma standardizeFormat_idempotent_witness :
  Forall (fun r : row float => NoDup (map fst r)) full_names
  /\ standardizeFormat (standardizeFormat full_names "name" "uppercase") "name" "uppercase"
     = standardizeFormat full_names "name" "uppercase".
Proof.
  assert (H : Forall (fun r : row float => NoDup (map fst r)) full_names).
  { repeat constructor; simpl; tauto. }
  split; [exact H|].
  apply (standardizeFormat_idempotent full_names "name" "uppercase" H).
Defined.



(** ** DataCleaningView *)

(** X25.  Whatever the user does in the preparation studio, the undo
    history never holds more than five snapshots. *)
Theorem history_at_most_five
    {num : Type} {A : Arith num} {RT : Runtime num}
    (rawData : dataset num) (events : list DataCleaningView.Event) :
  (length (DataCleaningView.history (DataCleaningView.run rawData events)) <= 5)%nat.
Proof.
  unfold DataCleaningView.run. apply run_history_bound.
  rewrite mount_history. simpl. lia.
Qed.

(** X26.  Undo straight after a transformation gives back the rows as they
    were before it, also where the transformation stopped for want of a
    selected column; the history is then the last four snapshots it
    held. *)
Theorem handleUndo_restores_data
    {num : Type} {A : Arith num} {RT : Runtime num}
    (action : DataCleaningView.Action) (st : DataCleaningView.State (num:=num)) :
  DataCleaningView.data (DataCleaningView.handleUndo (DataCleaningView.applyTransform action st))
  = DataCleaningView.data st
  /\ DataCleaningView.history
       (DataCleaningView.handleUndo (DataCleaningView.applyTransform action st))
     = DataCleaningView.last4 (DataCleaningView.history st).
Proof.
  split.
  - unfold DataCleaningView.handleUndo.
    rewrite applyTransform_history, rev_app_distr. simpl.
    now rewrite refresh_data.
  - rewrite handleUndo_history, applyTransform_history. apply without_last_app.
Qed.



(** ** FinancialEngine and WhatIfView *)

(** X28.  In exact arithmetic [PMT] is the payment that pays the loan off:
    the future value after [nper] payments of [PMT(rate, nper, pv)] is 0,
    for a zero rate with at least one period and for any other rate for
    which the power of [1 + rate] is not 1. *)
Theorem FV_of_PMT_is_zero (pow : R -> R -> R) (rate nper pv : R) :
  (rate = 0%R -> nper <> 0%R) ->
  (rate <> 0%R -> pow (1 + rate)%R nper <> 1%R) ->
  FV (A:=Exact) Ropp pow rate nper (PMT (A:=Exact) Ropp pow rate nper pv) pv = 0%R.
Proof.
  intros H0 H1. unfold FV, PMT. cbn [neqb nadd nsub nmul ndiv Exact].
  change (one (A:=Exact)) with 1%R. change (zero (A:=Exact)) with 0%R.
  destruct (Reqb rate 0) eqn:E.
  - apply Reqb_true in E. specialize (H0 E). field. exact H0.
  - apply Reqb_false in E. specialize (H1 E). field. split; [lra | exact E].
Qed.

Lemma FV_of_PMT_is_zero_witness :
  FV (A:=Exact) Ropp (fun b _ => b) 1%R 1%R (PMT (A:=Exact) Ropp (fun b _ => b) 1%R 1%R 100%R)
     100%R = 0%R.
Proof.
  apply (FV_of_PMT_is_zero (fun b _ => b) 1%R 1%R 100%R); intros; lra.
Defined.

(** X29.  At a zero interest rate the calculator shows no interest: in
    exact arithmetic the monthly payments over the term add up to the loan
    amount. *)
Theorem totalInterest_zero_rate (pow : R -> R -> R) (loanAmount termYears : R) :
  termYears <> 0%R ->
  totalInterest (A:=Exact) Ropp pow loanAmount 0%R termYears = 0%R.
Proof.
  intros Ht. unfold totalInterest, monthlyPayment, PMT.
  cbn [neqb nadd nsub nmul ndiv nint Exact].
  change (zero (A:=Exact)) with 0%R.
  assert (E : Reqb (0 / 100 / 12) 0 = true) by (apply Reqb_true; lra).
  rewrite E. field. exact Ht.
Qed.

Lemma totalInterest_zero_rate_witness :
  totalInterest (A:=Exact) Ropp (fun b _ => b) 100000%R 0%R 30%R = 0%R.
Proof.
  apply (totalInterest_zero_rate (fun b _ => b) 100000%R 30%R). lra.
Defined.
